(** * Cure-Link: the medicine listing pipeline

    A shallow embedding of the listing pipeline of the Cure-Link backend:

    - [src/middleware/search.middleware.js]   ([calculateDistance], the search
      middleware: filter composition, distance annotation, distance sort);
    - [src/middleware/paginate.middleware.js] (page / limit parsing, the
      in-memory slice, the server-side query, the pagination metadata);
    - the controller [getAllMedicines] / [getAllMedicinesPharmacy];
    - the two listing routes of [src/routes/medicine.route.js].

    Conventions.  Integral JavaScript numbers (page, limit, lengths, counts)
    are integers of [Z]; [NaN] is [None].  Coordinates and distances of the
    pipeline are real numbers of [R] (an idealisation of IEEE doubles: no
    rounding error, no infinities), again with [None] for [NaN] /
    [undefined] / [null] where the source can produce them; the distance
    function is also given on the doubles themselves, in [Doubles].
    Built-ins of the host language ([parseInt], [parseFloat],
    [Array.prototype.slice], [Array.prototype.sort], [RegExp]) and of the
    persistence client (filters, [find], [countDocuments], [skip], [limit],
    [sort]) are modelled after their documented behaviour, each in a module
    of its own.

    Range in which the idealisations agree with the source.  Integers: up
    to [JS.MAX_SAFE_INTEGER] in absolute value.  Texts: ASCII
    ([JS.asciiOnly]; the white space of [JS.is_ws] is the ASCII part of
    what the host trims).  Coordinate texts: those of [JS.readsFinite].
    Search patterns: the fragment of [RegExp]; a listing with a pattern
    outside it is [Unmodelled]. *)

From Stdlib Require Import ZArith Reals Lia Lra Ascii String.
From Stdlib Require Floats.
From stdpp Require Import base option list sorting strings gmap.

Local Open Scope Z_scope.

(* ===================================================================== *)
(** ** Host-language built-ins on strings, numbers and arrays             *)
(* ===================================================================== *)

Module JS.

(** White space skipped by [String.prototype.trim], [parseInt] and
    [parseFloat] (the ASCII part of it). *)
Definition is_ws (c : ascii) : bool :=
  let n := nat_of_ascii c in
  ((n =? 32) || (n =? 9) || (n =? 10) || (n =? 11) || (n =? 12) || (n =? 13))%nat.

Fixpoint trimStart (s : string) : string :=
  match s with
  | String c r => if is_ws c then trimStart r else s
  | EmptyString => EmptyString
  end.

Definition str_rev (s : string) : string :=
  string_of_list_ascii (rev (list_ascii_of_string s)).

Definition trimEnd (s : string) : string := str_rev (trimStart (str_rev s)).

(** [s.trim()] *)
Definition trim (s : string) : string := trimEnd (trimStart s).

(** Truthiness of a string: every string but the empty one. *)
Definition truthy_str (s : string) : bool :=
  match s with EmptyString => false | _ => true end.

(** Value of a digit in the given radix (10 or 16). *)
Definition digit (radix : Z) (c : ascii) : option Z :=
  let n := Z.of_nat (nat_of_ascii c) in
  let v :=
    if (48 <=? n) && (n <=? 57) then Some (n - 48)
    else if (97 <=? n) && (n <=? 102) then Some (n - 87)
    else if (65 <=? n) && (n <=? 70) then Some (n - 55)
    else None in
  match v with
  | Some d => if d <? radix then Some d else None
  | None => None
  end.

(** Longest prefix of digits; [acc] is [None] until a digit was read. *)
Fixpoint digits (radix : Z) (s : string) (acc : option Z) : option Z :=
  match s with
  | String c r =>
      match digit radix c with
      | Some d => digits radix r (Some (radix * default 0 acc + d))
      | None => acc
      end
  | EmptyString => acc
  end.

Definition strip_sign (s : string) : Z * string :=
  match s with
  | String "-" r => (-1, r)
  | String "+" r => (1, r)
  | _ => (1, s)
  end.

Definition strip_hex (s : string) : Z * string :=
  match s with
  | String "0" (String "x" r) => (16, r)
  | String "0" (String "X" r) => (16, r)
  | _ => (10, s)
  end.

(** [parseInt(s)] without a radix argument: leading white space, a sign,
    a [0x] prefix, then the longest run of digits; [None] is [NaN]. *)
Definition parseInt_str (s : string) : option Z :=
  let '(sign, s1) := strip_sign (trimStart s) in
  let '(radix, s2) := strip_hex s1 in
  (fun n => sign * n) <$> digits radix s2 None.

(** [parseInt(p)] of a query parameter: [undefined] reads as the text
    ["undefined"], which starts with no digit.  The result is the integer
    the digits spell; the source rounds it to a double, which is the same
    number up to [MAX_SAFE_INTEGER] (below). *)
Definition parseInt (p : option string) : option Z :=
  match p with Some s => parseInt_str s | None => None end.

(** A run of decimal digits: its value on top of [acc], how many were
    read, and the rest of the text. *)
Fixpoint dec_run (s : string) (acc : Z) (n : nat) : Z * nat * string :=
  match s with
  | String c r =>
      match digit 10 c with
      | Some d => dec_run r (10 * acc + d) (S n)
      | None => (acc, n, s)
      end
  | EmptyString => (acc, n, s)
  end.

(** The exponent part [e±ddd], [0] when there is none. *)
Definition exponent (s : string) : Z :=
  match s with
  | String c r =>
      if Ascii.eqb c "e" || Ascii.eqb c "E" then
        let '(sign, r1) := strip_sign r in
        let '(v, n, _) := dec_run r1 0 0 in
        if (n =? 0)%nat then 0 else sign * v
      else 0
  | EmptyString => 0
  end.

(** [parseFloat(s)]: leading white space, a sign, digits with an optional
    fraction and exponent; [None] is [NaN].  The text [Infinity] is not
    modelled (it reads as [NaN] here). *)
Definition parseFloat (s : string) : option R :=
  let '(sign, s1) := strip_sign (trimStart s) in
  let '(ip, ni, s2) := dec_run s1 0 0 in
  let '(m, nf, s3) :=
    match s2 with
    | String "." r => dec_run r ip 0
    | _ => (ip, 0%nat, s2)
    end in
  if (ni + nf =? 0)%nat then None
  else Some (IZR (sign * m) * powerRZ 10 (exponent s3 - Z.of_nat nf))%R.

(** [Number.MAX_SAFE_INTEGER], [2^53 - 1]: up to it every integer is a
    double and sums, differences and products of integers are exact, so
    that the integers of this model are the numbers of the source. *)
Definition MAX_SAFE_INTEGER : Z := 2 ^ 53 - 1.

(** [Number.MAX_VALUE], the greatest double, [(2^53 - 1) * 2^971]. *)
Definition MAX_VALUE : R := IZR ((2 ^ 53 - 1) * 2 ^ 971).

(** A text of ASCII characters only.  On such a text the white space
    that [trim], [parseInt] and [parseFloat] skip is that of [is_ws]. *)
Definition asciiOnly (s : string) : bool :=
  forallb (fun c => (nat_of_ascii c <? 128)%nat) (list_ascii_of_string s).

(** A query parameter that is absent or an ASCII text. *)
Definition asciiParam (p : option string) : bool :=
  match p with Some s => asciiOnly s | None => true end.

(** The texts that [parseFloat] reads as [Infinity] or [-Infinity]. *)
Definition spellsInfinity (s : string) : bool :=
  String.prefix "Infinity" (strip_sign (trimStart s)).2.

(** The texts on which [parseFloat] above is the function of the source:
    an ASCII text that does not spell [Infinity] and whose number is not
    beyond [Number.MAX_VALUE] (the source reads both as an infinite number,
    which is not [NaN]). *)
Definition readsFinite (s : string) : Prop :=
  asciiOnly s = true /\
  spellsInfinity s = false /\
  match parseFloat s with
  | Some r => (Rabs r <= MAX_VALUE)%R
  | None => True
  end.

(** [n || d] on numbers: [NaN] and [0] are falsy. *)
Definition num_or (n : option Z) (d : Z) : Z :=
  match n with
  | Some v => if v =? 0 then d else v
  | None => d
  end.

(** [Math.ceil(a / b)] for integers [a] and [b <> 0]. *)
Definition ceil_div (a b : Z) : Z := - ((- a) / b).

(** Relative index of [Array.prototype.slice]: a negative index counts
    from the end, and the result is clamped to [0 .. len]. *)
Definition rel_index (len i : Z) : Z :=
  if i <? 0 then Z.max (len + i) 0 else Z.min i len.

(** [arr.slice(start, end)]. *)
Definition slice {A : Type} (arr : list A) (start end_ : Z) : list A :=
  let len := Z.of_nat (length arr) in
  let k := rel_index len start in
  let fin := rel_index len end_ in
  take (Z.to_nat (fin - k)) (drop (Z.to_nat k) arr).

End JS.

(* ===================================================================== *)
(** ** Regular expressions: [new RegExp(pattern, 'i')] and [test]          *)
(* ===================================================================== *)

(** The pattern language of the host is modelled on a fragment: literal
    characters, [.], groups [( )], alternation [|], the quantifiers [*], [+],
    [?] (optionally lazy) and identity escapes.  Patterns outside the
    fragment (classes, anchors, braces, class escapes, [(?...)] groups) are
    reported as [Unsupported], apart from the malformed ones, which the host
    rejects with a [SyntaxError].  Characters are bytes. *)
Module RegExp.

Inductive re : Type :=
| Eps
| Chr (c : ascii)
| Any
| Cat (r s : re)
| Alt (r s : re)
| Star (r : re)
| Void.

(** Canonicalisation under the [i] flag: letters compare in upper case. *)
Definition canon (c : ascii) : ascii :=
  let n := nat_of_ascii c in
  if ((97 <=? n) && (n <=? 122))%nat then ascii_of_nat (n - 32) else c.

Definition is_line_terminator (c : ascii) : bool :=
  let n := nat_of_ascii c in ((n =? 10) || (n =? 13))%nat.

Fixpoint nullable (r : re) : bool :=
  match r with
  | Eps => true
  | Chr _ => false
  | Any => false
  | Cat r s => nullable r && nullable s
  | Alt r s => nullable r || nullable s
  | Star _ => true
  | Void => false
  end.

(** What is left of [r] after reading the character [a]. *)
Fixpoint deriv (a : ascii) (r : re) : re :=
  match r with
  | Eps => Void
  | Chr c => if Ascii.eqb (canon a) (canon c) then Eps else Void
  | Any => if is_line_terminator a then Void else Eps
  | Cat r s =>
      if nullable r then Alt (Cat (deriv a r) s) (deriv a s)
      else Cat (deriv a r) s
  | Alt r s => Alt (deriv a r) (deriv a s)
  | Star r => Cat (deriv a r) (Star r)
  | Void => Void
  end.

(** Some prefix of [s] matches [r]. *)
Fixpoint match_prefix (r : re) (s : list ascii) : bool :=
  nullable r ||
  match s with
  | a :: s' => match_prefix (deriv a r) s'
  | [] => false
  end.

(** Some substring of [s] matches [r]. *)
Fixpoint search (r : re) (s : list ascii) : bool :=
  match_prefix r s ||
  match s with
  | _ :: s' => search r s'
  | [] => false
  end.

(** [regex.test(s)]: the pattern is not anchored, a match may start and
    end anywhere in the text. *)
Definition test (r : re) (s : string) : bool :=
  search r (list_ascii_of_string s).

(** *** The pattern parser *)

Inductive compiled : Type :=
| Compiled (r : re)
| SyntaxError
| Unsupported.

(** Whether the last atom already carries a quantifier. *)
Inductive qstate : Type := Fresh | Quantified | Lazy.

(** One open alternative list: the alternatives closed so far, the terms
    of the current alternative, and the last atom, still open to a
    quantifier. *)
Record frame : Type := Frame {
  f_alt : option re;
  f_seq : re;
  f_last : option (re * qstate)
}.

Definition empty_frame : frame := Frame None Eps None.

(** The current alternative with its last atom appended. *)
Definition flush (f : frame) : re :=
  match f_last f with
  | Some (a, _) => Cat (f_seq f) a
  | None => f_seq f
  end.

(** The disjunction a frame stands for. *)
Definition close (f : frame) : re :=
  match f_alt f with
  | Some d => Alt d (flush f)
  | None => flush f
  end.

Definition push_atom (a : re) (f : frame) : frame :=
  Frame (f_alt f) (flush f) (Some (a, Fresh)).

Definition bar (f : frame) : frame :=
  Frame (Some (close f)) Eps None.

Definition quantify (q : ascii) (a : re) : re :=
  if Ascii.eqb q "*" then Star a
  else if Ascii.eqb q "+" then Cat a (Star a)
  else Alt a Eps.

(** Characters with a meaning of their own in a pattern. *)
Definition is_syntax_char (c : ascii) : bool :=
  existsb (Ascii.eqb c)
    ["^"; "$"; "\"; "."; "*"; "+"; "?"; "("; ")"; "["; "]"; "{"; "}"; "|"]%char.

Definition is_alnum (c : ascii) : bool :=
  let n := nat_of_ascii c in
  (((48 <=? n) && (n <=? 57)) || ((65 <=? n) && (n <=? 90)) ||
   ((97 <=? n) && (n <=? 122)))%nat.

Definition is_quantifier (c : ascii) : bool :=
  Ascii.eqb c "*" || Ascii.eqb c "+" || Ascii.eqb c "?".

Fixpoint parse (p : list ascii) (cur : frame) (stk : list frame) : compiled :=
  match p with
  | [] =>
      match stk with
      | [] => Compiled (close cur)
      | _ :: _ => SyntaxError            (* unterminated group *)
      end
  | c :: rest =>
      if Ascii.eqb c "(" then
        match rest with
        | "?"%char :: _ => Unsupported   (* (?: (?= (?! (?< *)
        | _ => parse rest empty_frame (cur :: stk)
        end
      else if Ascii.eqb c ")" then
        match stk with
        | [] => SyntaxError              (* unmatched ) *)
        | up :: stk' => parse rest (push_atom (close cur) up) stk'
        end
      else if Ascii.eqb c "|" then parse rest (bar cur) stk
      else if is_quantifier c then
        match f_last cur with
        | None => SyntaxError            (* nothing to repeat *)
        | Some (a, Fresh) =>
            parse rest
              (Frame (f_alt cur) (f_seq cur) (Some (quantify c a, Quantified)))
              stk
        | Some (a, Quantified) =>
            if Ascii.eqb c "?" then
              parse rest (Frame (f_alt cur) (f_seq cur) (Some (a, Lazy))) stk
            else SyntaxError             (* nothing to repeat *)
        | Some (_, Lazy) => SyntaxError  (* nothing to repeat *)
        end
      else if Ascii.eqb c "." then parse rest (push_atom Any cur) stk
      else if Ascii.eqb c "\" then
        match rest with
        | [] => SyntaxError              (* \ at end of pattern *)
        | d :: rest' =>
            if is_alnum d then Unsupported
            else parse rest' (push_atom (Chr d) cur) stk
        end
      else if is_syntax_char c then Unsupported   (* [ ] { } ^ $ *)
      else parse rest (push_atom (Chr c) cur) stk
  end.

(** [new RegExp(pattern, 'i')] *)
Definition compile (pattern : string) : compiled :=
  parse (list_ascii_of_string pattern) empty_frame [].

(** A text without pattern syntax characters. *)
Definition plain (term : string) : bool :=
  forallb (fun c => negb (is_syntax_char c)) (list_ascii_of_string term).

(** The text with its letters in upper case. *)
Definition fold_case (s : list ascii) : list ascii := map canon s.

(** [s] contains [term] as a substring, letter case apart. *)
Definition ci_includes (s term : string) : Prop :=
  exists pre mid post : list ascii,
    list_ascii_of_string s = pre ++ mid ++ post /\
    fold_case mid = fold_case (list_ascii_of_string term).

(** The texts a pattern matches in full. *)
Inductive lang : re -> list ascii -> Prop :=
| lang_eps : lang Eps []
| lang_chr (c a : ascii) : canon a = canon c -> lang (Chr c) [a]
| lang_any (a : ascii) : is_line_terminator a = false -> lang Any [a]
| lang_cat (r s : re) (u v : list ascii) :
    lang r u -> lang s v -> lang (Cat r s) (u ++ v)
| lang_alt_l (r s : re) (u : list ascii) : lang r u -> lang (Alt r s) u
| lang_alt_r (r s : re) (u : list ascii) : lang s u -> lang (Alt r s) u
| lang_star_nil (r : re) : lang (Star r) []
| lang_star_app (r : re) (u v : list ascii) :
    lang r u -> lang (Star r) v -> lang (Star r) (u ++ v).

End RegExp.


(* ===================================================================== *)
(** ** Stable sorting                                                     *)
(* ===================================================================== *)

(** [Array.prototype.sort] is a stable sort, and so is the sort assumed of
    the persistence client: elements that the comparison does not separate
    keep their input order.  Both are modelled by insertion, driven by the
    test [gt x y], "x must come after y". *)
Section StableSort.
Context {A : Type} (gt : A -> A -> bool).

(** Insert [x], which precedes every element of [l] in the input. *)
Fixpoint insert_by (x : A) (l : list A) : list A :=
  match l with
  | [] => [x]
  | y :: l' => if gt x y then y :: insert_by x l' else x :: l
  end.

Fixpoint sort_by (l : list A) : list A :=
  match l with
  | [] => []
  | x :: l' => insert_by x (sort_by l')
  end.
End StableSort.

(* ===================================================================== *)
(** ** The coordinate distance function                                   *)
(* ===================================================================== *)

Module Geo.
Local Open Scope R_scope.

Record coords : Type := Coords { latitude : R; longitude : R }.

(** Equality of real numbers is decidable (classically). *)
#[global] Instance R_eq_dec : EqDecision R := Req_dec_T.

(** [Math.atan2(y, x)] *)
Definition atan2 (y x : R) : R :=
  if Rlt_dec 0 x then atan (y / x)
  else if Rlt_dec x 0 then
    (if Rle_dec 0 y then atan (y / x) + PI else atan (y / x) - PI)
  else if Rlt_dec 0 y then PI / 2
  else if Rlt_dec y 0 then - (PI / 2)
  else 0.

(** The haversine term [a] of [calculateDistance]. *)
Definition haversine (lat1 lon1 lat2 lon2 : R) : R :=
  let dLat := (lat2 - lat1) * PI / 180 in
  let dLon := (lon2 - lon1) * PI / 180 in
  sin (dLat / 2) * sin (dLat / 2) +
  cos (lat1 * PI / 180) * cos (lat2 * PI / 180) *
  sin (dLon / 2) * sin (dLon / 2).

(** [calculateDistance(lat1, lon1, lat2, lon2)], in kilometres, on real
    numbers.  [Math.sqrt] is the total square root of [R]: its two
    arguments lie in [0, 1] for all inputs (lemma [haversine_range] below),
    where the two agree.  [Doubles.calculateDistance] below is the
    function on doubles. *)
Definition calculateDistance (lat1 lon1 lat2 lon2 : R) : R :=
  let R_ := 6371 in
  let a := haversine lat1 lon1 lat2 lon2 in
  let c := 2 * atan2 (sqrt a) (sqrt (1 - a)) in
  R_ * c.

(** [parseFloat(d.toFixed(2))] for [d >= 0]: the nearest multiple of
    [0.01], a half rounding up. *)
Definition toFixed2 (d : R) : R := IZR (Int_part (d * 100 + / 2)) / 100.

(** [distance ? parseFloat(distance.toFixed(2)) : null]: the number [0]
    is falsy. *)
Definition roundedOrNull (distance : option R) : option R :=
  match distance with
  | Some d => if Req_dec_T d 0 then None else Some (toFixed2 d)
  | None => None
  end.

End Geo.

(* ===================================================================== *)
(** ** [calculateDistance] on doubles                                     *)
(* ===================================================================== *)

(** The numbers of the host language are the binary64 numbers of IEEE 754.
    [Geo] above idealises them as real numbers, which serves where only
    the presence and the order of the distances matter.  Here is
    [calculateDistance] on the numbers it runs on: the primitive floats,
    whose [+], [-], [*], [/] and square root are the correctly rounded
    operations of the standard, as the host language has them.
    [Math.sin], [Math.cos] and [Math.atan2] are left to the implementation
    by the language (their results are implementation-approximated), so
    they are parameters here. *)
Module Doubles.
Import PrimFloat.
Local Open Scope float_scope.

(** [Math.PI] *)
Definition PI : float := 0x1.921fb54442d18p+1.

(** An implementation of [Math.sin], [Math.cos] and [Math.atan2]. *)
Record math : Type := Math {
  sin : float -> float;
  cos : float -> float;
  atan2 : float -> float -> float
}.

(** What is used of an implementation.  The language requires
    [sin_zero] (the sine of [+0] is [+0]), [sin_not_finite] (the sine of
    [NaN], [Infinity] and [-Infinity] is [NaN]), [atan2_nan] (a [NaN]
    argument gives [NaN]) and [atan2_zero] ([atan2(+0, x)] is [+0] for
    [x > 0]).  [sin_odd] and [cos_range] (a cosine lies between -1 and 1)
    hold of the fdlibm routines that the engine of Node.js uses. *)
Record lawful (M : math) : Prop := Lawful {
  sin_zero : sin M 0 = 0;
  sin_not_finite : forall x, is_finite x = false -> sin M x = nan;
  sin_odd : forall x, sin M (- x) = - sin M x;
  cos_range : forall x, is_finite x = true -> (abs (cos M x) <=? 1) = true;
  atan2_nan : forall y x, is_nan y || is_nan x = true -> atan2 M y x = nan;
  atan2_zero : forall x, (0 <? x) = true -> atan2 M 0 x = 0
}.

(** The haversine term [a] of [calculateDistance]. *)
Definition haversine (M : math) (lat1 lon1 lat2 lon2 : float) : float :=
  let dLat := (lat2 - lat1) * PI / 180 in
  let dLon := (lon2 - lon1) * PI / 180 in
  sin M (dLat / 2) * sin M (dLat / 2) +
  cos M (lat1 * PI / 180) * cos M (lat2 * PI / 180) *
  sin M (dLon / 2) * sin M (dLon / 2).

(** [calculateDistance(lat1, lon1, lat2, lon2)] *)
Definition calculateDistance (M : math) (lat1 lon1 lat2 lon2 : float) : float :=
  let R_ := 6371 in
  let a := haversine M lat1 lon1 lat2 lon2 in
  let c := 2 * atan2 M (sqrt a) (sqrt (1 - a)) in
  R_ * c.

(** [x == y] on numbers: false as soon as one of them is [NaN]. *)
Definition equals (x y : float) : bool := (x =? y).

(** A number of magnitude below [2^k]: a zero, or a finite number whose
    mantissa and exponent add up to at most [k] binary digits. *)
Definition small (k : Z) (X : SpecFloat.spec_float) : Prop :=
  match X with
  | SpecFloat.S754_zero _ => True
  | SpecFloat.S754_finite _ m e => (Z.pos (SpecFloat.digits2_pos m) + e <= k)%Z
  | _ => False
  end.

(** The small-angle approximations [sin x = x], [cos x = 1] and
    [atan2 y x = y / x]: a crude implementation that meets [lawful]. *)
Definition smallAngle : math :=
  Math (fun x => if is_finite x then x else nan)
       (fun x => if is_finite x then 1 else nan)
       (fun y x => y / x).

End Doubles.

(* ===================================================================== *)
(** ** The persistence client: documents, filters, queries                *)
(* ===================================================================== *)

Module Mongo.

(** The owner of a medicine, as [populate('pharmacyId',
    'pharmacyName location')] attaches it. *)
Record pharmacy : Type := Pharmacy {
  pharmacyName : string;
  location : option Geo.coords
}.

(** A document of the Medicine collection (schema of the medicine model,
    with its timestamps).  [pharmacyId] is the populated owner, [None]
    when the reference resolves to no user.  Prices are in hundredths. *)
Record medicine : Type := Medicine {
  _id : string;
  name : string;
  description : string;
  price : Z;
  quantity : Z;
  image : string;
  pharmacyId : option pharmacy;
  isActive : bool;
  createdAt : Z;
  updatedAt : Z
}.

Inductive value : Type :=
| VNum (n : Z)
| VStr (s : string)
| VBool (b : bool).

(** The scalar fields a filter or a sort can name. *)
Definition field (k : string) (m : medicine) : option value :=
  if String.eqb k "_id" then Some (VStr (_id m))
  else if String.eqb k "name" then Some (VStr (name m))
  else if String.eqb k "description" then Some (VStr (description m))
  else if String.eqb k "price" then Some (VNum (price m))
  else if String.eqb k "quantity" then Some (VNum (quantity m))
  else if String.eqb k "image" then Some (VStr (image m))
  else if String.eqb k "isActive" then Some (VBool (isActive m))
  else if String.eqb k "createdAt" then Some (VNum (createdAt m))
  else if String.eqb k "updatedAt" then Some (VNum (updatedAt m))
  else None.

(** A condition on one field: [{ k: v }] or [{ k: /re/i }]. *)
Inductive pred : Type :=
| PEq (v : value)
| PRegex (r : RegExp.re).

(** The value under a top-level key of a filter object: a condition on
    the field of that name, or the list of alternatives of [$or]. *)
Inductive cond : Type :=
| CField (p : pred)
| COr (alts : list (list (string * pred))).

Definition value_eqb (a b : value) : bool :=
  match a, b with
  | VNum x, VNum y => x =? y
  | VStr x, VStr y => String.eqb x y
  | VBool x, VBool y => Bool.eqb x y
  | _, _ => false
  end.

Definition pred_holds (p : pred) (v : value) : bool :=
  match p, v with
  | PEq w, _ => value_eqb v w
  | PRegex r, VStr s => RegExp.test r s
  | PRegex _, _ => false
  end.

Definition field_holds (k : string) (p : pred) (m : medicine) : bool :=
  match field k m with
  | Some v => pred_holds p v
  | None => false
  end.

Definition obj_holds (o : list (string * pred)) (m : medicine) : bool :=
  forallb (fun kp => field_holds kp.1 kp.2 m) o.

Definition cond_holds (k : string) (c : cond) (m : medicine) : bool :=
  match c with
  | CField p => field_holds k p m
  | COr alts => existsb (fun o => obj_holds o m) alts
  end.

(** A document matches a filter object when it meets the condition under
    every key. *)
Definition matches (f : gmap string cond) (m : medicine) : bool :=
  bool_decide (map_Forall (fun k c => cond_holds k c m = true) f).

(** The documents of the collection that match a filter, in stored
    order. *)
Definition matching (coll : list medicine) (f : gmap string cond)
  : list medicine :=
  filter (fun m => matches f m = true) coll.

(** The owner's location, when the document has an owner with one. *)
Definition ownerLocation (m : medicine) : option Geo.coords :=
  match pharmacyId m with
  | Some p => location p
  | None => None
  end.

(** A query under construction: [find(filter)], then optionally [skip],
    [limit], [sort]. *)
Record Query : Type := MkQuery {
  getFilter : gmap string cond;
  q_skip : option Z;
  q_limit : option Z;
  q_sort : option (string * Z)
}.

Definition find (f : gmap string cond) : Query := MkQuery f None None None.

Definition skip (n : Z) (q : Query) : Query :=
  MkQuery (getFilter q) (Some n) (q_limit q) (q_sort q).
Definition limit (n : Z) (q : Query) : Query :=
  MkQuery (getFilter q) (q_skip q) (Some n) (q_sort q).
Definition sort (s : string * Z) (q : Query) : Query :=
  MkQuery (getFilter q) (q_skip q) (q_limit q) (Some s).

(** Order of field values: a missing field first, then numbers, strings,
    booleans. *)
Definition value_gt (a b : option value) : bool :=
  match a, b with
  | None, _ => false
  | Some _, None => true
  | Some (VNum x), Some (VNum y) => y <? x
  | Some (VNum _), Some _ => false
  | Some (VStr x), Some (VStr y) => String.ltb y x
  | Some (VStr _), Some (VNum _) => true
  | Some (VStr _), Some (VBool _) => false
  | Some (VBool x), Some (VBool y) => x && negb y
  | Some (VBool _), Some _ => true
  end.

(** [{ [k]: order }]: ascending for a positive [order], descending for a
    negative one. *)
Definition sort_docs (s : string * Z) (l : list medicine) : list medicine :=
  let '(k, order) := s in
  if 0 <? order then sort_by (fun a b => value_gt (field k a) (field k b)) l
  else sort_by (fun a b => value_gt (field k b) (field k a)) l.

(** [countDocuments(filter)] *)
Definition countDocuments (coll : list medicine) (f : gmap string cond) : Z :=
  Z.of_nat (length (matching coll f)).

(** [query.exec()]: the matching documents, sorted, then skipped, then
    limited, whatever the order of the calls.  A negative skip is
    rejected by the server ([None]); the sign of a limit is dropped and
    a limit of [0] is no limit. *)
Definition exec (coll : list medicine) (q : Query) : option (list medicine) :=
  let found := matching coll (getFilter q) in
  let sorted := match q_sort q with Some s => sort_docs s found | None => found end in
  match q_skip q with
  | Some n =>
      if n <? 0 then None
      else
        let rest := drop (Z.to_nat n) sorted in
        Some (match q_limit q with
              | Some 0 | None => rest
              | Some k => take (Z.to_nat (Z.abs k)) rest
              end)
  | None =>
      Some (match q_limit q with
            | Some 0 | None => sorted
            | Some k => take (Z.to_nat (Z.abs k)) sorted
            end)
  end.

End Mongo.

(* ===================================================================== *)
(** ** Requests and responses                                             *)
(* ===================================================================== *)

Module Http.

(** [req.query]: the parameters of a listing request, each absent or a
    text. *)
Record query : Type := Query {
  page : option string;
  limit : option string;
  search : option string;
  sort : option string;
  order : option string;
  latitude : option string;
  longitude : option string
}.

(** [req.user], as far as the pipeline reads it. *)
Record user : Type := User {
  role : string;
  location : option Geo.coords
}.

(** An element of [req.searchResults]: the document, and its [distance]
    property ([None] is [null]). *)
Record ranked : Type := Ranked {
  item : Mongo.medicine;
  distance : option R
}.

(** A listed element: a plain document, or one carrying a distance. *)
Inductive listed : Type :=
| Plain (m : Mongo.medicine)
| WithDistance (r : ranked).

(** The document of a listed element. *)
Definition doc (l : listed) : Mongo.medicine :=
  match l with
  | Plain m => m
  | WithDistance r => item r
  end.

Record pagination : Type := Pagination {
  currentPage : Z;
  totalPages : Z;
  totalItems : Z;
  itemsPerPage : Z;
  hasNextPage : bool;
  hasPrevPage : bool
}.

(** [req.pagination] *)
Record page_result : Type := PageResult {
  data : list listed;
  meta : pagination
}.

(** The request object as the middlewares read and extend it. *)
Record request : Type := Request {
  req_query : query;
  req_user : option user;
  baseQuery : option Mongo.Query;
  searchResults : option (list listed);
  req_pagination : option page_result
}.

(** What a middleware hands on: the request for [next()], an error for
    [next(err)].  [Unmodelled] marks a search pattern outside the fragment
    of [RegExp]. *)
Inductive outcome (A : Type) : Type :=
| Next (a : A)
| NextErr
| Unmodelled.
Arguments Next {A} a.
Arguments NextErr {A}.
Arguments Unmodelled {A}.

(** The body of a success response: [{ count, medicines, pagination }]. *)
Record body : Type := Body {
  count : Z;
  medicines : list listed;
  body_pagination : option pagination
}.

End Http.

(* ===================================================================== *)
(** ** [search.middleware.js]                                             *)
(* ===================================================================== *)

Module Search.
Import Http.

(** Under a numeric comparator [x] moves behind [y] when
    [cmp(x, y) > 0]. *)
Definition comesAfter {A : Type} (cmp : A -> A -> R) (x y : A) : bool :=
  if Rlt_dec 0 (cmp x y) then true else false.

(** [data.sort(cmp)] *)
Definition Array_sort {A : Type} (cmp : A -> A -> R) (l : list A) : list A :=
  sort_by (comesAfter cmp) l.

(** The guard of the text search: [req.query.search] is a non-empty text
    whose trimmed form is non-empty; the result is the trimmed text. *)
Definition searchTerm (search : option string) : option string :=
  match search with
  | Some s =>
      if JS.truthy_str s && JS.truthy_str (JS.trim s) then Some (JS.trim s)
      else None
  | None => None
  end.

(** A search parameter that is absent, empty or made of white space. *)
Definition blank (search : option string) : bool :=
  match search with
  | Some s => forallb JS.is_ws (list_ascii_of_string s)
  | None => true
  end.

(** [$or: [{ name: searchRegex }, { description: searchRegex }]] *)
Definition orClause (searchRegex : RegExp.re) : Mongo.cond :=
  Mongo.COr [[("name"%string, Mongo.PRegex searchRegex)];
             [("description"%string, Mongo.PRegex searchRegex)]].

(** The filter after the text-search step: [{ ...filter, $or: [...] }]
    when a term is given, the filter itself otherwise. *)
Definition compose (filter : gmap string Mongo.cond) (search : option string)
  : outcome (gmap string Mongo.cond) :=
  match searchTerm search with
  | Some term =>
      match RegExp.compile term with
      | RegExp.Compiled searchRegex =>
          Next (<["$or"%string := orClause searchRegex]> filter)
      | RegExp.SyntaxError => NextErr
      | RegExp.Unsupported => Unmodelled
      end
  | None => Next filter
  end.

(** [Object.keys(filter).length > 0] *)
Definition nonEmpty (filter : gmap string Mongo.cond) : bool :=
  (0 <? size filter)%nat.

(** [userLat] and [userLon]: the query parameters when both are given,
    else the stored location of the authenticated user, else [null]. *)
Definition userLocation (req : request) : option R * option R :=
  match latitude (req_query req), longitude (req_query req) with
  | Some lat, Some lon =>
      if JS.truthy_str lat && JS.truthy_str lon
      then (JS.parseFloat lat, JS.parseFloat lon)
      else
        match req_user req with
        | Some (User _ (Some loc)) =>
            (Some (Geo.latitude loc), Some (Geo.longitude loc))
        | _ => (None, None)
        end
  | _, _ =>
      match req_user req with
      | Some (User _ (Some loc)) =>
          (Some (Geo.latitude loc), Some (Geo.longitude loc))
      | _ => (None, None)
      end
  end.

(** The body of [data.map]: the distance to the owner, when the owner and
    its location are there, rounded; [null] otherwise. *)
Definition annotate (userLat userLon : R) (m : Mongo.medicine) : ranked :=
  let distance :=
    match Mongo.pharmacyId m with
    | Some (Mongo.Pharmacy _ (Some loc)) =>
        Some (Geo.calculateDistance userLat userLon
                (Geo.latitude loc) (Geo.longitude loc))
    | _ => None
    end in
  Ranked m (Geo.roundedOrNull distance).

(** The comparator of [data.sort]. *)
Definition byDistance (a b : ranked) : R :=
  match distance a, distance b with
  | None, None => 0
  | None, Some _ => 1
  | Some _, None => -1
  | Some x, Some y => x - y
  end.

(** The order the comparator stands for: ascending distances, [null]
    after every number. *)
Definition nullsLast (a b : option R) : Prop :=
  match a, b with
  | Some x, Some y => (x <= y)%R
  | None, Some _ => False
  | _, None => True
  end.

(** The Geo Ranker: annotate, then sort by distance. *)
Definition rank (userLat userLon : R) (data : list Mongo.medicine) : list ranked :=
  Array_sort byDistance (map (annotate userLat userLon) data).

(** The middleware.  [model] is the content of the Medicine collection. *)
Definition search (model : list Mongo.medicine) (req : request) : outcome request :=
  let baseQuery0 := default (Mongo.find ∅) (baseQuery req) in
  let filter0 := Mongo.getFilter baseQuery0 in
  match compose filter0 (Http.search (req_query req)) with
  | Next filter =>
      let baseQuery1 :=
        if is_Some_dec (searchTerm (Http.search (req_query req)))
        then Mongo.find filter
        else if nonEmpty filter then Mongo.find filter
        else baseQuery0 in
      match Mongo.exec model baseQuery1 with
      | Some data =>
          let results :=
            match userLocation req with
            | (Some userLat, Some userLon) =>
                map WithDistance (rank userLat userLon data)
            | _ => map Plain data
            end in
          Next (Request (req_query req) (req_user req)
                  (Some (Mongo.find (if nonEmpty filter then filter else ∅)))
                  (Some results)
                  (req_pagination req))
      | None => NextErr
      end
  | NextErr => NextErr
  | Unmodelled => Unmodelled
  end.

End Search.

(* ===================================================================== *)
(** ** [paginate.middleware.js]                                           *)
(* ===================================================================== *)

Module Paginate.
Import Http.

(** [parseInt(req.query.page) || 1] *)
Definition pageOf (q : query) : Z := JS.num_or (JS.parseInt (page q)) 1.

(** [parseInt(req.query.limit) || 10] *)
Definition limitOf (q : query) : Z := JS.num_or (JS.parseInt (limit q)) 10.

(** [req.query.sort || 'createdAt'] *)
Definition sortByOf (q : query) : string :=
  match sort q with
  | Some s => if JS.truthy_str s then s else "createdAt"%string
  | None => "createdAt"%string
  end.

(** [req.query.order === 'desc' ? -1 : 1] *)
Definition orderOf (q : query) : Z :=
  match order q with
  | Some o => if String.eqb o "desc" then -1 else 1
  | None => 1
  end.

(** The pagination object built from [page], [limit] and [total]. *)
Definition metadata (page limit total : Z) : pagination :=
  let totalPages := JS.ceil_div total limit in
  Pagination page totalPages total limit (page <? totalPages) (1 <? page).

(** The branch on [req.searchResults]: the in-memory slice. *)
Definition strategyB (results : list listed) (skip limit : Z) : list listed * Z :=
  let totalItems := Z.of_nat (length results) in
  let startIndex := skip in
  let endIndex := skip + limit in
  (JS.slice results startIndex endIndex, totalItems).

(** The other branch: the query against the collection and the count. *)
Definition strategyA (model : list Mongo.medicine) (req : request)
    (skip limit : Z) (sortObj : string * Z) : option (list listed * Z) :=
  let baseQuery := default (Mongo.find ∅) (baseQuery req) in
  let filter := Mongo.getFilter baseQuery in
  match Mongo.exec model
          (Mongo.sort sortObj (Mongo.limit limit (Mongo.skip skip baseQuery))) with
  | Some data => Some (map Plain data, Mongo.countDocuments model filter)
  | None => None
  end.

(** The total of the branch that [paginate] takes: the length of
    [req.searchResults], or the count of the documents matching the
    filter of the base query. *)
Definition totalOf (model : list Mongo.medicine) (req : request) : Z :=
  match searchResults req with
  | Some results => Z.of_nat (length results)
  | None =>
      Mongo.countDocuments model
        (Mongo.getFilter (default (Mongo.find ∅) (baseQuery req)))
  end.

(** The middleware. *)
Definition paginate (model : list Mongo.medicine) (req : request) : outcome request :=
  let page := pageOf (req_query req) in
  let limit := limitOf (req_query req) in
  let skip := (page - 1) * limit in
  let sortBy := sortByOf (req_query req) in
  let order := orderOf (req_query req) in
  let sortObj := (sortBy, order) in
  let fetched :=
    match searchResults req with
    | Some results => Some (strategyB results skip limit)
    | None => strategyA model req skip limit sortObj
    end in
  match fetched with
  | Some (data, total) =>
      Next (Request (req_query req) (req_user req) (baseQuery req)
              (searchResults req)
              (Some (PageResult data (metadata page limit total))))
  | None => NextErr
  end.

End Paginate.

(* ===================================================================== *)
(** ** The controller and the two listing routes                          *)
(* ===================================================================== *)

Module Controller.
Import Http.

(** The body sent by [getAllMedicines] and [getAllMedicinesPharmacy];
    [fallback] is the filter of their non-paginated branch. *)
Definition listBody (fallback : gmap string Mongo.cond)
    (model : list Mongo.medicine) (req : request) : body :=
  match req_pagination req with
  | Some (PageResult medicines pagination) =>
      Body (Z.of_nat (length medicines)) medicines (Some pagination)
  | None =>
      let medicines := map Plain (Mongo.matching model fallback) in
      Body (Z.of_nat (length medicines)) medicines None
  end.

Definition activeOnly : gmap string Mongo.cond :=
  {[ "isActive"%string := Mongo.CField (Mongo.PEq (Mongo.VBool true)) ]}.

Definition getAllMedicines := listBody activeOnly.
Definition getAllMedicinesPharmacy := listBody ∅.

End Controller.

Module Routes.
Import Http.

(** The chain [setBaseQuery, search(Medicine), paginate(Medicine),
    controller] of a listing route. *)
Definition listing (base : gmap string Mongo.cond)
    (controller : list Mongo.medicine -> request -> body)
    (model : list Mongo.medicine) (req : request) : outcome body :=
  let req1 := Request (req_query req) (req_user req) (Some (Mongo.find base))
                (searchResults req) (req_pagination req) in
  match Search.search model req1 with
  | Next req2 =>
      match Paginate.paginate model req2 with
      | Next req3 => Next (controller model req3)
      | NextErr => NextErr
      | Unmodelled => Unmodelled
      end
  | NextErr => NextErr
  | Unmodelled => Unmodelled
  end.

(** [GET /api/medicines] *)
Definition getMedicines := listing Controller.activeOnly Controller.getAllMedicines.

(** [GET /api/medicines/pharmacy/all] *)
Definition getPharmacyMedicines := listing ∅ Controller.getAllMedicinesPharmacy.

(** The list that [search] stores in [req.searchResults] for the filter
    [f]: ranked when both coordinates are numbers, in stored order
    otherwise. *)
Definition materialised (model : list Mongo.medicine)
    (f : gmap string Mongo.cond) (req : request) : list listed :=
  match Search.userLocation req with
  | (Some userLat, Some userLon) =>
      map WithDistance (Search.rank userLat userLon (Mongo.matching model f))
  | _ => map Plain (Mongo.matching model f)
  end.

(** The same parameters with other [sort] and [order] values. *)
Definition withSort (q : query) (sort order : option string) : query :=
  Query (page q) (limit q) (search q) sort order (latitude q) (longitude q).

(** A fresh incoming request: parameters and the authenticated user. *)
Definition incoming (q : query) (u : option user) : request :=
  Request q u None None None.

End Routes.

(* ===================================================================== *)
(** ** Sample data                                                        *)
(* ===================================================================== *)

Module Sample.
Import Http.

Definition noParams : query := Query None None None None None None None.

(** An active medicine without an owner on record. *)
Definition med (id name : string) (created : Z) : Mongo.medicine :=
  Mongo.Medicine id name "tablet" 1599 10 "uploads/m.jpg" None true created created.

(** A medicine owned by a pharmacy, with or without a location. *)
Definition medOf (id : string) (loc : option Geo.coords) : Mongo.medicine :=
  Mongo.Medicine id "Paracetamol" "tablet" 1599 10 "uploads/m.jpg"
    (Some (Mongo.Pharmacy "Central" loc)) true 0 0.

(** Twelve active medicines, created at times 1 to 12. *)
Definition twelve : list Mongo.medicine :=
  map (fun i => med "m" "Aspirin" (Z.of_nat i)) (seq 1 12).

(** Two medicines stored in the order Zinc, Aspirin. *)
Definition zincAspirin : list Mongo.medicine :=
  [med "1" "Zinc" 1; med "2" "Aspirin" 2].

Definition pageTwo : query :=
  Query (Some "2"%string) (Some "10"%string) None None None None None.

(** The annotated records of the ranking example: A and D carry no
    distance, B one of 5 km, C one of 2 km. *)
Definition recA : ranked := Ranked (medOf "A" None) None.
Definition recB : ranked := Ranked (medOf "B" (Some (Geo.Coords 30.045 31))) (Some 5%R).
Definition recC : ranked := Ranked (medOf "C" (Some (Geo.Coords 30.018 31))) (Some 2%R).
Definition recD : ranked := Ranked (medOf "D" None) None.

Definition limit1000 : query :=
  Query None (Some "1000"%string) None None None None None.

Definition pageMinus3 : query :=
  Query (Some "-3"%string) None None None None None None.

Definition searchFor (term : string) : query :=
  Query None None (Some term) None None None None.


Definition byNameAsc : query :=
  Query None None None (Some "name"%string) (Some "asc"%string) None None.

End Sample.

(* ===================================================================== *)
(** ** Pages of a materialised list                                       *)
(* ===================================================================== *)

Module Paging.
Import Http.

(** The items [paginate] stores for [page] and [limit] when it slices
    [req.searchResults]. *)
Definition pageData (results : list listed) (page limit : Z) : list listed :=
  (Paginate.strategyB results ((page - 1) * limit) limit).1.

(** The page numbers [1 .. totalPages]. *)
Definition pageNumbers (totalPages : Z) : list Z :=
  map Z.of_nat (seq 1 (Z.to_nat totalPages)).

(** The request that [search] hands to [paginate]: the parameters and the
    materialised list. *)
Definition searched (q : query) (results : list listed) : request :=
  Request q None None (Some results) None.

End Paging.

(* ===================================================================== *)
(** ** Reading listed elements                                            *)
(* ===================================================================== *)

Module Listed.
Import Http.

(** Whether the element carries a [distance] property. *)
Definition hasDistance (l : listed) : bool :=
  match l with
  | WithDistance _ => true
  | Plain _ => false
  end.

(** The [distance] of the element, [None] when it is [null] or when there
    is no such property. *)
Definition distanceOf (l : listed) : option R :=
  match l with
  | WithDistance r => distance r
  | Plain _ => None
  end.

End Listed.

(* ===================================================================== *)
(** ** More sample data                                                   *)
(* ===================================================================== *)

Module Cases.
Import Http.

(** A request with the two coordinate parameters only. *)
Definition near (lat lon : string) : query :=
  Query None None None None None (Some lat) (Some lon).

(** A customer with a stored location. *)
Definition customer : user := User "customer" (Some (Geo.Coords 30 31)).

(** A pharmacy user. *)
Definition pharmacist : user := User "pharmacy" (Some (Geo.Coords 30 31)).

(** Two medicines whose owners sit on the equator, two degrees and one
    degree east of the prime meridian. *)
Definition farOwner : Mongo.medicine := Sample.medOf "B" (Some (Geo.Coords 0 2)).
Definition nearOwner : Mongo.medicine := Sample.medOf "C" (Some (Geo.Coords 0 1)).

(** A medicine that has been deactivated, and a collection holding it
    between two active ones. *)
Definition retired : Mongo.medicine :=
  Mongo.Medicine "2" "Aspirin" "tablet" 1599 10 "uploads/m.jpg" None false 2 5.
Definition withRetired : list Mongo.medicine :=
  [Sample.med "1" "Zinc" 1; retired; Sample.med "3" "Aspirin forte" 3].

End Cases.

(* ===================================================================== *)
(** ** Replies: [response.util] and the status code names                 *)
(* ===================================================================== *)

Module Reply.
Import Http.

(** The names of [STATUS_CODES] that the pipeline uses. *)
Inductive code : Type :=
| OK | CREATED | BAD_REQUEST | UNAUTHORIZED | FORBIDDEN | NOT_FOUND
| INTERNAL_SERVER_ERROR.

(** The names of [responsesStatus]. *)
Inductive status : Type := SUCCESS | FAIL | ERROR.

(** What a reply carries under [data]. *)
Inductive content : Type :=
| OneMedicine (m : Mongo.medicine)
| Listing (b : body).

(** A JSON reply: the HTTP status and the keys of the object sent.  The
    middlewares send no [success] key, the controller helpers do. *)
Record response : Type := Response {
  statusCode : code;
  success : option bool;
  status_ : status;
  message : string;
  data : option content;
  errors : option (list (string * string))
}.

(** [sendSuccess(res, data, message, statusCode)]: [data] is sent unless it
    is [null] or [undefined]. *)
Definition sendSuccess (data : option content) (message : string)
    (statusCode : code) : response :=
  Response statusCode (Some true) SUCCESS message data None.

(** [sendFail(res, errors, message, statusCode)]: [errors] is sent only
    when the object has keys. *)
Definition sendFail (errors : list (string * string)) (message : string)
    (statusCode : code) : response :=
  Response statusCode (Some false) FAIL message None
    (match errors with [] => None | _ :: _ => Some errors end).

(** [res.status(code).json({ status: FAIL, message })], the reply of the
    authentication and role middlewares. *)
Definition refuse (statusCode : code) (message : string) : response :=
  Response statusCode None FAIL message None None.

(** What a guard middleware does with a request: hand it on with a value,
    or reply. *)
Inductive step (A : Type) : Type :=
| Continue (a : A)
| Respond (r : response).
Arguments Continue {A} a.
Arguments Respond {A} r.

End Reply.

(* ===================================================================== *)
(** ** [auth.middleware]: [authenticate] and [authenticate.optional]      *)
(* ===================================================================== *)

Module Auth.
Import Http Reply.

(** [s.split(sep)] for a separator of one character. *)
Fixpoint split (sep : ascii) (s : string) : list string :=
  match s with
  | EmptyString => [EmptyString]
  | String c r =>
      if Ascii.eqb c sep then EmptyString :: split sep r
      else
        match split sep r with
        | h :: t => String c h :: t
        | [] => [String c EmptyString]
        end
  end.

(** The outcome of [jwt.verify(token, secret)]: the decoded user id, or
    the name of the error thrown. *)
Inductive verdict : Type :=
| Decoded (id : string)
| TokenExpiredError
| JsonWebTokenError
| OtherError.

Section WithTokens.
(** [jwt.verify(token, process.env.JWT_SECRET)] *)
Variable verify : string -> verdict.
(** [User.findById(id).select("-password")] *)
Variable findById : string -> option user.

(** [authHeader && authHeader.startsWith("Bearer ")] *)
Definition bearer (authHeader : option string) : option string :=
  match authHeader with
  | Some h => if String.prefix "Bearer " h then Some h else None
  | None => None
  end.

(** [jwt.verify(authHeader.split(" ")[1], secret)]; without a second part
    the library is given [undefined] and rejects it. *)
Definition verifyHeader (h : string) : verdict :=
  match split " " h !! 1%nat with
  | Some token => verify token
  | None => JsonWebTokenError
  end.

Definition authenticate (authHeader : option string) : step user :=
  match bearer authHeader with
  | None =>
      Respond (refuse UNAUTHORIZED
                 "Authentication required. Please provide a valid token.")
  | Some h =>
      match verifyHeader h with
      | Decoded id =>
          match findById id with
          | Some user => Continue user
          | None =>
              Respond (refuse UNAUTHORIZED "User not found. Please log in again.")
          end
      | TokenExpiredError =>
          Respond (refuse UNAUTHORIZED
                     "Your session has expired. Please log in again.")
      | JsonWebTokenError =>
          Respond (refuse UNAUTHORIZED "Invalid token. Please log in again.")
      | OtherError =>
          Respond (refuse UNAUTHORIZED
                     "Invalid or expired token. Please log in again.")
      end
  end.

(** [authenticate.optional]: the value is [req.user] afterwards. *)
Definition optional (authHeader : option string) : step (option user) :=
  match bearer authHeader with
  | Some h =>
      match verifyHeader h with
      | Decoded id => Continue (findById id)
      | _ => Continue None
      end
  | None => Continue None
  end.

End WithTokens.
End Auth.

(* ===================================================================== *)
(** ** [role.middleware]: [authorize(...allowedRoles)]                    *)
(* ===================================================================== *)

Module Role.
Import Http Reply.

(** An argument given to [authorize]: a role name, or an array of role
    names. *)
Inductive arg : Type :=
| Name (role : string)
| Names (roles : list string).

(** [allowedRoles.includes(role)] for a text [role]: an element is equal
    to it only when it is the same text, an array never is. *)
Definition includes (allowedRoles : list arg) (role : string) : bool :=
  existsb (fun a => match a with
                    | Name r => String.eqb r role
                    | Names _ => false
                    end) allowedRoles.

(** The middleware built by [authorize(...allowedRoles)], on [req.user]. *)
Definition authorize (allowedRoles : list arg) (user : option user) : step unit :=
  match user with
  | None =>
      Respond (refuse UNAUTHORIZED "Authentication required. Please log in first.")
  | Some u =>
      if includes allowedRoles (role u) then Continue tt
      else Respond (refuse FORBIDDEN "Access denied: insufficient privileges.")
  end.

End Role.

(* ===================================================================== *)
(** ** The guards in front of the medicine routes                         *)
(* ===================================================================== *)

Module Guarded.
Import Http Reply.

Section WithTokens.
Variable verify : string -> Auth.verdict.
Variable findById : string -> option user.

(** [authenticate, authorize(['pharmacy'])], the head of the routes
    [POST /], [PUT /:id], [GET /pharmacy/all], [PATCH /:id/deactivate] and
    [PATCH /:id/activate]: the user the rest of the chain would see, or the
    reply. *)
Definition pharmacyOnly (authHeader : option string) : step user :=
  match Auth.authenticate verify findById authHeader with
  | Continue u =>
      match Role.authorize [Role.Names ["pharmacy"%string]] (Some u) with
      | Continue _ => Continue u
      | Respond r => Respond r
      end
  | Respond r => Respond r
  end.

(** [GET /api/medicines] with its optional authentication. *)
Definition getMedicines (model : list Mongo.medicine)
    (authHeader : option string) (q : query) : step (outcome body) :=
  match Auth.optional verify findById authHeader with
  | Continue u => Continue (Routes.getMedicines model (Routes.incoming q u))
  | Respond r => Respond r
  end.

(** [GET /api/medicines/pharmacy/all] *)
Definition getPharmacyMedicines (model : list Mongo.medicine)
    (authHeader : option string) (q : query) : step (outcome body) :=
  match pharmacyOnly authHeader with
  | Continue u =>
      Continue (Routes.getPharmacyMedicines model (Routes.incoming q (Some u)))
  | Respond r => Respond r
  end.

End WithTokens.
End Guarded.

(* ===================================================================== *)
(** ** The controller functions on one medicine                           *)
(* ===================================================================== *)

(** [getMedicineById], [deactivateMedicine] and [activateMedicine] of the
    medicine controller, on the collection as a list of documents.  A
    document is sent as it is stored (these functions do not populate the
    owner; the owner field of the record stands for the stored
    reference). *)
Module Medicines.
Import Http Reply.

(** [Model.findOne(filter)]: the first matching document, or [null]. *)
Definition findOne (coll : list Mongo.medicine) (f : gmap string Mongo.cond)
  : option Mongo.medicine :=
  head (Mongo.matching coll f).

(** [{ _id: id, isActive: true }] *)
Definition activeById (id : string) : gmap string Mongo.cond :=
  <[ "isActive"%string := Mongo.CField (Mongo.PEq (Mongo.VBool true)) ]>
    {[ "_id"%string := Mongo.CField (Mongo.PEq (Mongo.VStr id)) ]}.

(** The update [{ isActive: b }] on a document, at the time [now]: the
    schema keeps timestamps, so [updatedAt] is set as well. *)
Definition setActive (b : bool) (now : Z) (m : Mongo.medicine) : Mongo.medicine :=
  Mongo.Medicine (Mongo._id m) (Mongo.name m) (Mongo.description m)
    (Mongo.price m) (Mongo.quantity m) (Mongo.image m) (Mongo.pharmacyId m)
    b (Mongo.createdAt m) now.

(** [Model.findByIdAndUpdate(id, update, { new: true })]: the first
    document with that [_id] is replaced by its update; the result is the
    collection afterwards and the updated document, or [null]. *)
Fixpoint findByIdAndUpdate (update : Mongo.medicine -> Mongo.medicine)
    (id : string) (coll : list Mongo.medicine)
  : list Mongo.medicine * option Mongo.medicine :=
  match coll with
  | [] => ([], None)
  | m :: rest =>
      if String.eqb (Mongo._id m) id then (update m :: rest, Some (update m))
      else
        let '(rest', found) := findByIdAndUpdate update id rest in
        (m :: rest', found)
  end.

(** What a controller function wrapped in [catchAsyncUtil] ends with: a
    reply, or an error thrown on the way. *)
Inductive result : Type :=
| Replied (r : response)
| Thrown.

Section WithIds.
(** Whether the persistence client can read the text as a document id;
    for other texts its queries throw a [CastError]. *)
Variable validId : string -> bool.

Definition getMedicineById (coll : list Mongo.medicine) (id : string) : result :=
  if validId id then
    match findOne coll (activeById id) with
    | None => Replied (sendFail [] "Medicine not found" NOT_FOUND)
    | Some medicine =>
        Replied (sendSuccess (Some (OneMedicine medicine))
                   "Medicine retrieved successfully" OK)
    end
  else Thrown.

(** The common shape of [deactivateMedicine] and [activateMedicine]. *)
Definition switchMedicine (b : bool) (done : string) (now : Z)
    (coll : list Mongo.medicine) (id : string)
  : list Mongo.medicine * result :=
  if validId id then
    match findByIdAndUpdate (setActive b now) id coll with
    | (coll', None) =>
        (coll', Replied (sendFail [] "Medicine not found" NOT_FOUND))
    | (coll', Some medicine) =>
        (coll', Replied (sendSuccess (Some (OneMedicine medicine)) done OK))
    end
  else (coll, Thrown).

Definition deactivateMedicine :=
  switchMedicine false "Medicine deactivated successfully".

Definition activateMedicine :=
  switchMedicine true "Medicine activated successfully".

End WithIds.
End Medicines.

(* ===================================================================== *)
(** ** Variants of a request                                              *)
(* ===================================================================== *)

Module Variants.
Import Http.

(** The same parameters with another [search] value. *)
Definition withSearch (q : query) (search : option string) : query :=
  Query (page q) (limit q) search (sort q) (order q) (latitude q) (longitude q).

(** A text without a space. *)
Definition spaceless (s : string) : bool :=
  forallb (fun c => negb (Ascii.eqb c " ")) (list_ascii_of_string s).

End Variants.

(* ===================================================================== *)
(** * Properties                                                          *)
(* ===================================================================== *)

Import Http.

(** ** Parsing and slicing: small checks of the built-in models *)

Example parseInt_decimal : JS.parseInt (Some "12"%string) = Some 12.
Proof. reflexivity. Qed.

Example parseInt_prefix : JS.parseInt (Some " -5px"%string) = Some (-5).
Proof. reflexivity. Qed.

Example parseInt_text : JS.parseInt (Some "abc"%string) = None.
Proof. reflexivity. Qed.

Example parseInt_hex : JS.parseInt (Some "0x1F"%string) = Some 31.
Proof. reflexivity. Qed.

Example slice_beyond_end : JS.slice [1; 2; 3] 10 20 = [].
Proof. reflexivity. Qed.

Example slice_from_end : JS.slice [1; 2; 3; 4] (-3) (-1) = [2; 3].
Proof. reflexivity. Qed.

Example trim_both_ends : JS.trim "  a b  "%string = "a b"%string.
Proof. reflexivity. Qed.

(** ** Pagination metadata *)

Lemma ceil_div_bounds (total limit : Z) :
  1 <= limit ->
  (JS.ceil_div total limit - 1) * limit < total <= JS.ceil_div total limit * limit.
Proof.
  intros Hl. unfold JS.ceil_div.
  pose proof (Z.mul_div_le (- total) limit ltac:(lia)).
  pose proof (Z.mul_succ_div_gt (- total) limit ltac:(lia)).
  nia.
Qed.

Lemma ceil_div_zero (limit : Z) : JS.ceil_div 0 limit = 0.
Proof. unfold JS.ceil_div. simpl. rewrite Zdiv_0_l. reflexivity. Qed.

Lemma metadata_next (page limit total : Z) :
  1 <= limit ->
  hasNextPage (Paginate.metadata page limit total) = true <-> page * limit < total.
Proof.
  intros Hl. unfold Paginate.metadata; simpl.
  pose proof (ceil_div_bounds total limit Hl).
  rewrite Z.ltb_lt. split; intros; nia.
Qed.

Lemma totalOf_nonneg model req : 0 <= Paginate.totalOf model req.
Proof. unfold Paginate.totalOf, Mongo.countDocuments. destruct (searchResults req); lia. Qed.

Lemma paginate_meta model req req' :
  Paginate.paginate model req = Next req' ->
  exists data,
    req_pagination req' =
      Some (PageResult data
              (Paginate.metadata (Paginate.pageOf (req_query req))
                 (Paginate.limitOf (req_query req)) (Paginate.totalOf model req))).
Proof.
  unfold Paginate.paginate, Paginate.totalOf, Paginate.strategyA, Paginate.strategyB.
  destruct (searchResults req) as [results|].
  - intros [= <-]. simpl. eauto.
  - destruct (Mongo.exec _ _); [|discriminate].
    intros [= <-]. simpl. eauto.
Qed.

(** With a page and a page size of at least 1 the skip is not negative,
    so the query of the other branch is accepted: [paginate] answers on
    both branches. *)
Lemma paginate_answers model req :
  1 <= Paginate.pageOf (req_query req) ->
  1 <= Paginate.limitOf (req_query req) ->
  exists req', Paginate.paginate model req = Next req'.
Proof.
  intros Hp Hl. unfold Paginate.paginate, Paginate.strategyA.
  destruct (searchResults req) as [results|]; [simpl; eauto|].
  unfold Mongo.exec. cbn [Mongo.q_skip Mongo.skip Mongo.limit Mongo.sort].
  destruct (Z.ltb_spec ((Paginate.pageOf (req_query req) - 1) *
                        Paginate.limitOf (req_query req)) 0) as [Hneg|_];
    [nia|eauto].
Qed.

(** C2.  For a page and a page size of at least 1 (given as ASCII
    texts; safe integers, as is the total) [paginate] answers, whichever strategy it takes (the
    in-memory slice of [req.searchResults] or the query against the
    collection), and the metadata it stores is the same function of page,
    page size and total: [totalPages] is the ceiling of [total / pageSize]
    (the least [n] with [total <= n * pageSize]; 0 for an empty total),
    [hasNextPage] holds exactly when [page * pageSize < total],
    equivalently [page < totalPages], and [hasPrevPage] exactly when
    [page > 1].  A request with the same parameters and the same total
    gets the same metadata, on whichever branch it is served. *)
Theorem pagination_metadata_semantics :
  forall (model : list Mongo.medicine) (req : request),
    let page := Paginate.pageOf (req_query req) in
    let pageSize := Paginate.limitOf (req_query req) in
    let total := Paginate.totalOf model req in
    JS.asciiParam (Http.page (req_query req)) = true ->
    JS.asciiParam (Http.limit (req_query req)) = true ->
    1 <= page -> 1 <= pageSize ->
    page * pageSize <= JS.MAX_SAFE_INTEGER ->
    total <= JS.MAX_SAFE_INTEGER ->
    exists req' data p,
      Paginate.paginate model req = Next req' /\
      req_pagination req' = Some (PageResult data p) /\
      0 <= total /\
      currentPage p = page /\ itemsPerPage p = pageSize /\ totalItems p = total /\
      (totalPages p - 1) * pageSize < total <= totalPages p * pageSize /\
      (total = 0 -> totalPages p = 0) /\
      (hasNextPage p = true <-> page * pageSize < totalItems p) /\
      (hasNextPage p = true <-> page < totalPages p) /\
      (hasPrevPage p = true <-> page > 1) /\
      (forall (other other' : request) (data' : list listed) (p' : pagination),
         req_query other = req_query req ->
         Paginate.totalOf model other = total ->
         Paginate.paginate model other = Next other' ->
         req_pagination other' = Some (PageResult data' p') ->
         p' = p).
Proof.
  intros model req page pageSize total _ _ Hpage Hlimit _ _.
  destruct (paginate_answers model req Hpage Hlimit) as [req' Hp].
  destruct (paginate_meta _ _ _ Hp) as [data Hd].
  exists req', data, (Paginate.metadata page pageSize total).
  split; [exact Hp|]. split; [exact Hd|].
  split; [apply totalOf_nonneg|].
  repeat split; try reflexivity.
  - apply ceil_div_bounds; assumption.
  - apply ceil_div_bounds; assumption.
  - intros ->. apply ceil_div_zero.
  - apply metadata_next; assumption.
  - apply metadata_next; assumption.
  - simpl. rewrite Z.ltb_lt. tauto.
  - simpl. rewrite Z.ltb_lt. tauto.
  - simpl. rewrite Z.ltb_lt. lia.
  - simpl. rewrite Z.ltb_lt. lia.
  - intros other other' data' p' Hq Ht Ho Hd'.
    destruct (paginate_meta _ _ _ Ho) as [data'' Hd''].
    rewrite Hd'' in Hd'. injection Hd' as _ <-.
    rewrite Hq, Ht. reflexivity.
Qed.

(** Page 2 of twelve active medicines, ten to a page: once by the query
    against the collection, once by the slice of a stored list. *)
Lemma pagination_metadata_semantics_witness :
  let viaQuery := Request Sample.pageTwo None
                    (Some (Mongo.find Controller.activeOnly)) None None in
  let viaSlice := Request Sample.pageTwo None None
                    (Some (map Plain Sample.twelve)) None in
  let statement (req : request) :=
    exists req' data p,
      Paginate.paginate Sample.twelve req = Next req' /\
      req_pagination req' = Some (PageResult data p) /\
      0 <= Paginate.totalOf Sample.twelve req /\
      currentPage p = Paginate.pageOf (req_query req) /\
      itemsPerPage p = Paginate.limitOf (req_query req) /\
      totalItems p = Paginate.totalOf Sample.twelve req /\
      (totalPages p - 1) * Paginate.limitOf (req_query req)
        < Paginate.totalOf Sample.twelve req
        <= totalPages p * Paginate.limitOf (req_query req) /\
      (Paginate.totalOf Sample.twelve req = 0 -> totalPages p = 0) /\
      (hasNextPage p = true <->
       Paginate.pageOf (req_query req) * Paginate.limitOf (req_query req)
         < totalItems p) /\
      (hasNextPage p = true <-> Paginate.pageOf (req_query req) < totalPages p) /\
      (hasPrevPage p = true <-> Paginate.pageOf (req_query req) > 1) /\
      (forall (other other' : request) (data' : list listed) (p' : pagination),
         req_query other = req_query req ->
         Paginate.totalOf Sample.twelve other = Paginate.totalOf Sample.twelve req ->
         Paginate.paginate Sample.twelve other = Next other' ->
         req_pagination other' = Some (PageResult data' p') ->
         p' = p) in
  (searchResults viaQuery = None /\
   Paginate.paginate Sample.twelve viaQuery =
     Next (Request Sample.pageTwo None (Some (Mongo.find Controller.activeOnly))
             None
             (Some (PageResult (map Plain (drop 10 Sample.twelve))
                      (Pagination 2 2 12 10 false true)))) /\
   JS.asciiParam (Http.page (req_query viaQuery)) = true /\
   JS.asciiParam (Http.limit (req_query viaQuery)) = true /\
   1 <= Paginate.pageOf (req_query viaQuery) /\
   1 <= Paginate.limitOf (req_query viaQuery) /\
   Paginate.pageOf (req_query viaQuery) * Paginate.limitOf (req_query viaQuery)
     <= JS.MAX_SAFE_INTEGER /\
   Paginate.totalOf Sample.twelve viaQuery <= JS.MAX_SAFE_INTEGER /\
   statement viaQuery) /\
  (Paginate.paginate Sample.twelve viaSlice =
     Next (Request Sample.pageTwo None None (Some (map Plain Sample.twelve))
             (Some (PageResult (map Plain (drop 10 Sample.twelve))
                      (Pagination 2 2 12 10 false true)))) /\
   statement viaSlice).
Proof.
  intros viaQuery viaSlice statement.
  split.
  - split; [reflexivity|].
    split; [vm_compute; reflexivity|].
    split; [reflexivity|]. split; [reflexivity|].
    split; [vm_compute; discriminate|].
    split; [vm_compute; discriminate|].
    split; [vm_compute; discriminate|].
    split; [vm_compute; discriminate|].
    apply (pagination_metadata_semantics Sample.twelve viaQuery);
      [reflexivity | reflexivity | vm_compute; discriminate ..].
  - split; [vm_compute; reflexivity|].
    apply (pagination_metadata_semantics Sample.twelve viaSlice);
      [reflexivity | reflexivity | vm_compute; discriminate ..].
Defined.

(** ** The stable sort *)

Section SortFacts.
Context {A : Type} (gt : A -> A -> bool).

Lemma insert_by_perm (x : A) (l : list A) : insert_by gt x l ≡ₚ x :: l.
Proof.
  induction l as [|y l IH]; simpl; [reflexivity|].
  destruct (gt x y); [|reflexivity].
  rewrite IH. apply Permutation_swap.
Qed.

Lemma sort_by_perm (l : list A) : sort_by gt l ≡ₚ l.
Proof.
  induction l as [|x l IH]; simpl; [reflexivity|].
  rewrite insert_by_perm. now rewrite IH.
Qed.

Lemma sort_by_length (l : list A) : length (sort_by gt l) = length l.
Proof. apply Permutation_length, sort_by_perm. Qed.

(** Elements that the comparison never moves past one another keep their
    input order. *)
Section Stable.
Context (P : A -> Prop) `{!forall x, Decision (P x)}.
Hypothesis tie : forall x y, P x -> P y -> gt x y = false.

Lemma insert_by_filter (x : A) (l : list A) :
  filter P (insert_by gt x l) = filter P (x :: l).
Proof.
  induction l as [|y l IH]; simpl; [reflexivity|].
  destruct (gt x y) eqn:Hg; [|reflexivity].
  rewrite !filter_cons, IH, !filter_cons.
  destruct (decide (P x)) as [Hx|Hx], (decide (P y)) as [Hy|Hy];
    try reflexivity.
  rewrite (tie x y Hx Hy) in Hg. discriminate.
Qed.

Lemma sort_by_filter (l : list A) : filter P (sort_by gt l) = filter P l.
Proof.
  induction l as [|x l IH]; simpl; [reflexivity|].
  rewrite insert_by_filter, !filter_cons, IH. reflexivity.
Qed.
End Stable.

(** With a total and transitive comparison the result is sorted. *)
Section Sorted.
Let le (x y : A) : Prop := gt x y = false.
Hypothesis total : forall x y, gt x y = true -> gt y x = false.
Hypothesis trans : forall x y z, le x y -> le y z -> le x z.

Lemma insert_by_sorted (x : A) (l : list A) :
  StronglySorted le l -> StronglySorted le (insert_by gt x l).
Proof.
  induction l as [|y l IH]; simpl; intros Hs.
  - repeat constructor.
  - apply StronglySorted_cons in Hs as [Hy Hl].
    destruct (gt x y) eqn:Hg.
    + apply StronglySorted_cons. split; [|auto].
      rewrite insert_by_perm. constructor; [apply total, Hg|exact Hy].
    + apply StronglySorted_cons. split.
      * constructor; [exact Hg|].
        eapply Forall_impl; [exact Hy|]. intros z Hz. eapply trans; eauto.
      * apply StronglySorted_cons. auto.
Qed.

Lemma sort_by_sorted (l : list A) : StronglySorted le (sort_by gt l).
Proof.
  induction l as [|x l IH]; simpl; [constructor|].
  apply insert_by_sorted, IH.
Qed.
End Sorted.
End SortFacts.

Lemma StronglySorted_lookup {A : Type} (le : A -> A -> Prop) (l : list A)
    (i j : nat) (a b : A) :
  StronglySorted le l -> (i < j)%nat -> l !! i = Some a -> l !! j = Some b ->
  le a b.
Proof.
  intros Hs. revert i j.
  induction Hs as [|x l Hs IH Hx]; intros i j Hij Hi Hj.
  - discriminate.
  - destruct j as [|j]; [lia|]. simpl in Hj.
    destruct i as [|i]; simpl in Hi.
    + injection Hi as ->.
      rewrite List.Forall_forall in Hx. apply Hx.
      apply list_elem_of_In. eapply list_elem_of_lookup_2, Hj.
    + apply (IH i j); [lia|assumption..].
Qed.

(** ** The Geo Ranker's order *)

Lemma distance_gt_false (a b : ranked) :
  Search.comesAfter Search.byDistance a b = false <-> Search.nullsLast (distance a) (distance b).
Proof.
  unfold Search.comesAfter, Search.byDistance, Search.nullsLast.
  destruct (distance a), (distance b); destruct (Rlt_dec _ _);
    split; intros; try discriminate; try reflexivity; try tauto; lra.
Qed.

Lemma distance_gt_total (a b : ranked) :
  Search.comesAfter Search.byDistance a b = true -> Search.comesAfter Search.byDistance b a = false.
Proof.
  unfold Search.comesAfter, Search.byDistance.
  destruct (distance a), (distance b); repeat destruct (Rlt_dec _ _);
    intros; try discriminate; try reflexivity; lra.
Qed.

Lemma distance_gt_trans (a b c : ranked) :
  Search.comesAfter Search.byDistance a b = false -> Search.comesAfter Search.byDistance b c = false -> Search.comesAfter Search.byDistance a c = false.
Proof.
  rewrite !distance_gt_false. unfold Search.nullsLast.
  destruct (distance a), (distance b), (distance c); intros; try tauto; lra.
Qed.

Lemma distance_gt_tie (d : option R) (a b : ranked) :
  distance a = d -> distance b = d -> Search.comesAfter Search.byDistance a b = false.
Proof.
  intros Ha Hb. apply distance_gt_false. rewrite Ha, Hb.
  destruct d; simpl; [lra|exact I].
Qed.

(** C4.  The sort of the Geo Ranker ([data.sort] with the distance
    comparator, which [rank] applies to the annotated records) rearranges
    its input so that distances ascend and every record with a [null]
    distance comes after every record with a number; records with the same
    distance, or all without one, keep their input order.  In particular
    [A (no location), B (5 km), C (2 km), D (no location)] is ranked
    [C, B, A, D]. *)
Theorem geo_ranker_stable_ascending :
  (forall annotated : list ranked,
     let out := Search.Array_sort Search.byDistance annotated in
     out ≡ₚ annotated /\
     (forall (i j : nat) (a b : ranked),
        (i < j)%nat -> out !! i = Some a -> out !! j = Some b ->
        match distance a, distance b with
        | Some x, Some y => (x <= y)%R
        | None, Some _ => False
        | _, None => True
        end) /\
     (forall d : option R,
        filter (fun r => distance r = d) out =
        filter (fun r => distance r = d) annotated)) /\
  (forall (userLat userLon : R) (data : list Mongo.medicine),
     Search.rank userLat userLon data =
     Search.Array_sort Search.byDistance
       (map (Search.annotate userLat userLon) data)) /\
  Search.Array_sort Search.byDistance
    [Sample.recA; Sample.recB; Sample.recC; Sample.recD] =
  [Sample.recC; Sample.recB; Sample.recA; Sample.recD].
Proof.
  split; [|split].
  - intros annotated out. subst out. unfold Search.Array_sort.
    split; [apply sort_by_perm|]. split.
    + intros i j a b Hij Hi Hj.
      apply (distance_gt_false a b).
      eapply (StronglySorted_lookup (fun x y => Search.comesAfter Search.byDistance x y = false));
        [|exact Hij|exact Hi|exact Hj].
      apply sort_by_sorted.
      * apply distance_gt_total.
      * apply distance_gt_trans.
    + intros d. apply sort_by_filter. apply distance_gt_tie.
  - reflexivity.
  - unfold Search.Array_sort, Search.comesAfter, Search.byDistance. simpl.
    repeat (destruct (Rlt_dec _ _); try lra; simpl).
    reflexivity.
Qed.

(** ** What the search middleware hands to the paginator *)

Lemma exec_find (model : list Mongo.medicine) (f : gmap string Mongo.cond) :
  Mongo.exec model (Mongo.find f) = Some (Mongo.matching model f).
Proof. reflexivity. Qed.

Lemma compose_no_term (f : gmap string Mongo.cond) (s : option string) :
  Search.searchTerm s = None -> Search.compose f s = Next f.
Proof. unfold Search.compose. now intros ->. Qed.

(** After the route has set the base query, [search] always fetches every
    matching document and stores the list in [req.searchResults], ranked
    when both coordinates are numbers, in stored order otherwise. *)
Lemma search_materialises (model : list Mongo.medicine)
    (base : gmap string Mongo.cond) (req req2 : request) :
  baseQuery req = Some (Mongo.find base) ->
  Search.search model req = Next req2 ->
  exists f,
    Search.compose base (Http.search (req_query req)) = Next f /\
    req_query req2 = req_query req /\
    req_pagination req2 = req_pagination req /\
    searchResults req2 =
      Some (match Search.userLocation req with
            | (Some userLat, Some userLon) =>
                map WithDistance
                  (Search.rank userLat userLon (Mongo.matching model f))
            | _ => map Plain (Mongo.matching model f)
            end).
Proof.
  intros Hb. unfold Search.search. rewrite Hb. simpl.
  destruct (Search.compose base _) as [f| |] eqn:Hc; try discriminate.
  assert (He : Mongo.exec model
                 (if is_Some_dec (Search.searchTerm (Http.search (req_query req)))
                  then Mongo.find f
                  else if Search.nonEmpty f then Mongo.find f
                  else Mongo.find base) = Some (Mongo.matching model f)).
  { destruct (is_Some_dec _) as [|Hn]; [apply exec_find|].
    destruct (Search.nonEmpty f); [apply exec_find|].
    assert (Search.searchTerm (Http.search (req_query req)) = None) as Hnone.
    { destruct (Search.searchTerm _); [exfalso; apply Hn; eauto|reflexivity]. }
    rewrite (compose_no_term _ _ Hnone) in Hc. injection Hc as ->.
    apply exec_find. }
  rewrite He. intros [= <-]. exists f. simpl. auto.
Qed.

Lemma materialised_length model f req :
  length (Routes.materialised model f req) = length (Mongo.matching model f).
Proof.
  unfold Routes.materialised, Search.rank, Search.Array_sort.
  destruct (Search.userLocation req) as [[?|] [?|]];
    rewrite ?length_map, ?sort_by_length, ?length_map; reflexivity.
Qed.

(** Every listing response is the in-memory slice of the materialised
    list. *)
Lemma listing_slices_in_memory (base fallback : gmap string Mongo.cond)
    (model : list Mongo.medicine) (q : query) (u : option user) (b : body) :
  Routes.listing base (Controller.listBody fallback) model (Routes.incoming q u)
    = Next b ->
  exists f,
    Search.compose base (Http.search q) = Next f /\
    let results := Routes.materialised model f (Routes.incoming q u) in
    let page := Paginate.pageOf q in
    let limit := Paginate.limitOf q in
    let skip := (page - 1) * limit in
    medicines b = JS.slice results skip (skip + limit) /\
    count b = Z.of_nat (length (medicines b)) /\
    body_pagination b =
      Some (Paginate.metadata page limit (Z.of_nat (length results))).
Proof.
  unfold Routes.listing.
  destruct (Search.search model _) as [req2| |] eqn:Hs; try discriminate.
  apply (search_materialises model base) in Hs as (f & Hc & Hq & Hp & Hr);
    [|reflexivity].
  simpl in Hc, Hq, Hp.
  unfold Paginate.paginate. rewrite Hr, Hq. simpl.
  intros [= <-]. exists f. split; [exact Hc|].
  unfold Controller.listBody. simpl. auto.
Qed.

Lemma listing_sort_irrelevant (base fallback : gmap string Mongo.cond)
    (model : list Mongo.medicine) (q : query) (u : option user)
    (sort order : option string) :
  Routes.listing base (Controller.listBody fallback) model
    (Routes.incoming (Routes.withSort q sort order) u) =
  Routes.listing base (Controller.listBody fallback) model (Routes.incoming q u).
Proof.
  unfold Routes.listing, Search.search, Routes.incoming, Routes.withSort.
  simpl.
  destruct (Search.compose base (search q)) as [f| |]; try reflexivity.
  destruct (Mongo.exec model _); reflexivity.
Qed.

(** C1 (the code departs from the claim).  On the listing routes the
    paginator never queries the collection: [search] has stored the whole
    list of matches in [req.searchResults], so [paginate] slices it in
    memory in every state, and [sort] / [order] change nothing in the
    response.  Without coordinates, [GET /api/medicines?sort=name&order=asc]
    over the stored documents Zinc, Aspirin answers Zinc, Aspirin, while the
    query branch of [paginate] on the same request answers Aspirin, Zinc. *)
Theorem unranked_listing_ignores_sort :
  (forall (model : list Mongo.medicine) (q : query) (u : option user)
          (sort order : option string),
     Routes.getMedicines model (Routes.incoming (Routes.withSort q sort order) u) =
     Routes.getMedicines model (Routes.incoming q u) /\
     Routes.getPharmacyMedicines model
       (Routes.incoming (Routes.withSort q sort order) u) =
     Routes.getPharmacyMedicines model (Routes.incoming q u)) /\
  (exists b,
     Routes.getMedicines Sample.zincAspirin
       (Routes.incoming Sample.byNameAsc None) = Next b /\
     map (fun l => Mongo.name (doc l)) (medicines b) =
       ["Zinc"; "Aspirin"]%string) /\
  (exists r p,
     Paginate.paginate Sample.zincAspirin
       (Request Sample.byNameAsc None
          (Some (Mongo.find Controller.activeOnly)) None None) = Next r /\
     req_pagination r = Some p /\
     map (fun l => Mongo.name (doc l)) (data p) = ["Aspirin"; "Zinc"]%string).
Proof.
  split; [|split].
  - intros. split; apply listing_sort_irrelevant.
  - eexists. split; [vm_compute; reflexivity|reflexivity].
  - eexists _, _. split; [vm_compute; reflexivity|]. split; reflexivity.
Qed.

(** In the Ranked state the response is the slice of the ranked list of
    all matches. *)
Lemma ranked_listing_slices_ranking (base fallback : gmap string Mongo.cond)
    (model : list Mongo.medicine) (q : query) (u : option user) (b : body)
    (userLat userLon : R) :
  Search.userLocation (Routes.incoming q u) = (Some userLat, Some userLon) ->
  Routes.listing base (Controller.listBody fallback) model (Routes.incoming q u)
    = Next b ->
  exists f,
    Search.compose base (Http.search q) = Next f /\
    let skip := (Paginate.pageOf q - 1) * Paginate.limitOf q in
    medicines b =
      JS.slice
        (map WithDistance (Search.rank userLat userLon (Mongo.matching model f)))
        skip (skip + Paginate.limitOf q).
Proof.
  intros Hloc Hl.
  apply listing_slices_in_memory in Hl as (f & Hc & Hm & _).
  exists f. split; [exact Hc|].
  unfold Routes.materialised in Hm. rewrite Hloc in Hm. exact Hm.
Qed.

(** ** The response body *)

Lemma slice_length {A : Type} (l : list A) (i j : Z) :
  (length (JS.slice l i j) <= length l)%nat.
Proof.
  unfold JS.slice. rewrite length_take, length_drop. lia.
Qed.

(** C10.  The body built by [getAllMedicines] and [getAllMedicinesPharmacy]
    has [count] equal to the number of medicines it lists; on the listing
    routes these are the items of the requested page, while the number of
    all matching records is [totalItems] of the pagination object (12
    records on page 2 of size 10: [count] is 2, [totalItems] is 12). *)
Theorem count_is_page_length :
  (forall (fallback : gmap string Mongo.cond) (model : list Mongo.medicine)
          (req : request),
     let b := Controller.listBody fallback model req in
     count b = Z.of_nat (length (medicines b))) /\
  (forall (base fallback : gmap string Mongo.cond)
          (model : list Mongo.medicine) (q : query) (u : option user) (b : body),
     Routes.listing base (Controller.listBody fallback) model (Routes.incoming q u)
       = Next b ->
     exists f p,
       Search.compose base (Http.search q) = Next f /\
       body_pagination b = Some p /\
       totalItems p = Z.of_nat (length (Mongo.matching model f)) /\
       count b = Z.of_nat (length (medicines b)) /\
       count b <= totalItems p) /\
  (exists b p,
     Routes.getMedicines Sample.twelve (Routes.incoming Sample.pageTwo None)
       = Next b /\
     body_pagination b = Some p /\ count b = 2 /\ totalItems p = 12).
Proof.
  split; [|split].
  - intros fallback model req. unfold Controller.listBody.
    destruct (req_pagination req) as [[d p]|]; reflexivity.
  - intros base fallback model q u b Hl.
    apply listing_slices_in_memory in Hl as (f & Hc & Hm & Hn & Hp).
    exists f. eexists. split; [exact Hc|]. split; [exact Hp|].
    simpl. rewrite materialised_length. split; [reflexivity|].
    split; [exact Hn|].
    rewrite Hn, Hm. rewrite <- (materialised_length model f (Routes.incoming q u)).
    apply inj_le, slice_length.
  - eexists _, _. split; [vm_compute; reflexivity|].
    split; [reflexivity|]. split; reflexivity.
Qed.

Lemma count_is_page_length_witness :
  Routes.listing Controller.activeOnly (Controller.listBody Controller.activeOnly)
    Sample.twelve (Routes.incoming Sample.pageTwo None)
  = Next (Body 2 (map Plain (drop 10 Sample.twelve))
            (Some (Pagination 2 2 12 10 false true))) /\
  exists f p,
    Search.compose Controller.activeOnly (Http.search Sample.pageTwo) = Next f /\
    body_pagination
      (Body 2 (map Plain (drop 10 Sample.twelve))
         (Some (Pagination 2 2 12 10 false true))) = Some p /\
    totalItems p = Z.of_nat (length (Mongo.matching Sample.twelve f)) /\
    2 = Z.of_nat (length (map Plain (drop 10 Sample.twelve))) /\
    2 <= totalItems p.
Proof.
  split; [vm_compute; reflexivity|].
  apply (proj1 (proj2 count_is_page_length) Controller.activeOnly
           Controller.activeOnly Sample.twelve Sample.pageTwo None).
  vm_compute; reflexivity.
Defined.

(** ** Defaults of the paging and sorting parameters *)

Lemma pageOf_default (q : query) :
  JS.parseInt (page q) = None \/ JS.parseInt (page q) = Some 0 ->
  Paginate.pageOf q = 1.
Proof. unfold Paginate.pageOf. intros [-> | ->]; reflexivity. Qed.

Lemma limitOf_default (q : query) :
  JS.parseInt (limit q) = None \/ JS.parseInt (limit q) = Some 0 ->
  Paginate.limitOf q = 10.
Proof. unfold Paginate.limitOf. intros [-> | ->]; reflexivity. Qed.

(** Any other number is taken as it is. *)
Lemma num_or_passes (n d : Z) : n <> 0 -> JS.num_or (Some n) d = n.
Proof.
  intros Hn. unfold JS.num_or. destruct (Z.eqb_spec n 0); [contradiction|reflexivity].
Qed.

(** C9 (the code departs from the claim).  When the request names no
    [order], [paginate] sorts ascending ([order] is [-1] only for the text
    [desc]); the sort field does default to [createdAt].  On the stored
    documents Zinc (created at 1), Aspirin (created at 2) the query branch
    of [paginate], without parameters, answers the oldest first. *)
Theorem default_order_is_ascending :
  (forall page limit search sort latitude longitude : option string,
     Paginate.orderOf (Query page limit search sort None latitude longitude) = 1) /\
  (forall page limit search order latitude longitude : option string,
     Paginate.sortByOf (Query page limit search None order latitude longitude)
     = "createdAt"%string) /\
  (exists r p,
     Paginate.paginate Sample.zincAspirin
       (Request Sample.noParams None
          (Some (Mongo.find Controller.activeOnly)) None None) = Next r /\
     req_pagination r = Some p /\
     map (fun l => Mongo.createdAt (doc l)) (data p) = [1; 2]).
Proof.
  split; [|split].
  - reflexivity.
  - reflexivity.
  - eexists _, _. split; [vm_compute; reflexivity|]. split; reflexivity.
Qed.

(** C6 (the code departs from the claim).  A page size of 1000 and a page
    of -3 are used as they are: nothing bounds the page size from above,
    and [parseInt(x) || d] replaces only [NaN] and [0].  With twelve
    records, [limit=1000] is answered with [itemsPerPage] 1000, and
    [page=-3] with [currentPage] -3 and an empty page. *)
Theorem paging_parameters_not_clamped :
  Paginate.limitOf Sample.limit1000 = 1000 /\
  Paginate.pageOf Sample.pageMinus3 = -3 /\
  (exists b p,
     Routes.getMedicines Sample.twelve (Routes.incoming Sample.limit1000 None)
       = Next b /\
     body_pagination b = Some p /\ itemsPerPage p = 1000 /\ count b = 12) /\
  (exists b p,
     Routes.getMedicines Sample.twelve (Routes.incoming Sample.pageMinus3 None)
       = Next b /\
     body_pagination b = Some p /\ currentPage p = -3 /\ count b = 0).
Proof.
  split; [reflexivity|]. split; [reflexivity|]. split.
  - eexists _, _. split; [vm_compute; reflexivity|].
    split; [reflexivity|]. split; reflexivity.
  - eexists _, _. split; [vm_compute; reflexivity|].
    split; [reflexivity|]. split; reflexivity.
Qed.

(** ** The distance function *)

Section Distance.
Local Open Scope R_scope.

Lemma haversine_same (lat lon : R) : Geo.haversine lat lon lat lon = 0.
Proof.
  unfold Geo.haversine.
  replace ((lat - lat) * PI / 180 / 2) with 0 by lra.
  replace ((lon - lon) * PI / 180 / 2) with 0 by lra.
  rewrite sin_0. ring.
Qed.

Lemma atan2_0_1 : Geo.atan2 0 1 = 0.
Proof.
  unfold Geo.atan2. destruct (Rlt_dec 0 1); [|lra].
  replace (0 / 1) with 0 by lra. apply atan_0.
Qed.

Lemma calculateDistance_same (lat lon : R) :
  Geo.calculateDistance lat lon lat lon = 0.
Proof.
  unfold Geo.calculateDistance. rewrite haversine_same.
  replace (1 - 0) with 1 by lra.
  rewrite sqrt_0, sqrt_1, atan2_0_1. ring.
Qed.

Lemma sin_sqr_bounds (x : R) : 0 <= sin x * sin x <= 1.
Proof. pose proof (SIN_bound x). nra. Qed.

Lemma sin_half_sqr (x : R) : sin (x / 2) * sin (x / 2) = (1 - cos x) / 2.
Proof.
  pose proof (cos_2a_sin (x / 2)) as H.
  replace (2 * (x / 2)) with x in H by lra. lra.
Qed.

(** The haversine term is the haversine of an angle: it lies in [0, 1]
    for all inputs, so both square roots of [calculateDistance] are taken
    of non-negative numbers. *)
Lemma haversine_range (lat1 lon1 lat2 lon2 : R) :
  0 <= Geo.haversine lat1 lon1 lat2 lon2 <= 1.
Proof.
  unfold Geo.haversine.
  set (p1 := lat1 * PI / 180). set (p2 := lat2 * PI / 180).
  replace ((lat2 - lat1) * PI / 180 / 2) with ((p2 - p1) / 2)
    by (unfold p1, p2; lra).
  set (y := sin ((lon2 - lon1) * PI / 180 / 2)).
  rewrite sin_half_sqr, cos_minus.
  pose proof (COS_bound (p2 + p1)) as Hb. rewrite cos_plus in Hb.
  pose proof (COS_bound (p2 - p1)) as Hc. rewrite cos_minus in Hc.
  assert (Hy : 0 <= y * y <= 1) by apply sin_sqr_bounds.
  set (c := cos p1 * cos p2) in *. set (s := sin p2 * sin p1) in *.
  replace (cos p2 * cos p1) with c in * by (unfold c; ring).
  replace (c * y * y) with (c * (y * y)) by ring.
  generalize dependent (y * y). intros t Ht. nra.
Qed.

(** The usual form of the haversine distance, [2 R asin (sqrt a)]. *)
Lemma calculateDistance_asin (lat1 lon1 lat2 lon2 : R) :
  Geo.calculateDistance lat1 lon1 lat2 lon2 =
  2 * 6371 * asin (sqrt (Geo.haversine lat1 lon1 lat2 lon2)).
Proof.
  unfold Geo.calculateDistance.
  pose proof (haversine_range lat1 lon1 lat2 lon2) as [H0 H1].
  set (a := Geo.haversine lat1 lon1 lat2 lon2) in *.
  enough (Geo.atan2 (sqrt a) (sqrt (1 - a)) = asin (sqrt a)) as -> by ring.
  destruct (Req_dec a 1) as [->|Hne].
  - replace (1 - 1) with 0 by lra. rewrite sqrt_0, sqrt_1, asin_1.
    unfold Geo.atan2.
    destruct (Rlt_dec 0 0); [lra|]. destruct (Rlt_dec 0 1); [reflexivity|lra].
  - assert (0 < sqrt (1 - a)) by (apply sqrt_lt_R0; lra).
    assert (sqrt a < 1).
    { rewrite <- sqrt_1. apply sqrt_lt_1_alt. lra. }
    pose proof (sqrt_pos a).
    unfold Geo.atan2. destruct (Rlt_dec 0 (sqrt (1 - a))); [|lra].
    rewrite asin_atan by lra.
    rewrite Rsqr_sqrt by lra. reflexivity.
Qed.

End Distance.

(** ** The distance function on doubles *)

(** Facts about the rounded operations of binary64, read off their
    specification ([SpecFloat]). *)
Module Binary64.
Import PrimFloat SpecFloat FloatOps FloatAxioms.
Local Open Scope Z_scope.

(** *** The number of binary digits *)

Lemma digits2_size (p : positive) : digits2_pos p = Pos.size p.
Proof. induction p as [p IH|p IH|]; simpl; rewrite ?IH; reflexivity. Qed.

Lemma Zdigits2_log2 (m : Z) : 0 < m -> Zdigits2 m = Z.log2 m + 1.
Proof.
  destruct m as [|p|p]; try lia. intros _. simpl. rewrite digits2_size.
  destruct p; simpl; lia.
Qed.

Lemma Zdigits2_nonneg (m : Z) : 0 <= Zdigits2 m.
Proof. destruct m; simpl; lia. Qed.

Lemma Zdigits2_pos (m : Z) : 0 < m -> 1 <= Zdigits2 m.
Proof. intros H. rewrite Zdigits2_log2 by exact H. pose proof (Z.log2_nonneg m). lia. Qed.

Lemma Zdigits2_mono (a b : Z) : 0 <= a <= b -> Zdigits2 a <= Zdigits2 b.
Proof.
  intros [Ha Hab]. destruct (Z.eq_dec a 0) as [->|Hn]; [apply Zdigits2_nonneg|].
  rewrite !Zdigits2_log2 by lia. pose proof (Z.log2_le_mono a b Hab). lia.
Qed.

Lemma Zdigits2_succ (a : Z) : 0 <= a -> Zdigits2 (a + 1) <= Zdigits2 a + 1.
Proof.
  intros Ha. destruct (Z.eq_dec a 0) as [->|Hn]; [simpl; lia|].
  rewrite !Zdigits2_log2 by lia. pose proof (Z.log2_succ_le a).
  unfold Z.succ in *. lia.
Qed.

Lemma Zdigits2_mul (a b : Z) :
  0 <= a -> 0 <= b -> Zdigits2 (a * b) <= Zdigits2 a + Zdigits2 b.
Proof.
  intros Ha Hb.
  destruct (Z.eq_dec a 0) as [->|Hna]; [simpl; apply Zdigits2_nonneg|].
  destruct (Z.eq_dec b 0) as [->|Hnb];
    [rewrite Z.mul_0_r; simpl; pose proof (Zdigits2_nonneg a); lia|].
  rewrite !Zdigits2_log2 by nia. pose proof (Z.log2_mul_above a b Ha Hb). lia.
Qed.

Lemma Zdigits2_div_pow2 (m n : Z) :
  0 <= m -> 0 <= n -> Zdigits2 (m / 2 ^ n) = Z.max 0 (Zdigits2 m - n).
Proof.
  intros Hm Hn. destruct (Z.eq_dec m 0) as [->|Hnz].
  { rewrite Z.div_0_l by (apply Z.pow_nonzero; lia). simpl. lia. }
  rewrite <- Z.shiftr_div_pow2 by exact Hn.
  rewrite (Zdigits2_log2 m) by lia.
  destruct (Z_lt_le_dec (Z.log2 m) n) as [Hlt|Hge].
  - rewrite Z.shiftr_eq_0 by lia. simpl. lia.
  - assert (Hpos : 0 < Z.shiftr m n).
    { pose proof (Z.shiftr_nonneg m n) as Hs.
      assert (Z.shiftr m n <> 0); [|lia].
      rewrite Z.shiftr_eq_0_iff. lia. }
    rewrite Zdigits2_log2 by exact Hpos. rewrite Z.log2_shiftr by lia. lia.
Qed.

Lemma Zdigits2_shiftl (m n : Z) :
  0 < m -> 0 <= n -> Zdigits2 (Z.shiftl m n) = Zdigits2 m + n.
Proof.
  intros Hm Hn.
  assert (0 < Z.shiftl m n)
    by (rewrite Z.shiftl_mul_pow2 by lia;
        pose proof (Z.pow_pos_nonneg 2 n ltac:(lia) Hn); nia).
  rewrite !Zdigits2_log2 by lia. rewrite Z.log2_shiftl by lia. lia.
Qed.

Lemma Zdigits2_lower (m : Z) : 0 < m -> 2 ^ (Zdigits2 m - 1) <= m.
Proof.
  intros Hm. rewrite Zdigits2_log2 by exact Hm.
  replace (Z.log2 m + 1 - 1) with (Z.log2 m) by lia.
  apply Z.log2_spec, Hm.
Qed.

(** Shifting right by fewer digits than the number has leaves a positive
    number. *)
Lemma div_pow2_pos (m n : Z) : 0 < m -> 0 <= n < Zdigits2 m -> 1 <= m / 2 ^ n.
Proof.
  intros Hm Hn. apply Z.div_le_lower_bound; [apply Z.pow_pos_nonneg; lia|].
  rewrite Z.mul_1_r. etransitivity; [|apply Zdigits2_lower, Hm].
  apply Z.pow_le_mono_r; lia.
Qed.

(** *** Shifts of the rounding procedure *)

Lemma shr_1_m (mrs : shr_record) :
  0 <= shr_m mrs -> shr_m (shr_1 mrs) = shr_m mrs / 2.
Proof.
  destruct mrs as [m r s]. simpl. intros Hm. rewrite <- Z.div2_div.
  destruct m as [|[p|p|]|p]; try reflexivity; lia.
Qed.

Lemma iter_shr_m (p : positive) (mrs : shr_record) :
  0 <= shr_m mrs -> shr_m (iter_pos shr_1 p mrs) = shr_m mrs / 2 ^ Z.pos p.
Proof.
  assert (Hpow : forall q : positive, 0 < 2 ^ Z.pos q)
    by (intros q; apply Z.pow_pos_nonneg; lia).
  revert mrs. induction p as [p IH|p IH|]; intros mrs Hm; simpl iter_pos.
  - assert (H1 : 0 <= shr_m (shr_1 mrs))
      by (rewrite shr_1_m by exact Hm; apply Z.div_pos; lia).
    assert (H2 : 0 <= shr_m (iter_pos shr_1 p (shr_1 mrs)))
      by (rewrite IH by exact H1; apply Z.div_pos; [lia|apply Hpow]).
    rewrite IH by exact H2. rewrite IH by exact H1. rewrite shr_1_m by exact Hm.
    pose proof (Hpow p).
    rewrite !Z.div_div by lia.
    f_equal. replace (Z.pos p~1) with (1 + Z.pos p + Z.pos p) by lia.
    rewrite !Z.pow_add_r by lia. change (2 ^ 1) with 2. ring.
  - assert (H2 : 0 <= shr_m (iter_pos shr_1 p mrs))
      by (rewrite IH by exact Hm; apply Z.div_pos; [lia|apply Hpow]).
    rewrite IH by exact H2. rewrite IH by exact Hm.
    pose proof (Hpow p).
    rewrite !Z.div_div by lia.
    f_equal. replace (Z.pos p~0) with (Z.pos p + Z.pos p) by lia.
    rewrite !Z.pow_add_r by lia. ring.
  - rewrite shr_1_m by exact Hm. reflexivity.
Qed.

Lemma shr_spec (mrs : shr_record) (e n : Z) :
  0 <= shr_m mrs ->
  snd (shr mrs e n) = e + Z.max 0 n /\
  shr_m (fst (shr mrs e n)) = shr_m mrs / 2 ^ Z.max 0 n.
Proof.
  intros Hm. destruct n as [|p|p]; simpl.
  - rewrite Z.add_0_r, Z.div_1_r. auto.
  - rewrite iter_shr_m by exact Hm. auto.
  - rewrite Z.add_0_r, Z.div_1_r. auto.
Qed.

Lemma shr_record_of_loc_m (m : Z) (l : location) :
  shr_m (shr_record_of_loc m l) = m.
Proof. destruct l as [|[]]; reflexivity. Qed.

Lemma round_nearest_even_bounds (m : Z) (l : location) :
  m <= round_nearest_even m l <= m + 1.
Proof. destruct l as [|[]]; simpl; try lia. destruct (Z.even m); lia. Qed.

Lemma fexp_eq (k : Z) : fexp prec emax k = Z.max (k - 53) (-1074).
Proof. reflexivity. Qed.

(** What [binary_round_aux] does: two shifts with a rounding step in
    between. *)
Lemma binary_round_aux_spec (s : bool) (m e : Z) (l : location) :
  0 <= m ->
  exists r : Z,
    let n1 := Z.max 0 (fexp prec emax (Zdigits2 m + e) - e) in
    let e1 := e + n1 in
    let n2 := Z.max 0 (fexp prec emax (Zdigits2 r + e1) - e1) in
    m / 2 ^ n1 <= r <= m / 2 ^ n1 + 1 /\
    binary_round_aux prec emax s m e l =
    match r / 2 ^ n2 with
    | Z0 => S754_zero s
    | Zpos p =>
        if e1 + n2 <=? 971 then S754_finite s p (e1 + n2) else S754_infinity s
    | Zneg _ => S754_nan
    end.
Proof.
  intros Hm. unfold binary_round_aux, shr_fexp.
  pose proof (shr_spec (shr_record_of_loc m l) e
                (fexp prec emax (Zdigits2 m + e) - e)) as H1.
  rewrite shr_record_of_loc_m in H1. specialize (H1 Hm).
  destruct (shr (shr_record_of_loc m l) e _) as [mrs' e'].
  simpl in H1. destruct H1 as [He' Hm'].
  set (r := round_nearest_even (shr_m mrs') (loc_of_shr_record mrs')).
  pose proof (round_nearest_even_bounds (shr_m mrs') (loc_of_shr_record mrs')) as Hr.
  fold r in Hr.
  assert (Hm'0 : 0 <= shr_m mrs')
    by (rewrite Hm'; apply Z.div_pos; [lia|apply Z.pow_pos_nonneg; lia]).
  pose proof (shr_spec (shr_record_of_loc r loc_Exact) e'
                (fexp prec emax (Zdigits2 r + e') - e')) as H2.
  rewrite shr_record_of_loc_m in H2. specialize (H2 ltac:(lia)).
  destruct (shr (shr_record_of_loc r loc_Exact) e' _) as [mrs'' e''].
  simpl in H2. destruct H2 as [He'' Hm''].
  exists r. cbv zeta. rewrite <- He', <- Hm'. split; [exact Hr|].
  rewrite <- Hm'', <- He''. reflexivity.
Qed.

Lemma binary_round_aux_small (s : bool) (m e : Z) (l : location) (k : Z) :
  0 <= m -> Zdigits2 m + e <= k -> -1074 <= k <= 1000 -> e <= 971 ->
  Doubles.small (k + 1) (binary_round_aux prec emax s m e l).
Proof.
  intros Hm Hk Hk' He.
  destruct (binary_round_aux_spec s m e l Hm) as (r & Hr & ->).
  cbv zeta in Hr |- *. rewrite !fexp_eq in *.
  set (n1 := Z.max 0 (Z.max (Zdigits2 m + e - 53) (-1074) - e)) in *.
  set (n2 := Z.max 0 (Z.max (Zdigits2 r + (e + n1) - 53) (-1074) - (e + n1))).
  assert (Hn1 : 0 <= n1) by (unfold n1; lia).
  assert (Hn2 : 0 <= n2) by (unfold n2; lia).
  assert (Hq : 0 <= m / 2 ^ n1)
    by (apply Z.div_pos; [lia|apply Z.pow_pos_nonneg; lia]).
  pose proof (Zdigits2_div_pow2 m n1 Hm Hn1) as Dq.
  assert (Dr : Zdigits2 r <= Zdigits2 (m / 2 ^ n1) + 1).
  { etransitivity; [apply (Zdigits2_mono r (m / 2 ^ n1 + 1)); lia|].
    apply Zdigits2_succ, Hq. }
  pose proof (Zdigits2_div_pow2 r n2 ltac:(lia) Hn2) as Dp.
  pose proof (Zdigits2_nonneg m) as Dm0.
  destruct (r / 2 ^ n2) as [|p|p] eqn:Ep.
  - exact I.
  - simpl in Dp.
    assert (Hle : e + n1 + n2 <= 971) by (unfold n2, n1 in *; lia).
    apply Z.leb_le in Hle. rewrite Hle. simpl. unfold n2, n1 in *. lia.
  - assert (0 <= r / 2 ^ n2)
      by (apply Z.div_pos; [lia|apply Z.pow_pos_nonneg; lia]).
    lia.
Qed.

Lemma binary_round_aux_nonzero (s : bool) (m e : Z) (l : location) (s' : bool) :
  0 < m -> -1074 <= e -> binary_round_aux prec emax s m e l <> S754_zero s'.
Proof.
  intros Hm He.
  destruct (binary_round_aux_spec s m e l ltac:(lia)) as (r & Hr & ->).
  cbv zeta in Hr |- *. rewrite !fexp_eq in *.
  set (n1 := Z.max 0 (Z.max (Zdigits2 m + e - 53) (-1074) - e)) in *.
  set (n2 := Z.max 0 (Z.max (Zdigits2 r + (e + n1) - 53) (-1074) - (e + n1))).
  pose proof (Zdigits2_pos m Hm) as Dm.
  assert (Hq : 1 <= m / 2 ^ n1) by (apply div_pow2_pos; unfold n1; lia).
  assert (Hr1 : 0 < r) by lia.
  pose proof (Zdigits2_pos r Hr1) as Dr.
  assert (Hp : 1 <= r / 2 ^ n2) by (apply div_pow2_pos; unfold n2, n1; lia).
  destruct (r / 2 ^ n2) as [|p|p]; try lia.
  destruct (_ <=? _); discriminate.
Qed.

Lemma shl_align_exp (mx : positive) (ex ex' : Z) :
  snd (shl_align mx ex ex') = Z.min ex ex'.
Proof. unfold shl_align. destruct (ex' - ex) eqn:E; simpl; lia. Qed.

Lemma binary_round_nonzero (s : bool) (m : positive) (e : Z) (s' : bool) :
  -1074 <= e -> binary_round prec emax s m e <> S754_zero s'.
Proof.
  intros He. unfold binary_round.
  pose proof (shl_align_exp m e (fexp prec emax (Z.pos (digits2_pos m) + e))) as Hs.
  destruct (shl_align _ _ _) as [mz ez]. simpl in Hs.
  apply binary_round_aux_nonzero; [lia|]. rewrite fexp_eq in Hs. lia.
Qed.

Lemma binary_round_negative (m : positive) (e : Z) :
  -1074 <= e -> SF64sqrt (binary_round prec emax true m e) = S754_nan.
Proof.
  intros He. pose proof (binary_round_nonzero true m e true He) as Hnz.
  unfold binary_round in *. destruct (shl_align _ _ _) as [mz ez].
  unfold binary_round_aux in *.
  destruct (shr_fexp _ _ _ _ _) as [mrs' e'].
  destruct (shr_fexp _ _ _ _ _) as [mrs'' e''].
  destruct (shr_m mrs''); [contradiction| |reflexivity].
  destruct (_ <=? _)%Z; reflexivity.
Qed.

Lemma iter_xO_value (m d : positive) :
  Z.pos (Pos.iter xO m d) = Z.pos m * 2 ^ Z.pos d.
Proof.
  induction d as [|d IH] using Pos.peano_ind.
  - simpl. lia.
  - rewrite Pos.iter_succ, Pos2Z.inj_xO, IH, Pos2Z.inj_succ, Z.pow_succ_r by lia.
    ring.
Qed.

Lemma shl_align_value (m : positive) (e e' : Z) :
  Z.pos (fst (shl_align m e e')) = Z.pos m * 2 ^ (e - Z.min e e').
Proof.
  unfold shl_align. destruct (e' - e) as [|d|d] eqn:E; simpl.
  - replace (e - Z.min e e') with 0 by lia. lia.
  - replace (e - Z.min e e') with 0 by lia. lia.
  - rewrite iter_xO_value. f_equal. f_equal. lia.
Qed.

(** A valid number with an exponent above the least one has a full
    mantissa. *)
Lemma valid_full_mantissa (s : bool) (m : positive) (e : Z) :
  valid_binary (S754_finite s m e) = true -> -1074 < e ->
  2 ^ 52 <= Z.pos m.
Proof.
  simpl. unfold bounded, canonical_mantissa. rewrite fexp_eq.
  intros H He. apply andb_prop in H as [H _]. apply Z.eqb_eq in H.
  assert (D : Zdigits2 (Z.pos m) = 53) by (simpl; lia).
  pose proof (Zdigits2_lower (Z.pos m) ltac:(lia)) as Hl. rewrite D in Hl.
  exact Hl.
Qed.

Lemma valid_digits (s : bool) (m : positive) (e : Z) :
  valid_binary (S754_finite s m e) = true ->
  Z.pos (digits2_pos m) <= 53 /\ -1074 <= e.
Proof.
  simpl. unfold bounded, canonical_mantissa. rewrite fexp_eq.
  intros H. apply andb_prop in H as [H _]. apply Z.eqb_eq in H. lia.
Qed.

Lemma SFmul_small (a b : Z) (X Y : spec_float) :
  Doubles.small a X -> Doubles.small b Y -> -1074 <= a + b <= 900 ->
  Doubles.small (a + b + 1) (SF64mul X Y).
Proof.
  destruct X as [sx|sx| |sx mx ex], Y as [sy|sy| |sy my ey]; simpl;
    try tauto.
  intros Ha Hb Hk. apply binary_round_aux_small; try lia.
  rewrite Pos2Z.inj_mul.
  pose proof (Zdigits2_mul (Z.pos mx) (Z.pos my) ltac:(lia) ltac:(lia)) as H.
  simpl in H. simpl. lia.
Qed.

Lemma SFdiv_small (a : Z) (X : spec_float) (sy : bool) (my : positive) (ey : Z) :
  Doubles.small a X -> -1074 <= a - ey <= 900 ->
  Doubles.small (a - ey + 1) (SF64div X (S754_finite sy my ey)).
Proof.
  destruct X as [sx|sx| |sx mx ex]; simpl; try tauto.
  intros Ha Hk. unfold SFdiv_core_binary. cbv zeta.
  set (e' := Z.min _ (ex - ey)).
  assert (He' : e' <= ex - ey) by (unfold e'; lia).
  set (m' := match ex - ey - e' with
             | 0 => Z.pos mx
             | Z.pos _ => Z.shiftl (Z.pos mx) (ex - ey - e')
             | Z.neg _ => 0
             end).
  assert (Hm' : m' = Z.shiftl (Z.pos mx) (ex - ey - e')).
  { unfold m'. destruct (ex - ey - e') eqn:E; try reflexivity. lia. }
  assert (Dm' : Zdigits2 m' = Z.pos (digits2_pos mx) + (ex - ey - e')).
  { rewrite Hm', Zdigits2_shiftl by lia. reflexivity. }
  assert (Hm'0 : 0 < m').
  { rewrite Hm', Z.shiftl_mul_pow2 by lia.
    pose proof (Z.pow_pos_nonneg 2 (ex - ey - e') ltac:(lia) ltac:(lia)). nia. }
  destruct (Z.div_eucl m' (Z.pos my)) as [q r] eqn:E.
  assert (Hq : q = m' / Z.pos my) by (unfold Z.div; rewrite E; reflexivity).
  assert (Hq0 : 0 <= q) by (rewrite Hq; apply Z.div_pos; lia).
  assert (Hqm : q <= m')
    by (rewrite Hq; apply Z.div_le_upper_bound; [lia|nia]).
  pose proof (Zdigits2_mono q m' ltac:(lia)) as Dq.
  apply binary_round_aux_small; try lia.
Qed.

Local Open Scope float_scope.

(** *** Classes, signs and special values *)

Lemma SFcompare_refl (X : spec_float) :
  X <> S754_nan -> SFcompare X X = Some Eq.
Proof.
  destruct X as [s|s| |s m e]; intros H; try (destruct s; reflexivity).
  - contradiction.
  - simpl. rewrite Z.compare_refl, Pos.compare_cont_refl. destruct s; reflexivity.
Qed.

Lemma is_nan_spec (x : float) :
  is_nan x = match Prim2SF x with S754_nan => true | _ => false end.
Proof.
  unfold is_nan. rewrite eqb_spec. unfold SFeqb.
  destruct (Prim2SF x) as [s|s| |s m e] eqn:E; try reflexivity;
    rewrite SFcompare_refl by discriminate; reflexivity.
Qed.

Lemma is_finite_spec (x : float) :
  is_finite x =
  match Prim2SF x with S754_nan | S754_infinity _ => false | _ => true end.
Proof.
  unfold is_finite, is_infinity. rewrite is_nan_spec, eqb_spec, abs_spec.
  change (Prim2SF infinity) with (S754_infinity false).
  destruct (Prim2SF x) as [s|s| |s m e]; try reflexivity.
Qed.

Lemma binary_round_aux_opp (s : bool) (m e : Z) (l : location) :
  binary_round_aux prec emax (negb s) m e l =
  SFopp (binary_round_aux prec emax s m e l).
Proof.
  unfold binary_round_aux.
  destruct (shr_fexp prec emax m e l) as [mrs' e'].
  destruct (shr_fexp prec emax _ e' loc_Exact) as [mrs'' e''].
  destruct (shr_m mrs''); try reflexivity.
  destruct (Z.leb e'' _); reflexivity.
Qed.

Lemma binary_round_opp (s : bool) (m : positive) (e : Z) :
  binary_round prec emax (negb s) m e = SFopp (binary_round prec emax s m e).
Proof.
  unfold binary_round. destruct (shl_align _ _ _) as [mz ez].
  apply binary_round_aux_opp.
Qed.

Lemma SFsub_swap (X Y : spec_float) :
  SF64sub Y X = SFopp (SF64sub X Y) \/ SF64sub Y X = SF64sub X Y.
Proof.
  destruct X as [sx|sx| |sx mx ex], Y as [sy|sy| |sy my ey];
    try (destruct sx, sy; simpl; auto; fail);
    try (destruct sx; simpl; auto; fail);
    try (destruct sy; simpl; auto; fail);
    try (simpl; auto; fail).
  unfold SF64sub, SFsub. rewrite (Z.min_comm ey ex).
  set (ez := Z.min ex ey).
  set (a := cond_Zopp sx (Zpos (fst (shl_align mx ex ez)))).
  set (b := cond_Zopp sy (Zpos (fst (shl_align my ey ez)))).
  replace (b - a)%Z with (- (a - b))%Z by lia.
  destruct (a - b)%Z as [|p|p]; simpl.
  - right. reflexivity.
  - left. apply (binary_round_opp false).
  - left. rewrite <- (binary_round_opp true). reflexivity.
Qed.

Lemma sub_swap (x y : float) : y - x = - (x - y) \/ y - x = x - y.
Proof.
  destruct (SFsub_swap (Prim2SF x) (Prim2SF y)) as [H|H]; [left|right];
    apply Prim2SF_inj; rewrite ?opp_spec, !sub_spec; exact H.
Qed.

Lemma sub_self (x : float) : is_finite x = true -> x - x = 0.
Proof.
  rewrite is_finite_spec. intros H. apply Prim2SF_inj. rewrite sub_spec.
  change (Prim2SF 0) with (S754_zero false).
  destruct (Prim2SF x) as [s|s| |s m e]; try discriminate.
  - destruct s; reflexivity.
  - unfold SF64sub, SFsub. cbv zeta. rewrite Z.sub_diag. reflexivity.
Qed.

Lemma SFmul_opp_l (X Y : spec_float) :
  SF64mul (SFopp X) Y = SFopp (SF64mul X Y).
Proof.
  destruct X as [sx|sx| |sx mx ex], Y as [sy|sy| |sy my ey]; simpl;
    try reflexivity; try (destruct sx, sy; reflexivity).
  rewrite <- binary_round_aux_opp. f_equal. destruct sx, sy; reflexivity.
Qed.

Lemma mul_opp_l (x y : float) : (- x) * y = - (x * y).
Proof.
  apply Prim2SF_inj. rewrite opp_spec, !mul_spec, opp_spec. apply SFmul_opp_l.
Qed.

Lemma SFmul_comm (X Y : spec_float) : SF64mul X Y = SF64mul Y X.
Proof.
  destruct X as [sx|sx| |sx mx ex], Y as [sy|sy| |sy my ey]; simpl;
    try reflexivity; try (destruct sx, sy; reflexivity).
  rewrite (xorb_comm sx sy), (Pos.mul_comm mx my), (Z.add_comm ex ey).
  reflexivity.
Qed.

Lemma mul_comm (x y : float) : x * y = y * x.
Proof. apply Prim2SF_inj. rewrite !mul_spec. apply SFmul_comm. Qed.

Lemma mul_opp_r (x y : float) : x * (- y) = - (x * y).
Proof. rewrite (mul_comm x (- y)), mul_opp_l, (mul_comm y x). reflexivity. Qed.

Lemma opp_involutive (x : float) : - - x = x.
Proof.
  apply Prim2SF_inj. rewrite !opp_spec.
  destruct (Prim2SF x) as [s|s| |s m e]; simpl; rewrite ?negb_involutive;
    reflexivity.
Qed.

Lemma mul_opp_opp (x y : float) : (- x) * (- y) = x * y.
Proof. rewrite mul_opp_l, mul_opp_r. apply opp_involutive. Qed.

Lemma SFdiv_opp_l (X Y : spec_float) :
  SF64div (SFopp X) Y = SFopp (SF64div X Y).
Proof.
  destruct X as [sx|sx| |sx mx ex], Y as [sy|sy| |sy my ey]; simpl;
    try reflexivity; try (destruct sx, sy; reflexivity).
  destruct (SFdiv_core_binary prec emax (Z.pos mx) ex (Z.pos my) ey) as [[mz ez] lz].
  rewrite <- binary_round_aux_opp. f_equal. destruct sx, sy; reflexivity.
Qed.

Lemma div_opp_l (x y : float) : (- x) / y = - (x / y).
Proof.
  apply Prim2SF_inj. rewrite opp_spec, !div_spec, opp_spec. apply SFdiv_opp_l.
Qed.

(** [Math.sqrt(1 - a)] is [NaN] as soon as [a] is above 1. *)
Lemma sqrt_one_minus (a : float) : (1 <? a) = true -> sqrt (1 - a) = nan.
Proof.
  intros H. apply Prim2SF_inj. rewrite sqrt_spec, sub_spec.
  rewrite ltb_spec in H.
  change (Prim2SF 1) with (S754_finite false 4503599627370496 (-52)) in *.
  change (Prim2SF nan) with S754_nan.
  pose proof (Prim2SF_valid a) as Hv.
  destruct (Prim2SF a) as [s|s| |s m e]; try discriminate.
  - destruct s; [discriminate|reflexivity].
  - destruct s; [discriminate|].
    unfold SFltb, SFcompare in H.
    assert (He : (-52 <= e)%Z).
    { destruct (Z.compare (-52) e) eqn:C;
        [apply Z.compare_eq in C; lia
        |rewrite Z.compare_lt_iff in C; lia
        |discriminate H]. }
    assert (Hb : (2 ^ 52 < Z.pos (fst (shl_align m e (-52))))%Z).
    { rewrite shl_align_value, Z.min_r by lia.
      destruct (Z.compare (-52) e) eqn:C; [| |discriminate H].
      - apply Z.compare_eq in C. subst e.
        change (-52 - -52)%Z with 0%Z.
        rewrite Z.pow_0_r, Z.mul_1_r.
        change (Pos.compare_cont Eq 4503599627370496 m)
          with (4503599627370496 ?= m)%positive in H.
        destruct (4503599627370496 ?= m)%positive eqn:Cm; try discriminate H.
        rewrite Pos.compare_lt_iff in Cm.
        change (2 ^ 52)%Z with (Z.pos 4503599627370496). lia.
      - rewrite Z.compare_lt_iff in C.
        pose proof (valid_full_mantissa false m e Hv ltac:(lia)) as Hm.
        assert (2 ^ 1 <= 2 ^ (e - -52))%Z by (apply Z.pow_le_mono_r; lia).
        change (2 ^ 1)%Z with 2%Z in *. nia. }
    unfold SF64sub, SFsub. cbv zeta. rewrite Z.min_l by exact He.
    change (cond_Zopp false
              (Z.pos (fst (shl_align 4503599627370496 (-52) (-52)))))
      with (2 ^ 52)%Z.
    unfold cond_Zopp.
    destruct (2 ^ 52 - Z.pos (fst (shl_align m e (-52))))%Z as [|p|p] eqn:E;
      try lia.
    simpl binary_normalize. apply binary_round_negative. lia.
Qed.

Lemma small_is_finite (k : Z) (x : float) :
  Doubles.small k (Prim2SF x) -> is_finite x = true.
Proof.
  rewrite is_finite_spec. destruct (Prim2SF x); simpl; tauto.
Qed.

Lemma small_of_leb (x b : float) (mB : positive) (eB : Z) :
  Prim2SF b = S754_finite false mB eB ->
  (abs x <=? b) = true -> Doubles.small (53 + eB) (Prim2SF x).
Proof.
  intros Hb H. rewrite leb_spec, abs_spec, Hb in H.
  pose proof (Prim2SF_valid x) as Hv.
  destruct (Prim2SF x) as [s|s| |s m e]; try discriminate; [exact I|].
  apply valid_digits in Hv as [Hd _].
  unfold SFleb, SFcompare in H. simpl in H. simpl.
  destruct (Z.compare e eB) eqn:C.
  - apply Z.compare_eq in C. lia.
  - rewrite Z.compare_lt_iff in C. lia.
  - discriminate H.
Qed.

Lemma mul_small (a b : Z) (x y : float) :
  Doubles.small a (Prim2SF x) -> Doubles.small b (Prim2SF y) ->
  (-1074 <= a + b <= 900)%Z -> Doubles.small (a + b + 1) (Prim2SF (x * y)).
Proof. rewrite mul_spec. apply SFmul_small. Qed.

Lemma div_small (a : Z) (x y : float) (sy : bool) (my : positive) (ey : Z) :
  Prim2SF y = S754_finite sy my ey ->
  Doubles.small a (Prim2SF x) -> (-1074 <= a - ey <= 900)%Z ->
  Doubles.small (a - ey + 1) (Prim2SF (x / y)).
Proof. intros Hy. rewrite div_spec, Hy. apply SFdiv_small. Qed.

Lemma small_mul_zero (k : Z) (t : float) :
  Doubles.small k (Prim2SF t) -> t * 0 = 0 \/ t * 0 = - 0.
Proof.
  intros H.
  assert (E : exists s, Prim2SF (t * 0) = S754_zero s).
  { rewrite mul_spec. change (Prim2SF 0) with (S754_zero false).
    destruct (Prim2SF t) as [s|s| |s m e]; simpl in *; try tauto; eauto. }
  destruct E as [s E]. rewrite <- (SF2Prim_Prim2SF (t * 0)), E.
  destruct s; [right|left]; reflexivity.
Qed.

Lemma not_finite_cases (x : float) :
  is_finite x = false -> x = nan \/ x = infinity \/ x = neg_infinity.
Proof.
  rewrite is_finite_spec. intros H. rewrite <- (SF2Prim_Prim2SF x).
  destruct (Prim2SF x) as [s|s| |s m e]; try discriminate; [|auto].
  destruct s; auto.
Qed.

Lemma sub_not_finite (x y : float) :
  is_finite x = false \/ is_finite y = false -> is_finite (y - x) = false.
Proof.
  rewrite !is_finite_spec, sub_spec.
  destruct (Prim2SF x) as [sx|sx| |sx mx ex], (Prim2SF y) as [sy|sy| |sy my ey];
    simpl; intros [H|H]; try discriminate; try reflexivity;
    destruct sx, sy; reflexivity.
Qed.

Lemma add_nan_l (y : float) : nan + y = nan.
Proof. apply Prim2SF_inj. rewrite add_spec. reflexivity. Qed.

Lemma add_nan_r (x : float) : x + nan = nan.
Proof.
  apply Prim2SF_inj. rewrite add_spec. change (Prim2SF nan) with S754_nan.
  destruct (Prim2SF x) as [s|s| |s m e]; reflexivity.
Qed.

Lemma mul_nan_r (x : float) : x * nan = nan.
Proof.
  apply Prim2SF_inj. rewrite mul_spec. change (Prim2SF nan) with S754_nan.
  destruct (Prim2SF x) as [s|s| |s m e]; reflexivity.
Qed.

Lemma is_finite_opp (x : float) : is_finite (- x) = is_finite x.
Proof.
  rewrite !is_finite_spec, opp_spec. destruct (Prim2SF x); reflexivity.
Qed.

End Binary64.

Section DistanceOnDoubles.
Import PrimFloat SpecFloat FloatOps FloatAxioms Binary64.
Local Open Scope float_scope.

Section WithMath.
Variable M : Doubles.math.
Hypothesis HM : Doubles.lawful M.

Lemma half_angle_square (u v : float) :
  u = - v \/ u = v ->
  Doubles.sin M (u * Doubles.PI / 180 / 2) * Doubles.sin M (u * Doubles.PI / 180 / 2) =
  Doubles.sin M (v * Doubles.PI / 180 / 2) * Doubles.sin M (v * Doubles.PI / 180 / 2).
Proof.
  intros [-> | ->]; [|reflexivity].
  rewrite mul_opp_l, !div_opp_l, (Doubles.sin_odd M HM). apply mul_opp_opp.
Qed.

Lemma half_angle_product (c u v : float) :
  u = - v \/ u = v ->
  c * Doubles.sin M (u * Doubles.PI / 180 / 2) * Doubles.sin M (u * Doubles.PI / 180 / 2) =
  c * Doubles.sin M (v * Doubles.PI / 180 / 2) * Doubles.sin M (v * Doubles.PI / 180 / 2).
Proof.
  intros [-> | ->]; [|reflexivity].
  rewrite mul_opp_l, !div_opp_l, (Doubles.sin_odd M HM).
  rewrite !mul_opp_r, mul_opp_l. apply opp_involutive.
Qed.

Lemma haversine_swap (lat1 lon1 lat2 lon2 : float) :
  Doubles.haversine M lat1 lon1 lat2 lon2 = Doubles.haversine M lat2 lon2 lat1 lon1.
Proof.
  unfold Doubles.haversine. cbv zeta.
  rewrite (half_angle_square (lat2 - lat1) (lat1 - lat2)) by apply sub_swap.
  rewrite (half_angle_product _ (lon2 - lon1) (lon1 - lon2)) by apply sub_swap.
  rewrite (mul_comm (Doubles.cos M (lat1 * Doubles.PI / 180))). reflexivity.
Qed.

Lemma distance_swap (lat1 lon1 lat2 lon2 : float) :
  Doubles.calculateDistance M lat1 lon1 lat2 lon2 =
  Doubles.calculateDistance M lat2 lon2 lat1 lon1.
Proof.
  unfold Doubles.calculateDistance.
  rewrite (haversine_swap lat1 lon1 lat2 lon2). reflexivity.
Qed.

(** A haversine term that is no number makes the distance no number. *)
Lemma distance_nan_term (lat1 lon1 lat2 lon2 : float) :
  Doubles.haversine M lat1 lon1 lat2 lon2 = nan ->
  Doubles.calculateDistance M lat1 lon1 lat2 lon2 = nan.
Proof.
  intros H. unfold Doubles.calculateDistance. cbv zeta. rewrite H.
  rewrite (Doubles.atan2_nan M HM) by reflexivity. reflexivity.
Qed.

Lemma distance_above_one (lat1 lon1 lat2 lon2 : float) :
  (1 <? Doubles.haversine M lat1 lon1 lat2 lon2) = true ->
  Doubles.calculateDistance M lat1 lon1 lat2 lon2 = nan.
Proof.
  intros H. unfold Doubles.calculateDistance. cbv zeta.
  rewrite (sqrt_one_minus _ H).
  rewrite (Doubles.atan2_nan M HM) by apply orb_true_r. reflexivity.
Qed.

Lemma half_angle_not_finite (d : float) :
  is_finite d = false -> Doubles.sin M (d * Doubles.PI / 180 / 2) = nan.
Proof.
  intros H. apply (Doubles.sin_not_finite M HM).
  destruct (not_finite_cases d H) as [-> | [-> | ->]]; reflexivity.
Qed.

Lemma distance_not_finite (lat1 lon1 lat2 lon2 : float) :
  is_finite lat1 && is_finite lon1 && is_finite lat2 && is_finite lon2 = false ->
  Doubles.calculateDistance M lat1 lon1 lat2 lon2 = nan.
Proof.
  intros H. apply distance_nan_term. unfold Doubles.haversine. cbv zeta.
  destruct (is_finite lat1) eqn:H1; [destruct (is_finite lat2) eqn:H2|].
  - destruct (is_finite lon1) eqn:H3;
      [destruct (is_finite lon2) eqn:H4; [discriminate H|]|];
      rewrite (half_angle_not_finite (lon2 - lon1))
        by (apply sub_not_finite; auto);
      rewrite !mul_nan_r; apply add_nan_r.
  - rewrite (half_angle_not_finite (lat2 - lat1)) by (apply sub_not_finite; auto).
    apply add_nan_l.
  - rewrite (half_angle_not_finite (lat2 - lat1)) by (apply sub_not_finite; auto).
    apply add_nan_l.
Qed.

Lemma radians_small (lat : float) :
  (abs lat <=? 90) = true ->
  Doubles.small 56 (Prim2SF (lat * Doubles.PI / 180)).
Proof.
  intros H.
  pose proof (small_of_leb lat 90 6333186975989760 (-46) eq_refl H) as Hl.
  assert (Hpi : Doubles.small 2 (Prim2SF Doubles.PI))
    by (vm_compute; discriminate).
  pose proof (mul_small _ _ _ _ Hl Hpi ltac:(lia)) as Hm.
  exact (div_small _ _ 180 false 6333186975989760 (-45) eq_refl Hm ltac:(lia)).
Qed.

Lemma distance_same_point (lat lon : float) :
  (abs lat <=? 90) = true -> is_finite lon = true ->
  Doubles.calculateDistance M lat lon lat lon = 0.
Proof.
  intros Hlat Hlon.
  assert (Hf : is_finite lat = true).
  { eapply small_is_finite, small_of_leb; [|exact Hlat]. reflexivity. }
  set (c := Doubles.cos M (lat * Doubles.PI / 180)).
  assert (Hc : Doubles.small 1 (Prim2SF c)).
  { apply (small_of_leb c 1 4503599627370496 (-52) eq_refl).
    apply (Doubles.cos_range M HM).
    eapply small_is_finite, radians_small, Hlat. }
  pose proof (mul_small _ _ _ _ Hc Hc ltac:(lia)) as Hcc.
  assert (Ha : Doubles.haversine M lat lon lat lon = 0).
  { unfold Doubles.haversine. cbv zeta. fold c.
    rewrite (sub_self lat Hf), (sub_self lon Hlon).
    change (0 * Doubles.PI / 180 / 2) with 0.
    rewrite (Doubles.sin_zero M HM).
    destruct (small_mul_zero _ _ Hcc) as [-> | ->]; reflexivity. }
  unfold Doubles.calculateDistance. cbv zeta. rewrite Ha.
  change (sqrt 0) with 0. change (sqrt (1 - 0)) with 1.
  rewrite (Doubles.atan2_zero M HM) by reflexivity. reflexivity.
Qed.

(** The pair (-12, -180), (12, 0) of antipodal points, for a sine and a
    cosine that are correctly rounded at the three angles involved: the
    haversine term comes out as the double next above 1. *)
Lemma antipodal_term :
  Doubles.sin M 0x1.acee9f37bebd5p-3 = 0x1.a9cd9ac4258f5p-3 ->
  Doubles.sin M 0x1.921fb54442d18p+0 = 1 ->
  Doubles.cos M (- 0x1.acee9f37bebd5p-3) = 0x1.f4cfc327a008p-1 ->
  Doubles.cos M 0x1.acee9f37bebd5p-3 = 0x1.f4cfc327a008p-1 ->
  Doubles.haversine M (-12) (-180) 12 0 = 0x1.0000000000001p+0.
Proof.
  intros Hs1 Hs2 Hc1 Hc2. unfold Doubles.haversine. cbv zeta.
  change ((12 - -12) * Doubles.PI / 180 / 2) with 0x1.acee9f37bebd5p-3.
  change ((0 - -180) * Doubles.PI / 180 / 2) with 0x1.921fb54442d18p+0.
  change (-12 * Doubles.PI / 180) with (- 0x1.acee9f37bebd5p-3).
  change (12 * Doubles.PI / 180) with 0x1.acee9f37bebd5p-3.
  rewrite Hs1, Hs2, Hc1, Hc2. reflexivity.
Qed.

End WithMath.

Lemma smallAngle_lawful : Doubles.lawful Doubles.smallAngle.
Proof.
  split; simpl.
  - reflexivity.
  - intros x ->. reflexivity.
  - intros x. rewrite is_finite_opp. destruct (is_finite x); reflexivity.
  - intros x ->. reflexivity.
  - intros y x H. apply Prim2SF_inj. rewrite div_spec.
    rewrite !is_nan_spec in H.
    destruct (Prim2SF y) as [s|s| |s m e], (Prim2SF x) as [s'|s'| |s' m' e'];
      try discriminate H; reflexivity.
  - intros x H. apply Prim2SF_inj. rewrite div_spec. rewrite ltb_spec in H.
    change (Prim2SF 0) with (S754_zero false) in *.
    destruct (Prim2SF x) as [s|s| |s m e]; try discriminate H;
      destruct s; try discriminate H; reflexivity.
Qed.

(** C8 (the code departs from the claim).  [calculateDistance] on the
    doubles it runs on, for every implementation of [Math.sin], [Math.cos]
    and [Math.atan2] that meets [Doubles.lawful].

    What holds: the two directions give the same double, so they are [==]
    exactly when the result is a number; and at a point with a latitude
    between -90 and 90 and a finite longitude the distance to itself is 0.

    Where the code departs: the haversine term is not kept within [0, 1]
    and the coordinates are not checked.  When the term comes out above 1,
    [Math.sqrt(1 - a)] is [NaN] and so is the distance (this is so for the
    antipodal points (-12, -180) and (12, 0), where the term is
    1.0000000000000002 when sine and cosine are correctly rounded); and a
    coordinate that is [NaN] or infinite gives [NaN] as well.  A [NaN] is
    [==] to nothing: there the two directions are not [==], and the
    distance of a point to itself is not [== 0]. *)
Theorem calculateDistance_not_a_number :
  forall M : Doubles.math,
    Doubles.lawful M ->
    (forall lat1 lon1 lat2 lon2 : float,
       Doubles.calculateDistance M lat1 lon1 lat2 lon2 =
       Doubles.calculateDistance M lat2 lon2 lat1 lon1 /\
       Doubles.equals (Doubles.calculateDistance M lat1 lon1 lat2 lon2)
         (Doubles.calculateDistance M lat2 lon2 lat1 lon1) =
       negb (is_nan (Doubles.calculateDistance M lat1 lon1 lat2 lon2))) /\
    (forall lat lon : float,
       (abs lat <=? 90) = true -> is_finite lon = true ->
       Doubles.calculateDistance M lat lon lat lon = 0) /\
    (forall lat1 lon1 lat2 lon2 : float,
       (1 <? Doubles.haversine M lat1 lon1 lat2 lon2) = true ->
       Doubles.calculateDistance M lat1 lon1 lat2 lon2 = nan /\
       Doubles.equals (Doubles.calculateDistance M lat1 lon1 lat2 lon2)
         (Doubles.calculateDistance M lat2 lon2 lat1 lon1) = false) /\
    (Doubles.sin M 0x1.acee9f37bebd5p-3 = 0x1.a9cd9ac4258f5p-3 ->
     Doubles.sin M 0x1.921fb54442d18p+0 = 1 ->
     Doubles.cos M (- 0x1.acee9f37bebd5p-3) = 0x1.f4cfc327a008p-1 ->
     Doubles.cos M 0x1.acee9f37bebd5p-3 = 0x1.f4cfc327a008p-1 ->
     Doubles.haversine M (-12) (-180) 12 0 = 0x1.0000000000001p+0 /\
     Doubles.calculateDistance M (-12) (-180) 12 0 = nan /\
     Doubles.equals (Doubles.calculateDistance M (-12) (-180) 12 0)
       (Doubles.calculateDistance M 12 0 (-12) (-180)) = false) /\
    (forall lat1 lon1 lat2 lon2 : float,
       is_finite lat1 && is_finite lon1 && is_finite lat2 && is_finite lon2
         = false ->
       Doubles.calculateDistance M lat1 lon1 lat2 lon2 = nan) /\
    Doubles.calculateDistance M infinity 31 infinity 31 = nan /\
    Doubles.equals (Doubles.calculateDistance M infinity 31 infinity 31) 0
      = false.
Proof.
  intros M HM.
  assert (Hover : forall lat1 lon1 lat2 lon2 : float,
             (1 <? Doubles.haversine M lat1 lon1 lat2 lon2) = true ->
             Doubles.calculateDistance M lat1 lon1 lat2 lon2 = nan /\
             Doubles.equals (Doubles.calculateDistance M lat1 lon1 lat2 lon2)
               (Doubles.calculateDistance M lat2 lon2 lat1 lon1) = false).
  { intros lat1 lon1 lat2 lon2 H.
    pose proof (distance_above_one M HM lat1 lon1 lat2 lon2 H) as Hn.
    split; [exact Hn|].
    rewrite <- (distance_swap M HM lat1 lon1 lat2 lon2), Hn. reflexivity. }
  assert (Hinf : Doubles.calculateDistance M infinity 31 infinity 31 = nan)
    by (apply (distance_not_finite M HM); reflexivity).
  split; [|split; [|split; [|split; [|split; [|split]]]]].
  - intros lat1 lon1 lat2 lon2.
    split; [apply (distance_swap M HM)|].
    rewrite <- (distance_swap M HM lat1 lon1 lat2 lon2).
    unfold Doubles.equals, is_nan. symmetry. apply negb_involutive.
  - apply (distance_same_point M HM).
  - exact Hover.
  - intros Hs1 Hs2 Hc1 Hc2.
    pose proof (antipodal_term M Hs1 Hs2 Hc1 Hc2) as Ha.
    split; [exact Ha|]. apply Hover. rewrite Ha. reflexivity.
  - apply (distance_not_finite M HM).
  - exact Hinf.
  - rewrite Hinf. reflexivity.
Qed.

(** The requirements of [Doubles.lawful] can be met: with the small-angle
    implementation the distance from (30, 31) to itself is 0, the two
    directions between (30, 31) and (30.5, 31) agree, and a requester at
    latitude [Infinity] is at no distance from (30, 31). *)
Lemma calculateDistance_not_a_number_witness :
  Doubles.lawful Doubles.smallAngle /\
  Doubles.calculateDistance Doubles.smallAngle 30 31 30 31 = 0 /\
  Doubles.calculateDistance Doubles.smallAngle 30 31 0x1.e8p+4 31 =
  Doubles.calculateDistance Doubles.smallAngle 0x1.e8p+4 31 30 31 /\
  Doubles.calculateDistance Doubles.smallAngle infinity 31 30 31 = nan.
Proof.
  split; [exact smallAngle_lawful|].
  destruct (calculateDistance_not_a_number Doubles.smallAngle smallAngle_lawful)
    as (Hsym & Hzero & _ & _ & Hnf & _ & _).
  split; [apply Hzero; reflexivity|].
  split; [apply Hsym|]. apply Hnf. reflexivity.
Defined.

End DistanceOnDoubles.

(** ** The distance annotation *)

Lemma toFixed2_spec (d : R) :
  (exists n : Z, Geo.toFixed2 d = IZR n / 100 /\
                 IZR n - / 2 <= d * 100 < IZR n + / 2)%R.
Proof.
  unfold Geo.toFixed2. exists (Int_part (d * 100 + / 2)).
  split; [reflexivity|].
  pose proof (base_Int_part (d * 100 + / 2)) as [H1 H2]. lra.
Qed.

Lemma annotate_distance (userLat userLon : R) (m : Mongo.medicine) :
  distance (Search.annotate userLat userLon m) =
  match Mongo.ownerLocation m with
  | Some loc =>
      let d := Geo.calculateDistance userLat userLon
                 (Geo.latitude loc) (Geo.longitude loc) in
      if Req_dec_T d 0 then None else Some (Geo.toFixed2 d)
  | None => None
  end.
Proof.
  unfold Search.annotate, Mongo.ownerLocation.
  destruct (Mongo.pharmacyId m) as [[n [loc|]]|]; reflexivity.
Qed.

(** C5 (the code departs from the claim).  A medicine whose owner is
    located exactly where the requester is has a location, and a computed
    distance of 0; the truthiness test of the annotation turns that
    distance into [null]. *)
Theorem zero_distance_annotated_null :
  let m := Sample.medOf "X" (Some (Geo.Coords 30 31)) in
  Mongo.ownerLocation m = Some (Geo.Coords 30 31) /\
  Geo.calculateDistance 30 31 30 31 = 0%R /\
  distance (Search.annotate 30 31 m) = None.
Proof.
  split; [reflexivity|]. split; [apply calculateDistance_same|].
  rewrite annotate_distance. simpl.
  destruct (Req_dec_T _ _) as [_|Hn]; [reflexivity|].
  exfalso. apply Hn, calculateDistance_same.
Qed.

(** ** The pattern matcher *)

Module RegExpFacts.
Import RegExp.

Lemma nullable_lang (r : re) : nullable r = true <-> lang r [].
Proof.
  split.
  - induction r; simpl; intros H; try discriminate.
    + constructor.
    + apply andb_prop in H as [H1 H2].
      change (@nil ascii) with (@nil ascii ++ []). constructor; auto.
    + apply orb_prop in H as [H|H]; [apply lang_alt_l|apply lang_alt_r]; auto.
    + constructor.
  - intros H. remember [] as w eqn:Hw.
    induction H; simpl; try discriminate; try reflexivity.
    + apply app_eq_nil in Hw as [-> ->].
      rewrite IHlang1, IHlang2; reflexivity.
    + rewrite IHlang; auto.
    + rewrite IHlang; auto. apply orb_true_r.
Qed.

Lemma deriv_sound (a : ascii) (r : re) (s : list ascii) :
  lang (deriv a r) s -> lang r (a :: s).
Proof.
  revert s. induction r; simpl; intros s H.
  - inversion H.
  - destruct (Ascii.eqb_spec (canon a) (canon c)); inversion H; subst.
    constructor. assumption.
  - destruct (is_line_terminator a) eqn:Ha; inversion H; subst.
    constructor. assumption.
  - destruct (nullable r1) eqn:Hn.
    + inversion H; subst.
      * match goal with Hc : lang (Cat _ _) _ |- _ => inversion Hc; subst end.
        change (a :: u ++ v) with ((a :: u) ++ v). constructor; auto.
      * change (a :: s) with ([] ++ a :: s). constructor; auto.
        apply nullable_lang, Hn.
    + inversion H; subst.
      change (a :: u ++ v) with ((a :: u) ++ v). constructor; auto.
  - inversion H; subst; [apply lang_alt_l|apply lang_alt_r]; auto.
  - inversion H; subst.
    change (a :: u ++ v) with ((a :: u) ++ v). constructor; auto.
  - inversion H.
Qed.

Lemma deriv_complete (a : ascii) (r : re) (s : list ascii) :
  lang r (a :: s) -> lang (deriv a r) s.
Proof.
  intros H. remember (a :: s) as w eqn:Hw. revert s Hw.
  induction H; intros t Hw; simpl; try discriminate.
  - injection Hw as -> <-.
    rewrite H, Ascii.eqb_refl. constructor.
  - injection Hw as -> <-. rewrite H. constructor.
  - destruct u as [|b u]; simpl in Hw.
    + subst v. apply nullable_lang in H. rewrite H.
      apply lang_alt_r. auto.
    + injection Hw as -> <-.
      destruct (nullable r).
      * apply lang_alt_l. constructor; auto.
      * constructor; auto.
  - apply lang_alt_l. auto.
  - apply lang_alt_r. auto.
  - destruct u as [|b u]; simpl in Hw.
    + subst v. apply (IHlang2 t eq_refl).
    + injection Hw as -> <-. constructor; auto.
Qed.

Lemma match_prefix_spec (r : re) (s : list ascii) :
  match_prefix r s = true <-> exists u v, s = u ++ v /\ lang r u.
Proof.
  revert r. induction s as [|a s IH]; intros r; simpl.
  - rewrite orb_false_r, nullable_lang. split.
    + intros H. exists [], []. auto.
    + intros (u & v & Huv & H). symmetry in Huv.
      apply app_eq_nil in Huv as [-> _]. exact H.
  - rewrite orb_true_iff, nullable_lang, IH. split.
    + intros [H|(u & v & -> & H)].
      * exists [], (a :: s). auto.
      * exists (a :: u), v. split; [reflexivity|]. apply deriv_sound, H.
    + intros (u & v & Huv & H). destruct u as [|b u]; simpl in Huv.
      * left. exact H.
      * injection Huv as <- ->. right. exists u, v.
        split; [reflexivity|]. apply deriv_complete, H.
Qed.

Lemma search_spec (r : re) (s : list ascii) :
  search r s = true <->
  exists pre mid post, s = pre ++ mid ++ post /\ lang r mid.
Proof.
  induction s as [|a s IH]; cbn [search].
  - rewrite orb_false_r, match_prefix_spec. split.
    + intros (u & v & Huv & H). exists [], u, v. auto.
    + intros (pre & mid & post & Hs & H). symmetry in Hs.
      apply app_eq_nil in Hs as [-> Hs]. exists mid, post. auto.
  - rewrite orb_true_iff, match_prefix_spec, IH. split.
    + intros [(u & v & Huv & H)|(pre & mid & post & -> & H)].
      * exists [], u, v. auto.
      * exists (a :: pre), mid, post. auto.
    + intros (pre & mid & post & Hs & H). destruct pre as [|b pre]; simpl in Hs.
      * left. exists mid, post. auto.
      * injection Hs as <- ->. right. exists pre, mid, post. auto.
Qed.

(** A character without pattern meaning is read as itself. *)
Lemma parse_plain_step (c : ascii) (rest : list ascii) (cur : frame)
    (stk : list frame) :
  is_syntax_char c = false ->
  parse (c :: rest) cur stk = parse rest (push_atom (Chr c) cur) stk.
Proof.
  intros H. pose proof H as H'.
  unfold is_syntax_char in H. cbn [existsb] in H.
  repeat (apply orb_false_elim in H as [? H]).
  cbn [parse]. unfold is_quantifier.
  repeat match goal with
         | Hx : Ascii.eqb c _ = false |- _ => rewrite ?Hx; clear Hx
         end.
  cbn [orb]. rewrite H'. reflexivity.
Qed.

Lemma parse_plain (t : list ascii) (cur : frame) :
  forallb (fun c => negb (is_syntax_char c)) t = true ->
  parse t cur [] =
  Compiled (close (fold_left (fun f c => push_atom (Chr c) f) t cur)).
Proof.
  revert cur. induction t as [|c t IH]; intros cur H; [reflexivity|].
  cbn [forallb] in H. apply andb_prop in H as [Hc Ht].
  apply negb_true_iff in Hc.
  rewrite parse_plain_step by exact Hc. cbn [fold_left]. apply IH, Ht.
Qed.

Lemma literal_alt (t : list ascii) (cur : frame) :
  f_alt (fold_left (fun f c => push_atom (Chr c) f) t cur) = f_alt cur.
Proof.
  revert cur. induction t as [|c t IH]; intros cur; [reflexivity|].
  cbn [fold_left]. rewrite IH. reflexivity.
Qed.

Lemma lang_cat_chr (r : re) (c : ascii) (w : list ascii) :
  lang (Cat r (Chr c)) w <->
  exists u a, w = u ++ [a] /\ lang r u /\ canon a = canon c.
Proof.
  split.
  - intros H. inversion H; subst.
    match goal with Hc : lang (Chr _) _ |- _ => inversion Hc; subst end.
    eauto.
  - intros (u & a & -> & Hu & Ha). constructor; [exact Hu|].
    constructor. exact Ha.
Qed.

Lemma lang_literal (t : list ascii) (cur : frame) (w : list ascii) :
  lang (flush (fold_left (fun f c => push_atom (Chr c) f) t cur)) w <->
  exists u v, w = u ++ v /\ lang (flush cur) u /\ fold_case v = fold_case t.
Proof.
  revert cur. induction t as [|c t IH]; intros cur; cbn [fold_left].
  - split.
    + intros H. exists w, []. rewrite app_nil_r. auto.
    + intros (u & v & -> & Hu & Hv). apply map_eq_nil in Hv as ->.
      rewrite app_nil_r. exact Hu.
  - rewrite IH. change (flush (push_atom (Chr c) cur))
      with (Cat (flush cur) (Chr c)).
    split.
    + intros (u & v & -> & Hu & Hv).
      apply lang_cat_chr in Hu as (u1 & a & -> & Hu1 & Ha).
      exists u1, (a :: v). rewrite <- app_assoc. split; [reflexivity|].
      split; [exact Hu1|]. unfold fold_case in *. simpl. congruence.
    + intros (u & v & -> & Hu & Hv).
      destruct v as [|a v]; [discriminate|].
      unfold fold_case in Hv. simpl in Hv. injection Hv as Ha Hv.
      exists (u ++ [a]), v. rewrite <- app_assoc. split; [reflexivity|].
      split; [|exact Hv]. apply lang_cat_chr. eauto.
Qed.

(** A term without syntax characters compiles, to a pattern that matches
    exactly the texts equal to the term up to letter case. *)
Lemma compile_plain (term : string) :
  plain term = true ->
  exists r, compile term = Compiled r /\
            forall w, lang r w <->
                      fold_case w = fold_case (list_ascii_of_string term).
Proof.
  intros Hp. unfold compile. rewrite (parse_plain _ _ Hp).
  eexists. split; [reflexivity|]. intros w.
  unfold close. rewrite literal_alt. cbn [f_alt empty_frame].
  rewrite lang_literal. cbn [flush empty_frame f_last f_seq]. split.
  - intros (u & v & -> & Hu & Hv). inversion Hu; subst. exact Hv.
  - intros H. exists [], w. split; [reflexivity|]. split; [constructor|exact H].
Qed.

Lemma test_spec (r : re) (s : string) :
  test r s = true <->
  exists pre mid post,
    list_ascii_of_string s = pre ++ mid ++ post /\ lang r mid.
Proof. unfold test. apply search_spec. Qed.

Lemma test_plain (term : string) :
  plain term = true ->
  exists r, compile term = Compiled r /\
            forall s, test r s = true <-> ci_includes s term.
Proof.
  intros Hp. destruct (compile_plain term Hp) as (r & Hc & Hl).
  exists r. split; [exact Hc|]. intros s. rewrite test_spec.
  unfold ci_includes. split.
  - intros (pre & mid & post & Hs & Hm). exists pre, mid, post.
    split; [exact Hs|]. apply Hl, Hm.
  - intros (pre & mid & post & Hs & Hm). exists pre, mid, post.
    split; [exact Hs|]. apply Hl, Hm.
Qed.

(** A text cannot include a longer one. *)
Lemma ci_includes_length (s term : string) :
  ci_includes s term -> (String.length term <= String.length s)%nat.
Proof.
  intros (pre & mid & post & Hs & Hm).
  apply (f_equal (@length ascii)) in Hs, Hm.
  unfold fold_case in Hm. rewrite !length_map in Hm.
  rewrite !length_app in Hs.
  assert (Hlen : forall x, length (list_ascii_of_string x) = String.length x).
  { induction x; simpl; congruence. }
  rewrite !Hlen in *. lia.
Qed.

End RegExpFacts.

(** ** Trimming and blank search terms *)

Lemma trimStart_blank (s : string) :
  forallb JS.is_ws (list_ascii_of_string s) = true -> JS.trimStart s = ""%string.
Proof.
  induction s as [|c s IH]; simpl; [reflexivity|].
  intros H. apply andb_prop in H as [Hc Hs]. rewrite Hc. auto.
Qed.

Lemma trimStart_head (s : string) :
  JS.trimStart s = ""%string \/
  exists c r, JS.trimStart s = String c r /\ JS.is_ws c = false.
Proof.
  induction s as [|c s IH]; simpl; [auto|].
  destruct (JS.is_ws c) eqn:Hc; [exact IH|]. right. eauto.
Qed.

Lemma trimStart_nil_blank (s : string) :
  JS.trimStart s = ""%string -> forallb JS.is_ws (list_ascii_of_string s) = true.
Proof.
  induction s as [|c s IH]; simpl; [reflexivity|].
  destruct (JS.is_ws c); [auto|discriminate].
Qed.

Lemma str_rev_chars (s : string) :
  list_ascii_of_string (JS.str_rev s) = rev (list_ascii_of_string s).
Proof. unfold JS.str_rev. apply list_ascii_of_string_of_list_ascii. Qed.

Lemma str_rev_nil (s : string) : JS.str_rev s = ""%string -> s = ""%string.
Proof.
  intros H. apply (f_equal list_ascii_of_string) in H.
  rewrite str_rev_chars in H. simpl in H.
  destruct s as [|c s]; [reflexivity|]. simpl in H.
  destruct (rev (list_ascii_of_string s)); discriminate.
Qed.

Lemma forallb_rev {A : Type} (f : A -> bool) (l : list A) :
  forallb f (rev l) = forallb f l.
Proof.
  induction l as [|x l IH]; simpl; [reflexivity|].
  rewrite forallb_app, IH. simpl. rewrite andb_true_r. apply andb_comm.
Qed.

Lemma trim_empty_iff (s : string) :
  JS.trim s = ""%string <-> forallb JS.is_ws (list_ascii_of_string s) = true.
Proof.
  unfold JS.trim, JS.trimEnd. split.
  - intros H. apply str_rev_nil, trimStart_nil_blank in H.
    rewrite str_rev_chars, forallb_rev in H.
    destruct (trimStart_head s) as [Hs|(c & r & Hs & Hc)].
    + apply trimStart_nil_blank, Hs.
    + rewrite Hs in H. simpl in H. rewrite Hc in H. discriminate.
  - intros H. rewrite (trimStart_blank s H). reflexivity.
Qed.

Lemma searchTerm_blank (search : option string) :
  Search.blank search = true -> Search.searchTerm search = None.
Proof.
  destruct search as [s|]; simpl; [|reflexivity].
  intros H. apply trim_empty_iff in H. rewrite H. simpl.
  rewrite andb_false_r. reflexivity.
Qed.

Lemma searchTerm_not_blank (s : string) :
  Search.blank (Some s) = false -> Search.searchTerm (Some s) = Some (JS.trim s).
Proof.
  simpl. intros H.
  assert (Hs : JS.truthy_str s = true) by (destruct s; [discriminate|reflexivity]).
  assert (Ht : JS.truthy_str (JS.trim s) = true).
  { destruct (JS.trim s) eqn:E; [|reflexivity].
    apply trim_empty_iff in E. congruence. }
  rewrite Hs, Ht. reflexivity.
Qed.

(** ** The search predicate and the composed filter *)

Lemma orClause_holds (k : string) (r : RegExp.re) (m : Mongo.medicine) :
  Mongo.cond_holds k (Search.orClause r) m =
  RegExp.test r (Mongo.name m) || RegExp.test r (Mongo.description m).
Proof.
  unfold Search.orClause, Mongo.cond_holds, Mongo.obj_holds, Mongo.field_holds.
  cbn -[RegExp.test]. rewrite orb_false_r, !andb_true_r. reflexivity.
Qed.

Lemma matches_insert (f : gmap string Mongo.cond) (k : string) (c : Mongo.cond)
    (m : Mongo.medicine) :
  f !! k = None ->
  Mongo.matches (<[k := c]> f) m = Mongo.cond_holds k c m && Mongo.matches f m.
Proof.
  intros Hk. unfold Mongo.matches.
  apply eq_true_iff_eq.
  rewrite andb_true_iff, !bool_decide_eq_true.
  apply (map_Forall_insert (fun k c => Mongo.cond_holds k c m = true)).
  exact Hk.
Qed.

Lemma plain_term_holds (search : option string) (term : string) :
  Search.searchTerm search = Some term ->
  RegExp.plain term = true ->
  exists searchRegex : RegExp.re,
    (forall filter : gmap string Mongo.cond,
       Search.compose filter search =
       Next (<["$or"%string := Search.orClause searchRegex]> filter)) /\
    (forall m : Mongo.medicine,
       Mongo.cond_holds "$or" (Search.orClause searchRegex) m = true <->
       RegExp.ci_includes (Mongo.name m) term \/
       RegExp.ci_includes (Mongo.description m) term).
Proof.
  intros Hs Hp.
  destruct (RegExpFacts.test_plain term Hp) as (r & Hc & Ht).
  exists r. split.
  - intros filter. unfold Search.compose. rewrite Hs, Hc. reflexivity.
  - intros m. rewrite orClause_holds, orb_true_iff, !Ht. reflexivity.
Qed.

(** A search term without pattern syntax characters compiles, and the
    search predicate it yields holds exactly of the medicines whose name or
    description contains the term as a literal substring, letter case
    apart. *)
Lemma plain_term_matches_as_substring :
  forall (search : option string) (term : string),
    Search.searchTerm search = Some term ->
    RegExp.plain term = true ->
    exists searchRegex : RegExp.re,
      RegExp.compile term = RegExp.Compiled searchRegex /\
      (forall filter : gmap string Mongo.cond,
         Search.compose filter search =
         Next (<["$or"%string := Search.orClause searchRegex]> filter)) /\
      (forall m : Mongo.medicine,
         Mongo.cond_holds "$or" (Search.orClause searchRegex) m = true <->
         RegExp.ci_includes (Mongo.name m) term \/
         RegExp.ci_includes (Mongo.description m) term).
Proof.
  intros search term Hs Hp.
  destruct (RegExpFacts.test_plain term Hp) as (r & Hc & Ht).
  exists r. split; [exact Hc|]. split.
  - intros filter. unfold Search.compose. rewrite Hs, Hc. reflexivity.
  - intros m. rewrite orClause_holds, orb_true_iff, !Ht. reflexivity.
Qed.

Lemma plain_term_matches_as_substring_witness :
  Search.searchTerm (Some " Aspirin "%string) = Some "Aspirin"%string /\
  RegExp.plain "Aspirin" = true /\
  exists searchRegex : RegExp.re,
    RegExp.compile "Aspirin" = RegExp.Compiled searchRegex /\
    (forall filter : gmap string Mongo.cond,
       Search.compose filter (Some " Aspirin "%string) =
       Next (<["$or"%string := Search.orClause searchRegex]> filter)) /\
    (forall m : Mongo.medicine,
       Mongo.cond_holds "$or" (Search.orClause searchRegex) m = true <->
       RegExp.ci_includes (Mongo.name m) "Aspirin" \/
       RegExp.ci_includes (Mongo.description m) "Aspirin").
Proof.
  split; [reflexivity|]. split; [reflexivity|].
  apply (plain_term_matches_as_substring (Some " Aspirin "%string) "Aspirin");
    reflexivity.
Defined.

(** C3 (the code departs from the claim).  The search term is compiled as
    it is given, [new RegExp(req.query.search.trim(), 'i')], without
    escaping.  The term ["A+B (test)"] is therefore the pattern it spells:
    it matches the name ["AAB test"], which does not contain the term, and
    not the name ["A+B (test)"] itself, so the listing finds the wrong
    medicine; the unclosed group of ["(test"] makes the constructor throw,
    and the request fails. *)
Theorem special_term_keeps_pattern_meaning :
  (exists searchRegex,
     RegExp.compile "A+B (test)" = RegExp.Compiled searchRegex /\
     RegExp.test searchRegex "AAB test" = true /\
     ~ RegExp.ci_includes "AAB test" "A+B (test)" /\
     RegExp.test searchRegex "A+B (test)" = false) /\
  (exists filter,
     Search.compose Controller.activeOnly (Some "A+B (test)"%string)
       = Next filter /\
     Mongo.matches filter (Sample.med "1" "AAB test" 1) = true /\
     ~ RegExp.ci_includes (Mongo.name (Sample.med "1" "AAB test" 1)) "A+B (test)" /\
     ~ RegExp.ci_includes (Mongo.description (Sample.med "1" "AAB test" 1))
         "A+B (test)" /\
     Mongo.matches filter (Sample.med "2" "A+B (test)" 2) = false) /\
  RegExp.compile "(test" = RegExp.SyntaxError /\
  Routes.getMedicines Sample.zincAspirin
    (Routes.incoming (Sample.searchFor "(test") None) = NextErr.
Proof.
  assert (Hlen : forall s, (String.length s < 10)%nat ->
                           ~ RegExp.ci_includes s "A+B (test)").
  { intros s Hs Hi. apply RegExpFacts.ci_includes_length in Hi.
    simpl in Hi. lia. }
  split; [|split; [|split]].
  - eexists. split; [vm_compute; reflexivity|].
    split; [vm_compute; reflexivity|].
    split; [apply Hlen; simpl; lia|vm_compute; reflexivity].
  - eexists. split; [vm_compute; reflexivity|].
    split; [vm_compute; reflexivity|].
    split; [apply Hlen; simpl; lia|].
    split; [apply Hlen; simpl; lia|vm_compute; reflexivity].
  - vm_compute; reflexivity.
  - vm_compute; reflexivity.
Qed.

(** Where the composed filter is the conjunction with a substring test:
    for an absent, empty or white-space search parameter the composed
    filter is the base filter, and for a parameter whose trimmed text has
    no pattern syntax characters, over a base filter without an [$or] key,
    it holds of exactly the medicines that meet the base filter and contain
    the trimmed text, letter case apart, in their name or in their
    description. *)
Lemma compose_filter_semantics :
  forall (baseFilter : gmap string Mongo.cond) (search : option string),
    (Search.blank search = true ->
     Search.compose baseFilter search = Next baseFilter) /\
    (forall s : string,
       search = Some s ->
       Search.blank search = false ->
       RegExp.plain (JS.trim s) = true ->
       baseFilter !! "$or"%string = None ->
       exists filter : gmap string Mongo.cond,
         Search.compose baseFilter search = Next filter /\
         forall m : Mongo.medicine,
           Mongo.matches filter m = true <->
           Mongo.matches baseFilter m = true /\
           (RegExp.ci_includes (Mongo.name m) (JS.trim s) \/
            RegExp.ci_includes (Mongo.description m) (JS.trim s))).
Proof.
  intros baseFilter search. split.
  - intros Hb. apply compose_no_term, searchTerm_blank, Hb.
  - intros s -> Hb Hp Hor.
    apply searchTerm_not_blank in Hb.
    destruct (plain_term_holds (Some s) (JS.trim s) Hb Hp) as (r & Hc & Hm).
    exists (<["$or"%string := Search.orClause r]> baseFilter).
    split; [apply Hc|].
    intros m. rewrite matches_insert by exact Hor.
    rewrite andb_true_iff, Hm. tauto.
Qed.

Lemma compose_filter_semantics_witness :
  (Search.blank (Some "   "%string) = true /\
   Search.compose Controller.activeOnly (Some "   "%string)
     = Next Controller.activeOnly) /\
  (Search.blank (Some " Aspirin "%string) = false /\
   RegExp.plain (JS.trim " Aspirin ") = true /\
   Controller.activeOnly !! "$or"%string = None /\
   exists filter : gmap string Mongo.cond,
     Search.compose Controller.activeOnly (Some " Aspirin "%string)
       = Next filter /\
     forall m : Mongo.medicine,
       Mongo.matches filter m = true <->
       Mongo.matches Controller.activeOnly m = true /\
       (RegExp.ci_includes (Mongo.name m) (JS.trim " Aspirin ") \/
        RegExp.ci_includes (Mongo.description m) (JS.trim " Aspirin "))).
Proof.
  split.
  - split; [reflexivity|].
    apply (proj1 (compose_filter_semantics Controller.activeOnly
                    (Some "   "%string))).
    reflexivity.
  - split; [reflexivity|]. split; [reflexivity|]. split; [reflexivity|].
    apply (proj2 (compose_filter_semantics Controller.activeOnly
                    (Some " Aspirin "%string)) " Aspirin "%string);
      reflexivity.
Defined.

(** C7 (the code departs from the claim).  The predicate that the filter
    composition adds to the base filter is the match of the search term
    taken as a pattern, the term being compiled without escaping; it is a
    substring test only for terms without pattern syntax.  Over the base
    filter of the public listing, [{ isActive: true }]: for ["asp.*rin"] the
    composed filter holds of the active medicine named ["Aspirin"], whose
    name and description do not contain that text, and the route lists it;
    for ["(test"] no filter is composed at all, the request fails. *)
Theorem compose_applies_raw_pattern :
  let aspirin := Sample.med "2" "Aspirin" 2 in
  (exists filter,
     Search.compose Controller.activeOnly (Some "asp.*rin"%string)
       = Next filter /\
     Mongo.matches filter aspirin = true /\
     ~ RegExp.ci_includes (Mongo.name aspirin) "asp.*rin" /\
     ~ RegExp.ci_includes (Mongo.description aspirin) "asp.*rin") /\
  Routes.getMedicines [aspirin] (Routes.incoming (Sample.searchFor "asp.*rin") None)
    = Next (Body 1 [Plain aspirin] (Some (Pagination 1 1 1 10 false false))) /\
  Search.blank (Some "(test"%string) = false /\
  Search.compose Controller.activeOnly (Some "(test"%string) = NextErr /\
  Routes.getMedicines [aspirin] (Routes.incoming (Sample.searchFor "(test") None)
    = NextErr.
Proof.
  assert (Hlen : forall s, (String.length s < 8)%nat ->
                           ~ RegExp.ci_includes s "asp.*rin").
  { intros s Hs Hi. apply RegExpFacts.ci_includes_length in Hi.
    simpl in Hi. lia. }
  intros aspirin. split; [|split; [|split; [|split]]].
  - eexists. split; [vm_compute; reflexivity|].
    split; [vm_compute; reflexivity|].
    split; apply Hlen; simpl; lia.
  - vm_compute; reflexivity.
  - reflexivity.
  - vm_compute; reflexivity.
  - vm_compute; reflexivity.
Qed.

(** ** Paging parameters never fail a listing *)

Lemma paginate_in_memory_total (model : list Mongo.medicine) (req : request)
    (results : list listed) :
  searchResults req = Some results ->
  exists req', Paginate.paginate model req = Next req'.
Proof.
  intros H. unfold Paginate.paginate. rewrite H. simpl. eauto.
Qed.

(** Once the filter is composed, a listing route answers, whatever the
    page and limit parameters are. *)
Lemma listing_total_in_paging (base fallback : gmap string Mongo.cond)
    (model : list Mongo.medicine) (q : query) (u : option user)
    (f : gmap string Mongo.cond) :
  Search.compose base (Http.search q) = Next f ->
  exists b,
    Routes.listing base (Controller.listBody fallback) model
      (Routes.incoming q u) = Next b.
Proof.
  intros Hc. unfold Routes.listing, Search.search. simpl. rewrite Hc.
  assert (He : exists data,
             Mongo.exec model
               (if is_Some_dec (Search.searchTerm (search q))
                then Mongo.find f
                else if Search.nonEmpty f then Mongo.find f
                else Mongo.find base) = Some data).
  { destruct (is_Some_dec _); [eexists; apply exec_find|].
    destruct (Search.nonEmpty f); eexists; apply exec_find. }
  destruct He as [data ->]. simpl. eauto.
Qed.

(** The body of a listing, once the filter is composed. *)
Lemma listing_body (base fallback : gmap string Mongo.cond)
    (model : list Mongo.medicine) (q : query) (u : option user)
    (f : gmap string Mongo.cond) :
  Search.compose base (Http.search q) = Next f ->
  Routes.listing base (Controller.listBody fallback) model (Routes.incoming q u) =
  let results := Routes.materialised model f (Routes.incoming q u) in
  let skip := (Paginate.pageOf q - 1) * Paginate.limitOf q in
  let data := JS.slice results skip (skip + Paginate.limitOf q) in
  Next (Body (Z.of_nat (length data)) data
          (Some (Paginate.metadata (Paginate.pageOf q) (Paginate.limitOf q)
                   (Z.of_nat (length results))))).
Proof.
  intros Hc.
  destruct (listing_total_in_paging base fallback model q u f Hc) as [b Hb].
  rewrite Hb.
  apply listing_slices_in_memory in Hb as (f' & Hc' & Hm & Hn & Hp).
  rewrite Hc in Hc'. injection Hc' as <-.
  destruct b as [c m p]. simpl in *. subst. reflexivity.
Qed.

(* ===================================================================== *)
(** * Further properties of the pipeline                                  *)
(* ===================================================================== *)

(** ** Pages of the in-memory branch *)

Lemma slice_forward {A : Type} (l : list A) (skip limit : Z) :
  0 <= skip -> 0 <= limit ->
  JS.slice l skip (skip + limit) = take (Z.to_nat limit) (drop (Z.to_nat skip) l).
Proof.
  intros Hs Hl. unfold JS.slice, JS.rel_index.
  destruct (Z.ltb_spec skip 0); [lia|].
  destruct (Z.ltb_spec (skip + limit) 0); [lia|].
  destruct (Z_le_gt_dec (Z.of_nat (length l)) skip) as [Hge|Hlt].
  - rewrite !drop_ge by lia. now rewrite !take_nil.
  - rewrite (Z.min_l skip) by lia.
    destruct (Z_le_gt_dec (skip + limit) (Z.of_nat (length l))).
    + rewrite Z.min_l by lia. f_equal. lia.
    + rewrite Z.min_r by lia.
      rewrite !take_ge; [reflexivity|rewrite length_drop; lia..].
Qed.

Lemma pageData_forward (results : list listed) (page limit : Z) :
  1 <= page -> 1 <= limit ->
  Paging.pageData results page limit =
  take (Z.to_nat limit) (drop (Z.to_nat ((page - 1) * limit)) results).
Proof.
  intros Hp Hl. unfold Paging.pageData, Paginate.strategyB. simpl.
  apply slice_forward; nia.
Qed.

(** X1.  For a page and a page size of at least 1 whose product is a safe
    integer (so that [skip] and [skip + limit] are computed exactly) the
    stored page is the run of [limit] items after the first
    [(page - 1) * limit] ones, cut at the end of the list; it is empty
    exactly when the page lies beyond [totalPages], the value the metadata
    reports. *)
Theorem in_memory_page :
  forall (results : list listed) (page limit : Z),
    1 <= page -> 1 <= limit ->
    page * limit <= JS.MAX_SAFE_INTEGER ->
    let total := Z.of_nat (length results) in
    Paging.pageData results page limit =
      take (Z.to_nat limit) (drop (Z.to_nat ((page - 1) * limit)) results) /\
    Z.of_nat (length (Paging.pageData results page limit)) =
      Z.min limit (Z.max 0 (total - (page - 1) * limit)) /\
    (Paging.pageData results page limit = [] <->
     totalPages (Paginate.metadata page limit total) < page).
Proof.
  intros results page limit Hp Hl _ total.
  pose proof (pageData_forward results page limit Hp Hl) as Hd.
  split; [exact Hd|].
  assert (Hlen : Z.of_nat (length (Paging.pageData results page limit)) =
                 Z.min limit (Z.max 0 (total - (page - 1) * limit))).
  { rewrite Hd, length_take, length_drop. subst total. nia. }
  split; [exact Hlen|].
  pose proof (ceil_div_bounds total limit Hl) as Hc.
  simpl. rewrite <- length_zero_iff_nil. split.
  - intros Hz. rewrite Hz in Hlen. simpl in Hlen. nia.
  - intros Hlt.
    assert (Z.of_nat (length (Paging.pageData results page limit)) = 0)
      by (rewrite Hlen; nia).
    lia.
Qed.

Lemma in_memory_page_witness :
  1 <= 2 /\ 1 <= 10 /\ 2 * 10 <= JS.MAX_SAFE_INTEGER /\
  Paging.pageData (map Plain Sample.twelve) 2 10 =
    take (Z.to_nat 10) (drop (Z.to_nat ((2 - 1) * 10)) (map Plain Sample.twelve)) /\
  Z.of_nat (length (Paging.pageData (map Plain Sample.twelve) 2 10)) =
    Z.min 10 (Z.max 0 (Z.of_nat (length (map Plain Sample.twelve)) - (2 - 1) * 10)) /\
  (Paging.pageData (map Plain Sample.twelve) 2 10 = [] <->
   totalPages (Paginate.metadata 2 10
                 (Z.of_nat (length (map Plain Sample.twelve)))) < 2).
Proof.
  split; [lia|]. split; [lia|]. split; [vm_compute; discriminate|].
  apply (in_memory_page (map Plain Sample.twelve) 2 10);
    [lia | lia | vm_compute; discriminate].
Defined.

Lemma concat_pages {A : Type} (l : list A) (k n : nat) :
  concat (map (fun i => take k (drop (i * k) l)) (seq 0 n)) = take (n * k) l.
Proof.
  induction n as [|n IH]; [reflexivity|].
  rewrite seq_S, map_app, concat_app, IH. simpl. rewrite app_nil_r.
  rewrite take_take_drop. f_equal. lia.
Qed.

(** X2.  For a page size of at least 1 that, added to the length of the
    list, stays a safe integer (so that every [skip] and [skip + limit] up
    to the last page is computed exactly), the pages [1 .. totalPages] of a
    list, one after the other, are the list: no item is lost or listed
    twice across the pages. *)
Theorem pages_partition :
  forall (results : list listed) (limit : Z),
    1 <= limit ->
    Z.of_nat (length results) + limit <= JS.MAX_SAFE_INTEGER ->
    let total := Z.of_nat (length results) in
    concat (map (fun page => Paging.pageData results page limit)
              (Paging.pageNumbers (JS.ceil_div total limit))) = results.
Proof.
  intros results limit Hl _ total.
  pose proof (ceil_div_bounds total limit Hl) as Hc.
  unfold Paging.pageNumbers. rewrite map_map.
  rewrite <- seq_shift, map_map.
  rewrite (map_ext_in _ (fun i => take (Z.to_nat limit)
                                   (drop (i * Z.to_nat limit) results))).
  - rewrite concat_pages. apply take_ge. subst total. nia.
  - intros i _.
    rewrite (pageData_forward results (Z.of_nat (S i)) limit) by lia.
    do 2 f_equal. nia.
Qed.

Lemma pages_partition_witness :
  1 <= 10 /\
  Z.of_nat (length (map Plain Sample.twelve)) + 10 <= JS.MAX_SAFE_INTEGER /\
  concat (map (fun page => Paging.pageData (map Plain Sample.twelve) page 10)
            (Paging.pageNumbers
               (JS.ceil_div (Z.of_nat (length (map Plain Sample.twelve))) 10)))
  = map Plain Sample.twelve.
Proof.
  split; [lia|]. split; [vm_compute; discriminate|].
  apply (pages_partition (map Plain Sample.twelve) 10);
    [lia | vm_compute; discriminate].
Defined.

(** What [paginate] stores on the in-memory branch. *)
Lemma paginate_in_memory (model : list Mongo.medicine) (q : query)
    (results : list listed) :
  Paginate.paginate model (Paging.searched q results) =
  Next (Request q None None (Some results)
          (Some (PageResult
                   (Paging.pageData results (Paginate.pageOf q) (Paginate.limitOf q))
                   (Paginate.metadata (Paginate.pageOf q) (Paginate.limitOf q)
                      (Z.of_nat (length results)))))).
Proof. reflexivity. Qed.

(** X3.  Whatever the page and the page size are (zero excluded by the
    defaults, but negative or huge), the stored page is one contiguous run
    of the materialised list: items are never invented, repeated or
    reordered by the slice. *)
Theorem page_is_segment :
  forall (results : list listed) (page limit : Z),
    exists before after : list listed,
      results = before ++ Paging.pageData results page limit ++ after.
Proof.
  intros results page limit.
  unfold Paging.pageData, Paginate.strategyB, JS.slice. simpl.
  set (n := Z.to_nat _). set (k := Z.to_nat _).
  exists (take k results), (drop n (drop k results)).
  rewrite (take_drop n), (take_drop k). reflexivity.
Qed.

(** X4.  A negative page size is taken as it is ([limit=-3]): on page 1 the
    slice ends [|limit|] items before the end of the list, so all but the
    last [|limit|] items are listed; every later page is empty; and the
    metadata reports a [totalPages] of at most 0 and no next page. *)
Theorem negative_limit_page :
  forall (results : list listed) (page limit : Z),
    limit < 0 -> 1 <= page ->
    let total := Z.of_nat (length results) in
    (page = 1 ->
     Paging.pageData results page limit = take (Z.to_nat (total + limit)) results) /\
    (2 <= page -> Paging.pageData results page limit = []) /\
    totalPages (Paginate.metadata page limit total) <= 0 /\
    hasNextPage (Paginate.metadata page limit total) = false.
Proof.
  intros results page limit Hl Hp total.
  assert (Ht : JS.ceil_div total limit <= 0).
  { unfold JS.ceil_div.
    assert (0 <= - total / limit); [|lia].
    replace limit with (- - limit) by lia.
    rewrite Z.div_opp_opp by lia.
    apply Z.div_pos; subst total; lia. }
  split; [|split; [|split]].
  - intros ->. unfold Paging.pageData, Paginate.strategyB, JS.slice, JS.rel_index.
    cbn [fst]. replace ((1 - 1) * limit) with 0 by lia.
    replace (0 + limit) with limit by lia.
    destruct (Z.ltb_spec limit 0); [|lia].
    destruct (Z.ltb_spec 0 0); [lia|].
    rewrite Z.min_l by lia. cbn [Z.to_nat drop]. f_equal. subst total. lia.
  - intros Hp2. unfold Paging.pageData, Paginate.strategyB, JS.slice, JS.rel_index.
    cbn [fst].
    destruct (Z.ltb_spec ((page - 1) * limit) 0); [|nia].
    destruct (Z.ltb_spec ((page - 1) * limit + limit) 0); [|nia].
    replace (Z.to_nat _) with 0%nat by lia. reflexivity.
  - exact Ht.
  - simpl. apply Z.ltb_ge. lia.
Qed.

Lemma negative_limit_page_witness :
  -3 < 0 /\ 1 <= 1 /\
  (1 = 1 ->
   Paging.pageData (map Plain Sample.twelve) 1 (-3) =
   take (Z.to_nat (Z.of_nat (length (map Plain Sample.twelve)) + -3))
     (map Plain Sample.twelve)) /\
  (2 <= 1 -> Paging.pageData (map Plain Sample.twelve) 1 (-3) = []) /\
  totalPages (Paginate.metadata 1 (-3)
                (Z.of_nat (length (map Plain Sample.twelve)))) <= 0 /\
  hasNextPage (Paginate.metadata 1 (-3)
                 (Z.of_nat (length (map Plain Sample.twelve)))) = false.
Proof.
  split; [lia|]. split; [lia|].
  apply (negative_limit_page (map Plain Sample.twelve) 1 (-3)); lia.
Defined.

(** ** The two branches of [paginate] side by side *)

Lemma sort_docs_perm (s : string * Z) (l : list Mongo.medicine) :
  Mongo.sort_docs s l ≡ₚ l.
Proof.
  destruct s as [k order]. unfold Mongo.sort_docs.
  destruct (0 <? order); apply sort_by_perm.
Qed.

(** X5.  For a page and a page size of at least 1, the query branch of
    [paginate] (count, and find with skip, limit and sort) stores what the
    in-memory branch stores for the sorted list of the matching documents:
    the same items and the same total, hence the same metadata. *)
Theorem query_branch_is_slice_of_sorted :
  forall (model : list Mongo.medicine) (req : request) (page limit : Z)
         (sortObj : string * Z),
    1 <= page -> 1 <= limit ->
    let filter := Mongo.getFilter (default (Mongo.find ∅) (baseQuery req)) in
    Paginate.strategyA model req ((page - 1) * limit) limit sortObj =
    Some (Paginate.strategyB
            (map Plain (Mongo.sort_docs sortObj (Mongo.matching model filter)))
            ((page - 1) * limit) limit).
Proof.
  intros model req page limit sortObj Hp Hl filter.
  unfold Paginate.strategyA, Paginate.strategyB, Mongo.exec. simpl.
  fold filter.
  destruct (Z.ltb_spec ((page - 1) * limit) 0); [nia|].
  rewrite slice_forward by nia.
  unfold Mongo.countDocuments.
  rewrite length_map, (Permutation_length (sort_docs_perm sortObj _)).
  destruct limit as [|l|l]; try lia.
  rewrite <- firstn_map, <- skipn_map. reflexivity.
Qed.

Lemma query_branch_is_slice_of_sorted_witness :
  1 <= 1 /\ 1 <= 10 /\
  Paginate.strategyA Sample.zincAspirin
    (Request Sample.byNameAsc None (Some (Mongo.find Controller.activeOnly))
       None None)
    ((1 - 1) * 10) 10 ("name"%string, 1) =
  Some (Paginate.strategyB
          (map Plain
             (Mongo.sort_docs ("name"%string, 1)
                (Mongo.matching Sample.zincAspirin
                   (Mongo.getFilter
                      (default (Mongo.find ∅)
                         (baseQuery
                            (Request Sample.byNameAsc None
                               (Some (Mongo.find Controller.activeOnly))
                               None None)))))))
          ((1 - 1) * 10) 10).
Proof.
  split; [lia|]. split; [lia|].
  apply (query_branch_is_slice_of_sorted Sample.zincAspirin
           (Request Sample.byNameAsc None
              (Some (Mongo.find Controller.activeOnly)) None None)
           1 10 ("name"%string, 1)); lia.
Defined.

(** ** More on the Geo Ranker *)

Lemma map_item_annotate (userLat userLon : R) (data : list Mongo.medicine) :
  map item (map (Search.annotate userLat userLon) data) = data.
Proof.
  induction data as [|m data IH]; simpl; [reflexivity|]. now rewrite IH.
Qed.

(** X10.  Ranking neither drops nor adds documents: the ranked list is a
    rearrangement of the fetched documents, each with the distance computed
    for that very document. *)
Theorem rank_keeps_documents :
  forall (userLat userLon : R) (data : list Mongo.medicine),
    map item (Search.rank userLat userLon data) ≡ₚ data /\
    Forall (fun r => r = Search.annotate userLat userLon (item r))
      (Search.rank userLat userLon data).
Proof.
  intros userLat userLon data. unfold Search.rank, Search.Array_sort. split.
  - rewrite (Permutation_map item (sort_by_perm _ _)).
    now rewrite map_item_annotate.
  - rewrite (sort_by_perm _ _). apply Forall_forall.
    intros r Hr. apply list_elem_of_In, in_map_iff in Hr as (m & <- & _).
    reflexivity.
Qed.

Lemma lookup_map {A B : Type} (f : A -> B) (l : list A) (i : nat) :
  map f l !! i = f <$> (l !! i).
Proof.
  revert i. induction l as [|x l IH]; intros [|i]; simpl; auto.
Qed.

Lemma page_lookup (results : list listed) (page limit : Z) (a : listed) :
  1 <= page -> 1 <= limit ->
  In a (Paging.pageData results page limit) ->
  exists i : nat,
    results !! i = Some a /\
    (page - 1) * limit <= Z.of_nat i < page * limit.
Proof.
  intros Hp Hl Ha.
  rewrite (pageData_forward results page limit Hp Hl) in Ha. apply list_elem_of_In, list_elem_of_lookup in Ha as [j Hj].
  apply lookup_take_Some in Hj as [Hj Hlt].
  rewrite lookup_drop in Hj.
  exists (Z.to_nat ((page - 1) * limit) + j)%nat. split; [exact Hj|]. nia.
Qed.

(** ** Distances along the equator *)

Section RankedSample.
Local Open Scope R_scope.

(** From the point [(0, 0)] to a point of the equator the distance is the
    arc between the two longitudes. *)
Lemma equator_distance (lon : R) :
  0 <= lon <= 180 ->
  Geo.calculateDistance 0 0 0 lon = 6371 * PI * lon / 180.
Proof.
  intros H. rewrite calculateDistance_asin. unfold Geo.haversine.
  replace ((0 - 0) * PI / 180 / 2) with 0 by lra.
  replace (0 * PI / 180) with 0 by lra.
  rewrite sin_0, cos_0.
  set (t := (lon - 0) * PI / 180 / 2).
  pose proof PI_RGT_0 as HPI.
  assert (Ht : 0 <= t <= PI / 2) by (unfold t; split; nra).
  replace (0 * 0 + 1 * 1 * sin t * sin t) with (Rsqr (sin t))
    by (unfold Rsqr; ring).
  rewrite sqrt_Rsqr by (apply sin_ge_0; lra).
  rewrite asin_sin by lra. unfold t. field.
Qed.

Lemma toFixed2_lt (d1 d2 : R) :
  d1 + 1 / 100 <= d2 -> Geo.toFixed2 d1 < Geo.toFixed2 d2.
Proof.
  intros H. unfold Geo.toFixed2.
  pose proof (base_Int_part (d1 * 100 + / 2)) as [H1 H1'].
  pose proof (base_Int_part (d2 * 100 + / 2)) as [H2 H2'].
  assert (Hlt : IZR (Int_part (d1 * 100 + / 2)) < IZR (Int_part (d2 * 100 + / 2)))
    by lra.
  lra.
Qed.

Lemma equator_annotation (id : string) (lon : R) :
  0 < lon <= 180 ->
  Search.annotate 0 0 (Sample.medOf id (Some (Geo.Coords 0 lon))) =
  Ranked (Sample.medOf id (Some (Geo.Coords 0 lon)))
    (Some (Geo.toFixed2 (6371 * PI * lon / 180))).
Proof.
  intros H. unfold Search.annotate. simpl.
  rewrite equator_distance by lra.
  destruct (Req_dec_T _ 0) as [Hz|_]; [|reflexivity].
  exfalso. pose proof PI_RGT_0. nra.
Qed.

End RankedSample.


(** The two sample owners get a distance each, the one a degree away the
    smaller one, and are ranked in that order. *)
Lemma equator_sample_distances :
  exists x y : R,
    Search.annotate 0 0 Cases.nearOwner = Ranked Cases.nearOwner (Some x) /\
    Search.annotate 0 0 Cases.farOwner = Ranked Cases.farOwner (Some y) /\
    (x < y)%R.
Proof.
  exists (Geo.toFixed2 (6371 * PI * 1 / 180)), (Geo.toFixed2 (6371 * PI * 2 / 180)).
  split; [apply (equator_annotation "C" 1); lra|].
  split; [apply (equator_annotation "B" 2); lra|].
  apply toFixed2_lt. pose proof PI2_3_2. lra.
Qed.

Lemma equator_sample_rank :
  Search.rank 0 0 [Cases.farOwner; Cases.nearOwner] =
  [Search.annotate 0 0 Cases.nearOwner; Search.annotate 0 0 Cases.farOwner].
Proof.
  destruct equator_sample_distances as (x & y & Hx & Hy & Hlt).
  unfold Search.rank, Search.Array_sort. cbn [map sort_by insert_by].
  rewrite Hx, Hy. unfold Search.comesAfter, Search.byDistance. cbn [distance].
  destruct (Rlt_dec 0 (y - x)) as [_|Hn]; [reflexivity|]. exfalso. lra.
Qed.

(** X11.  With ranking active, the pages follow the ranking as a whole:
    an item of an earlier page is never farther than an item of a later
    page, and an item without a distance is never on a page before an item
    with one. *)
Theorem pages_follow_ranking :
  forall (userLat userLon : R) (data : list Mongo.medicine)
         (limit p q : Z) (a b : listed),
    1 <= limit -> 1 <= p -> p < q ->
    let results := map WithDistance (Search.rank userLat userLon data) in
    In a (Paging.pageData results p limit) ->
    In b (Paging.pageData results q limit) ->
    Search.nullsLast (Listed.distanceOf a) (Listed.distanceOf b).
Proof.
  intros userLat userLon data limit p q a b Hl Hp Hpq results Ha Hb.
  apply page_lookup in Ha as (i & Hi & Hir); [|lia..].
  apply page_lookup in Hb as (j & Hj & Hjr); [|lia..].
  subst results. rewrite lookup_map in Hi, Hj.
  destruct (Search.rank userLat userLon data !! i) as [ra|] eqn:Hra;
    [|discriminate].
  destruct (Search.rank userLat userLon data !! j) as [rb|] eqn:Hrb;
    [|discriminate].
  injection Hi as <-. injection Hj as <-. simpl.
  apply distance_gt_false.
  eapply (StronglySorted_lookup
            (fun x y => Search.comesAfter Search.byDistance x y = false)
            _ i j); [|nia|exact Hra|exact Hrb].
  apply sort_by_sorted.
  - apply distance_gt_total.
  - apply distance_gt_trans.
Qed.

(** Two located owners, stored the farther one first, a page size of 1:
    the nearer one is on page 1, the farther one on page 2, each with a
    distance. *)
Lemma pages_follow_ranking_witness :
  let results :=
    map WithDistance (Search.rank 0 0 [Cases.farOwner; Cases.nearOwner]) in
  let a := WithDistance (Search.annotate 0 0 Cases.nearOwner) in
  let b := WithDistance (Search.annotate 0 0 Cases.farOwner) in
  1 <= 1 /\ 1 <= 1 /\ 1 < 2 /\
  In a (Paging.pageData results 1 1) /\
  In b (Paging.pageData results 2 1) /\
  is_Some (Listed.distanceOf a) /\ is_Some (Listed.distanceOf b) /\
  Search.nullsLast (Listed.distanceOf a) (Listed.distanceOf b).
Proof.
  intros results a b.
  assert (Ha : In a (Paging.pageData results 1 1)).
  { subst results. rewrite equator_sample_rank. left. reflexivity. }
  assert (Hb : In b (Paging.pageData results 2 1)).
  { subst results. rewrite equator_sample_rank. left. reflexivity. }
  split; [lia|]. split; [lia|]. split; [lia|].
  split; [exact Ha|]. split; [exact Hb|].
  destruct equator_sample_distances as (x & y & Hx & Hy & _).
  split; [subst a; cbn [Listed.distanceOf]; rewrite Hx; simpl; eauto|].
  split; [subst b; cbn [Listed.distanceOf]; rewrite Hy; simpl; eauto|].
  apply (pages_follow_ranking 0 0 [Cases.farOwner; Cases.nearOwner] 1 1 2 a b);
    [lia | lia | lia | exact Ha | exact Hb].
Defined.

(** ** Coordinates of the request and of the user *)

(** X12.  When the request gives both [latitude] and [longitude] (non-empty
    texts), the stored location of the authenticated user plays no role:
    the response is the one an anonymous requester gets, also when the
    texts are no numbers and ranking is therefore off. *)
Theorem explicit_coordinates_shadow_stored_location :
  forall (base fallback : gmap string Mongo.cond) (model : list Mongo.medicine)
         (q : query) (u : option user) (lat lon : string),
    latitude q = Some lat -> longitude q = Some lon ->
    lat <> ""%string -> lon <> ""%string ->
    Routes.listing base (Controller.listBody fallback) model (Routes.incoming q u) =
    Routes.listing base (Controller.listBody fallback) model (Routes.incoming q None).
Proof.
  intros base fallback model q u lat lon Hlat Hlon Hla Hlo.
  assert (Ht : JS.truthy_str lat && JS.truthy_str lon = true).
  { destruct lat; [contradiction|]. destruct lon; [contradiction|]. reflexivity. }
  unfold Routes.listing, Search.search, Search.userLocation, Routes.incoming.
  simpl. rewrite Hlat, Hlon, Ht.
  destruct (Search.compose base (search q)) as [f| |]; try reflexivity.
  destruct (Mongo.exec model _); reflexivity.
Qed.

Lemma explicit_coordinates_shadow_stored_location_witness :
  latitude (Cases.near "abc" "31") = Some "abc"%string /\
  longitude (Cases.near "abc" "31") = Some "31"%string /\
  "abc"%string <> ""%string /\ "31"%string <> ""%string /\
  Routes.listing Controller.activeOnly (Controller.listBody Controller.activeOnly)
    Sample.zincAspirin (Routes.incoming (Cases.near "abc" "31") (Some Cases.customer)) =
  Routes.listing Controller.activeOnly (Controller.listBody Controller.activeOnly)
    Sample.zincAspirin (Routes.incoming (Cases.near "abc" "31") None).
Proof.
  split; [reflexivity|]. split; [reflexivity|].
  split; [discriminate|]. split; [discriminate|].
  apply (explicit_coordinates_shadow_stored_location Controller.activeOnly
           Controller.activeOnly Sample.zincAspirin (Cases.near "abc" "31")
           (Some Cases.customer) "abc" "31");
    [reflexivity | reflexivity | discriminate | discriminate].
Defined.

Lemma Forall_slice {A : Type} (P : A -> Prop) (l : list A) (i j : Z) :
  Forall P l -> Forall P (JS.slice l i j).
Proof. intros H. unfold JS.slice. apply Forall_take, Forall_drop, H. Qed.

(** The coordinate texts of the examples are read as finite numbers. *)
Lemma parseFloat_30 : JS.parseFloat "30" = Some (IZR 30 * powerRZ 10 0)%R.
Proof. reflexivity. Qed.

Lemma parseFloat_31 : JS.parseFloat "31" = Some (IZR 31 * powerRZ 10 0)%R.
Proof. reflexivity. Qed.

Lemma small_below_MAX_VALUE (n : Z) :
  (Z.abs n <= 1000)%Z -> (Rabs (IZR n * powerRZ 10 0) <= JS.MAX_VALUE)%R.
Proof.
  intros H. simpl. rewrite Rmult_1_r, <- abs_IZR. unfold JS.MAX_VALUE.
  apply IZR_le. etransitivity; [exact H|]. vm_compute. discriminate.
Qed.

Lemma readsFinite_30 : JS.readsFinite "30".
Proof.
  split; [reflexivity|]. split; [reflexivity|]. rewrite parseFloat_30.
  apply small_below_MAX_VALUE. vm_compute. discriminate.
Qed.

Lemma readsFinite_31 : JS.readsFinite "31".
Proof.
  split; [reflexivity|]. split; [reflexivity|]. rewrite parseFloat_31.
  apply small_below_MAX_VALUE. vm_compute. discriminate.
Qed.

(** X13.  In a listing response either every item carries a [distance]
    property or none does: all do when both coordinates of the requester
    are numbers, none otherwise.  The coordinates given in the request are
    texts that [parseFloat] reads as a finite number or as [NaN]. *)
Theorem distance_present_iff_ranked :
  forall (base fallback : gmap string Mongo.cond) (model : list Mongo.medicine)
         (q : query) (u : option user) (b : body),
    (forall lat lon : string,
       latitude q = Some lat -> longitude q = Some lon ->
       JS.readsFinite lat /\ JS.readsFinite lon) ->
    Routes.listing base (Controller.listBody fallback) model (Routes.incoming q u)
      = Next b ->
    match Search.userLocation (Routes.incoming q u) with
    | (Some _, Some _) =>
        Forall (fun l => Listed.hasDistance l = true) (medicines b)
    | _ => Forall (fun l => Listed.hasDistance l = false) (medicines b)
    end.
Proof.
  intros base fallback model q u b _ Hl.
  apply listing_slices_in_memory in Hl as (f & _ & Hm & _).
  rewrite Hm. unfold Routes.materialised.
  destruct (Search.userLocation (Routes.incoming q u)) as [[x|] [y|]];
    apply Forall_slice, Forall_forall; intros l Hin;
    apply list_elem_of_In, in_map_iff in Hin as (r & <- & _); reflexivity.
Qed.

(** With the coordinates 30 and 31 both items carry a distance, with the
    latitude [abc] neither does. *)
Lemma distance_present_iff_ranked_witness :
  let model := [Cases.farOwner; Sample.med "1" "Zinc" 1] in
  let listing q :=
    Routes.listing Controller.activeOnly (Controller.listBody Controller.activeOnly)
      model (Routes.incoming q None) in
  ((forall lat lon : string,
      latitude (Cases.near "30" "31") = Some lat ->
      longitude (Cases.near "30" "31") = Some lon ->
      JS.readsFinite lat /\ JS.readsFinite lon) /\
   exists (b : body) (userLat userLon : R),
     listing (Cases.near "30" "31") = Next b /\
     Search.userLocation (Routes.incoming (Cases.near "30" "31") None) =
       (Some userLat, Some userLon) /\
     length (medicines b) = 2%nat /\
     Forall (fun l => Listed.hasDistance l = true) (medicines b)) /\
  ((forall lat lon : string,
      latitude (Cases.near "abc" "31") = Some lat ->
      longitude (Cases.near "abc" "31") = Some lon ->
      JS.readsFinite lat /\ JS.readsFinite lon) /\
   exists b : body,
     listing (Cases.near "abc" "31") = Next b /\
     Search.userLocation (Routes.incoming (Cases.near "abc" "31") None) =
       (None, Some (IZR 31 * powerRZ 10 0)%R) /\
     length (medicines b) = 2%nat /\
     Forall (fun l => Listed.hasDistance l = false) (medicines b)).
Proof.
  intros model listing.
  assert (Hnum : forall lat lon : string,
             latitude (Cases.near "30" "31") = Some lat ->
             longitude (Cases.near "30" "31") = Some lon ->
             JS.readsFinite lat /\ JS.readsFinite lon).
  { intros lat lon [= <-] [= <-]. split; [apply readsFinite_30|apply readsFinite_31]. }
  assert (Htxt : forall lat lon : string,
             latitude (Cases.near "abc" "31") = Some lat ->
             longitude (Cases.near "abc" "31") = Some lon ->
             JS.readsFinite lat /\ JS.readsFinite lon).
  { intros lat lon [= <-] [= <-]. split; [|apply readsFinite_31].
    split; [reflexivity|]. split; [reflexivity|exact I]. }
  split.
  - split; [exact Hnum|].
    destruct (listing_total_in_paging Controller.activeOnly Controller.activeOnly
                model (Cases.near "30" "31") None Controller.activeOnly eq_refl)
      as [b Hb].
    exists b, (IZR 30 * powerRZ 10 0)%R, (IZR 31 * powerRZ 10 0)%R.
    split; [exact Hb|]. split; [reflexivity|].
    split.
    + apply listing_slices_in_memory in Hb as (f & Hc & Hm & _).
      injection Hc as <-. rewrite Hm.
      unfold Routes.materialised.
      change (Search.userLocation (Routes.incoming (Cases.near "30" "31") None))
        with (Some (IZR 30 * powerRZ 10 0)%R, Some (IZR 31 * powerRZ 10 0)%R).
      cbv beta iota zeta.
      unfold JS.slice. rewrite length_take, length_drop, length_map.
      unfold Search.rank, Search.Array_sort. rewrite sort_by_length, length_map.
      reflexivity.
    + exact (distance_present_iff_ranked Controller.activeOnly Controller.activeOnly
               model (Cases.near "30" "31") None b Hnum Hb).
  - split; [exact Htxt|].
    exists (Body 2 (map Plain model) (Some (Pagination 1 1 2 10 false false))).
    assert (Hb : listing (Cases.near "abc" "31") =
                 Next (Body 2 (map Plain model)
                         (Some (Pagination 1 1 2 10 false false)))).
    { subst listing. cbv beta.
      rewrite (listing_body Controller.activeOnly Controller.activeOnly model
                 (Cases.near "abc" "31") None Controller.activeOnly eq_refl).
      reflexivity. }
    split; [exact Hb|]. split; [reflexivity|]. split; [reflexivity|].
    exact (distance_present_iff_ranked Controller.activeOnly Controller.activeOnly
             model (Cases.near "abc" "31") None _ Htxt Hb).
Defined.

(** ** Authentication and roles *)

Lemma includes_names (roles : list string) (r : string) :
  Role.includes (map Role.Name roles) r = true <-> In r roles.
Proof.
  unfold Role.includes. rewrite existsb_exists. split.
  - intros (a & Ha & He). apply in_map_iff in Ha as (x & <- & Hx).
    apply String.eqb_eq in He. now subst.
  - intros Hr. exists (Role.Name r). split.
    + apply in_map_iff. eauto.
    + apply String.eqb_refl.
Qed.

(** X14.  [authorize] called with role names lets a request pass exactly
    when the user's role is one of them, refuses with FORBIDDEN otherwise
    and with UNAUTHORIZED when there is no user.  Called with one array of
    names, as the medicine routes call it, it lets nobody pass: the array
    is the only allowed "role", and no user's role is equal to it. *)
Theorem authorize_roles :
  (forall (roles : list string) (u : user),
     (Role.authorize (map Role.Name roles) (Some u) = Reply.Continue tt <->
      In (role u) roles) /\
     (~ In (role u) roles ->
      exists r, Role.authorize (map Role.Name roles) (Some u) = Reply.Respond r /\
                Reply.statusCode r = Reply.FORBIDDEN)) /\
  (forall allowedRoles : list Role.arg,
     exists r, Role.authorize allowedRoles None = Reply.Respond r /\
               Reply.statusCode r = Reply.UNAUTHORIZED) /\
  (forall (roles : list string) (u : user),
     exists r, Role.authorize [Role.Names roles] (Some u) = Reply.Respond r /\
               Reply.statusCode r = Reply.FORBIDDEN).
Proof.
  split; [|split].
  - intros roles u. unfold Role.authorize.
    destruct (Role.includes (map Role.Name roles) (role u)) eqn:Hi.
    + apply includes_names in Hi. split; [tauto|]. intros Hn. contradiction.
    + split.
      * split; [discriminate|]. intros Hin. apply includes_names in Hin.
        congruence.
      * intros _. eexists. split; reflexivity.
  - intros allowedRoles. eexists. split; reflexivity.
  - intros roles u. eexists. split; reflexivity.
Qed.

Lemma authorize_roles_witness :
  (Role.authorize (map Role.Name ["customer"; "admin"]%string)
     (Some Cases.pharmacist) = Reply.Continue tt <->
   In (role Cases.pharmacist) ["customer"; "admin"]%string) /\
  (~ In (role Cases.pharmacist) ["customer"; "admin"]%string ->
   exists r,
     Role.authorize (map Role.Name ["customer"; "admin"]%string)
       (Some Cases.pharmacist) = Reply.Respond r /\
     Reply.statusCode r = Reply.FORBIDDEN).
Proof.
  apply (proj1 authorize_roles ["customer"; "admin"]%string Cases.pharmacist).
Defined.

(** X15.  The guard [authenticate, authorize(['pharmacy'])] never hands a
    request on: every request to the five pharmacy routes of the medicine
    router is answered by the guard, with FORBIDDEN when the token is that
    of an existing user (a pharmacy included) and with UNAUTHORIZED
    otherwise; [GET /pharmacy/all] in particular never lists anything. *)
Theorem pharmacy_routes_closed :
  forall (verify : string -> Auth.verdict) (findById : string -> option user)
         (authHeader : option string),
    (exists r,
       Guarded.pharmacyOnly verify findById authHeader = Reply.Respond r /\
       match Auth.authenticate verify findById authHeader with
       | Reply.Continue _ => Reply.statusCode r = Reply.FORBIDDEN
       | Reply.Respond _ => Reply.statusCode r = Reply.UNAUTHORIZED
       end) /\
    (forall (model : list Mongo.medicine) (q : query),
       exists r,
         Guarded.getPharmacyMedicines verify findById model authHeader q
         = Reply.Respond r).
Proof.
  intros verify findById authHeader.
  assert (H : exists r,
             Guarded.pharmacyOnly verify findById authHeader = Reply.Respond r /\
             match Auth.authenticate verify findById authHeader with
             | Reply.Continue _ => Reply.statusCode r = Reply.FORBIDDEN
             | Reply.Respond _ => Reply.statusCode r = Reply.UNAUTHORIZED
             end).
  { unfold Guarded.pharmacyOnly.
    destruct (Auth.authenticate verify findById authHeader) as [u|r] eqn:Ha.
    - eexists. split; reflexivity.
    - exists r. split; [reflexivity|].
      unfold Auth.authenticate in Ha.
      destruct (Auth.bearer authHeader); [|injection Ha as <-; reflexivity].
      destruct (Auth.verifyHeader verify s);
        try (injection Ha as <-; reflexivity).
      destruct (findById id); [discriminate|injection Ha as <-; reflexivity]. }
  split; [exact H|].
  intros model q. destruct H as (r & Hr & _). exists r.
  unfold Guarded.getPharmacyMedicines. rewrite Hr. reflexivity.
Qed.

(** X16.  [authenticate.optional] never replies: it recognises exactly the
    users that [authenticate] would let through and treats every other
    request (no header, no bearer token, expired or invalid token, unknown
    user) as anonymous, so that [GET /api/medicines] answers such a request
    as it answers one without any header. *)
Theorem optional_authentication :
  forall (verify : string -> Auth.verdict) (findById : string -> option user)
         (authHeader : option string),
    Auth.optional verify findById authHeader =
      Reply.Continue
        (match Auth.authenticate verify findById authHeader with
         | Reply.Continue u => Some u
         | Reply.Respond _ => None
         end) /\
    (forall (model : list Mongo.medicine) (q : query) (r : Reply.response),
       Auth.authenticate verify findById authHeader = Reply.Respond r ->
       Guarded.getMedicines verify findById model authHeader q =
       Guarded.getMedicines verify findById model None q).
Proof.
  intros verify findById authHeader.
  assert (H : Auth.optional verify findById authHeader =
              Reply.Continue
                (match Auth.authenticate verify findById authHeader with
                 | Reply.Continue u => Some u
                 | Reply.Respond _ => None
                 end)).
  { unfold Auth.optional, Auth.authenticate.
    destruct (Auth.bearer authHeader); [|reflexivity].
    destruct (Auth.verifyHeader verify s); try reflexivity.
    destruct (findById id); reflexivity. }
  split; [exact H|].
  intros model q r Hr. unfold Guarded.getMedicines.
  rewrite H, Hr. reflexivity.
Qed.

Lemma optional_authentication_witness :
  Auth.authenticate (fun _ => Auth.TokenExpiredError) (fun _ => None)
    (Some "Bearer abc"%string) =
  Reply.Respond (Reply.refuse Reply.UNAUTHORIZED
                   "Your session has expired. Please log in again.") /\
  Guarded.getMedicines (fun _ => Auth.TokenExpiredError) (fun _ => None)
    Sample.zincAspirin (Some "Bearer abc"%string) Sample.noParams =
  Guarded.getMedicines (fun _ => Auth.TokenExpiredError) (fun _ => None)
    Sample.zincAspirin None Sample.noParams.
Proof.
  split; [reflexivity|].
  apply (proj2 (optional_authentication (fun _ => Auth.TokenExpiredError)
                  (fun _ => None) (Some "Bearer abc"%string))
           Sample.zincAspirin Sample.noParams
           (Reply.refuse Reply.UNAUTHORIZED
              "Your session has expired. Please log in again.")).
  reflexivity.
Defined.

(** ** Active medicines only *)

Lemma matches_empty (m : Mongo.medicine) : Mongo.matches ∅ m = true.
Proof. unfold Mongo.matches. apply bool_decide_eq_true, map_Forall_empty. Qed.

Lemma matches_singleton (k : string) (c : Mongo.cond) (m : Mongo.medicine) :
  Mongo.matches {[ k := c ]} m = Mongo.cond_holds k c m.
Proof.
  rewrite <- insert_empty, matches_insert by apply lookup_empty.
  rewrite matches_empty. apply andb_true_r.
Qed.

Lemma matches_activeOnly (m : Mongo.medicine) :
  Mongo.matches Controller.activeOnly m = Mongo.isActive m.
Proof.
  unfold Controller.activeOnly. rewrite matches_singleton.
  destruct m as [? ? ? ? ? ? ? []]; reflexivity.
Qed.

Lemma compose_keeps_base (base f : gmap string Mongo.cond) (s : option string)
    (m : Mongo.medicine) :
  base !! "$or"%string = None ->
  Search.compose base s = Next f ->
  Mongo.matches f m = true -> Mongo.matches base m = true.
Proof.
  intros Hor. unfold Search.compose.
  destruct (Search.searchTerm s) as [t|]; [|now intros [= ->]].
  destruct (RegExp.compile t); try discriminate.
  intros [= <-]. rewrite matches_insert by exact Hor.
  intros H. apply andb_prop in H. tauto.
Qed.

Lemma matching_In (model : list Mongo.medicine) (f : gmap string Mongo.cond)
    (m : Mongo.medicine) :
  In m (Mongo.matching model f) <-> In m model /\ Mongo.matches f m = true.
Proof.
  unfold Mongo.matching. rewrite <- !list_elem_of_In, list_elem_of_filter.
  tauto.
Qed.

Lemma rank_item_In (userLat userLon : R) (data : list Mongo.medicine) (r : ranked) :
  In r (Search.rank userLat userLon data) -> In (item r) data.
Proof.
  unfold Search.rank, Search.Array_sort. intros Hr.
  apply (Permutation_in _ (sort_by_perm _ _)) in Hr.
  apply in_map_iff in Hr as (m & <- & Hm). exact Hm.
Qed.

Lemma materialised_doc_In (model : list Mongo.medicine)
    (f : gmap string Mongo.cond) (req : request) (l : listed) :
  In l (Routes.materialised model f req) -> In (doc l) (Mongo.matching model f).
Proof.
  unfold Routes.materialised.
  destruct (Search.userLocation req) as [[x|] [y|]]; intros Hl;
    apply in_map_iff in Hl as (r & <- & Hr); simpl; auto.
  eapply rank_item_In, Hr.
Qed.

Lemma In_slice {A : Type} (l : list A) (i j : Z) (x : A) :
  In x (JS.slice l i j) -> In x l.
Proof.
  unfold JS.slice. intros H.
  apply list_elem_of_In in H. apply list_elem_of_In.
  eapply subseteq_drop, subseteq_take, H.
Qed.

Lemma listing_docs (base fallback : gmap string Mongo.cond)
    (model : list Mongo.medicine) (q : query) (u : option user) (b : body)
    (l : listed) :
  base !! "$or"%string = None ->
  Routes.listing base (Controller.listBody fallback) model (Routes.incoming q u)
    = Next b ->
  In l (medicines b) ->
  In (doc l) model /\ Mongo.matches base (doc l) = true.
Proof.
  intros Hor Hl Hin.
  apply listing_slices_in_memory in Hl as (f & Hc & Hm & _).
  rewrite Hm in Hin. apply In_slice, materialised_doc_In, matching_In in Hin.
  destruct Hin as [Hmod Hf]. split; [exact Hmod|].
  eapply compose_keeps_base; eauto.
Qed.

(** X17.  Whenever [GET /api/medicines] answers (the search term is absent,
    blank or a pattern of the fragment of [RegExp]), whatever the
    coordinates and the page are, every item it lists is a document of the
    collection that is active: the search condition is added to the base
    filter under a key of its own, it never replaces [isActive: true]. *)
Theorem public_listing_active_only :
  forall (model : list Mongo.medicine) (q : query) (u : option user) (b : body),
    Routes.getMedicines model (Routes.incoming q u) = Next b ->
    Forall (fun l => In (doc l) model /\ Mongo.isActive (doc l) = true)
      (medicines b).
Proof.
  intros model q u b Hl. apply Forall_forall. intros l Hin.
  apply list_elem_of_In in Hin.
  destruct (listing_docs Controller.activeOnly Controller.activeOnly
              model q u b l) as [Hm Ha]; [reflexivity|exact Hl|exact Hin|].
  split; [exact Hm|]. now rewrite <- matches_activeOnly.
Qed.

(** A search for ["asp"] over a collection in which a deactivated medicine
    is named Aspirin; the term finds it, as the listing of the pharmacy
    route shows, and the public listing leaves it out. *)
Lemma public_listing_active_only_witness :
  let forte := Sample.med "3" "Aspirin forte" 3 in
  let b := Body 1 [Plain forte] (Some (Pagination 1 1 1 10 false false)) in
  (In Cases.retired Cases.withRetired /\
   Mongo.isActive Cases.retired = false /\
   Routes.getPharmacyMedicines Cases.withRetired
     (Routes.incoming (Sample.searchFor "asp") None) =
   Next (Body 2 [Plain Cases.retired; Plain forte]
           (Some (Pagination 1 1 2 10 false false)))) /\
  Routes.getMedicines Cases.withRetired
    (Routes.incoming (Sample.searchFor "asp") None) = Next b /\
  Forall (fun l => In (doc l) Cases.withRetired /\ Mongo.isActive (doc l) = true)
    (medicines b).
Proof.
  intros forte b.
  split; [split; [right; left; reflexivity|split; [reflexivity|]]|].
  - vm_compute; reflexivity.
  - split; [vm_compute; reflexivity|].
    apply (public_listing_active_only Cases.withRetired (Sample.searchFor "asp") None).
    vm_compute; reflexivity.
Defined.

(** ** One medicine: fetching, deactivating, activating *)

Lemma matches_activeById (id : string) (m : Mongo.medicine) :
  Mongo.matches (Medicines.activeById id) m =
  Mongo.isActive m && String.eqb (Mongo._id m) id.
Proof.
  unfold Medicines.activeById.
  rewrite matches_insert by (apply lookup_singleton_ne; discriminate).
  rewrite matches_singleton.
  destruct m as [i ? ? ? ? ? ? a]; simpl. f_equal.
  destruct a; reflexivity.
Qed.

Lemma findOne_find (coll : list Mongo.medicine) (id : string) :
  Medicines.findOne coll (Medicines.activeById id) =
  find (fun m => Mongo.isActive m && String.eqb (Mongo._id m) id) coll.
Proof.
  unfold Medicines.findOne, Mongo.matching.
  induction coll as [|m coll IH]; [reflexivity|].
  rewrite filter_cons. simpl. rewrite <- matches_activeById.
  destruct (decide (Mongo.matches (Medicines.activeById id) m = true)) as [H|H].
  - rewrite H. reflexivity.
  - apply not_true_is_false in H. rewrite H. exact IH.
Qed.

Lemma unique_by_id (coll : list Mongo.medicine) (a b : Mongo.medicine) :
  NoDup (map Mongo._id coll) -> In a coll -> In b coll ->
  Mongo._id a = Mongo._id b -> a = b.
Proof.
  induction coll as [|x coll IH]; simpl; [tauto|].
  intros Hnd Ha Hb Hab. apply NoDup_cons in Hnd as [Hx Hnd].
  rewrite list_elem_of_In in Hx.
  destruct Ha as [<-|Ha], Hb as [<-|Hb]; auto.
  - exfalso. apply Hx. rewrite Hab. apply in_map, Hb.
  - exfalso. apply Hx. rewrite <- Hab. apply in_map, Ha.
Qed.

Lemma find_by_id (coll : list Mongo.medicine) (id : string) (m : Mongo.medicine) :
  NoDup (map Mongo._id coll) -> In m coll -> Mongo._id m = id ->
  find (fun x => Mongo.isActive x && String.eqb (Mongo._id x) id) coll =
  if Mongo.isActive m then Some m else None.
Proof.
  intros Hnd Hm Hid.
  destruct (find _ coll) as [x|] eqn:Hf.
  - apply find_some in Hf as [Hx Hp]. apply andb_prop in Hp as [Ha He].
    apply String.eqb_eq in He.
    assert (x = m) by (eapply unique_by_id; eauto; congruence).
    subst x. rewrite Ha. reflexivity.
  - destruct (Mongo.isActive m) eqn:Ha; [|reflexivity].
    exfalso. pose proof (find_none _ _ Hf m Hm) as Hn. simpl in Hn.
    rewrite Ha, Hid, String.eqb_refl in Hn. discriminate.
Qed.

Lemma get_by_id_found (validId : string -> bool) (coll : list Mongo.medicine)
    (id : string) (m : Mongo.medicine) :
  NoDup (map Mongo._id coll) -> validId id = true ->
  In m coll -> Mongo._id m = id ->
  (Mongo.isActive m = true) \/
  Medicines.getMedicineById validId coll id =
  Medicines.Replied (Reply.sendFail [] "Medicine not found" Reply.NOT_FOUND).
Proof.
  intros Hnd Hv Hm Hid. unfold Medicines.getMedicineById.
  rewrite Hv, findOne_find, (find_by_id coll id m Hnd Hm Hid).
  destruct (Mongo.isActive m); [left; reflexivity|right; reflexivity].
Qed.

(** X18.  With document ids unique in the collection, [getMedicineById]
    answers the medicine with the given id when it is active, and
    "not found" both when there is no such medicine and when it is
    inactive; a text that is no document id makes the query throw. *)
Theorem get_by_id_active_only :
  forall (validId : string -> bool) (coll : list Mongo.medicine) (id : string),
    NoDup (map Mongo._id coll) ->
    (validId id = false -> Medicines.getMedicineById validId coll id =
                           Medicines.Thrown) /\
    (validId id = true ->
     (forall m, In m coll -> Mongo._id m = id ->
        Medicines.getMedicineById validId coll id =
        Medicines.Replied
          (if Mongo.isActive m
           then Reply.sendSuccess (Some (Reply.OneMedicine m))
                  "Medicine retrieved successfully" Reply.OK
           else Reply.sendFail [] "Medicine not found" Reply.NOT_FOUND)) /\
     ((forall m, In m coll -> Mongo._id m <> id) ->
        Medicines.getMedicineById validId coll id =
        Medicines.Replied
          (Reply.sendFail [] "Medicine not found" Reply.NOT_FOUND))).
Proof.
  intros validId coll id Hnd. unfold Medicines.getMedicineById. split.
  - intros ->. reflexivity.
  - intros ->. rewrite findOne_find. split.
    + intros m Hm Hid.
      destruct (find _ coll) as [x|] eqn:Hf.
      * apply find_some in Hf as [Hx Hp]. apply andb_prop in Hp as [Ha He].
        apply String.eqb_eq in He.
        assert (x = m) by (eapply unique_by_id; eauto; congruence).
        subst x. rewrite Ha. reflexivity.
      * destruct (Mongo.isActive m) eqn:Ha; [|reflexivity].
        exfalso. pose proof (find_none _ _ Hf m Hm) as Hn. simpl in Hn.
        rewrite Ha, Hid, String.eqb_refl in Hn. discriminate.
    + intros Hno. destruct (find _ coll) as [x|] eqn:Hf; [|reflexivity].
      apply find_some in Hf as [Hx Hp]. apply andb_prop in Hp as [_ He].
      apply String.eqb_eq in He. exfalso. exact (Hno x Hx He).
Qed.

Lemma get_by_id_active_only_witness :
  NoDup (map Mongo._id Sample.zincAspirin) /\
  ((fun _ : string => true) "2"%string = false ->
   Medicines.getMedicineById (fun _ => true) Sample.zincAspirin "2" =
   Medicines.Thrown) /\
  ((fun _ : string => true) "2"%string = true ->
   (forall m, In m Sample.zincAspirin -> Mongo._id m = "2"%string ->
      Medicines.getMedicineById (fun _ => true) Sample.zincAspirin "2" =
      Medicines.Replied
        (if Mongo.isActive m
         then Reply.sendSuccess (Some (Reply.OneMedicine m))
                "Medicine retrieved successfully" Reply.OK
         else Reply.sendFail [] "Medicine not found" Reply.NOT_FOUND)) /\
   ((forall m, In m Sample.zincAspirin -> Mongo._id m <> "2"%string) ->
      Medicines.getMedicineById (fun _ => true) Sample.zincAspirin "2" =
      Medicines.Replied
        (Reply.sendFail [] "Medicine not found" Reply.NOT_FOUND))).
Proof.
  assert (Hnd : NoDup (map Mongo._id Sample.zincAspirin)).
  { simpl. repeat constructor; rewrite ?list_elem_of_In; simpl;
      intuition discriminate. }
  split; [exact Hnd|].
  apply (get_by_id_active_only (fun _ => true) Sample.zincAspirin "2" Hnd).
Defined.

Lemma findByIdAndUpdate_spec (update : Mongo.medicine -> Mongo.medicine)
    (id : string) (coll : list Mongo.medicine) (m : Mongo.medicine) :
  NoDup (map Mongo._id coll) -> In m coll -> Mongo._id m = id ->
  exists pre post,
    coll = pre ++ m :: post /\
    Medicines.findByIdAndUpdate update id coll =
      (pre ++ update m :: post, Some (update m)) /\
    Forall (fun x => Mongo._id x <> id) (pre ++ post).
Proof.
  induction coll as [|x coll IH]; simpl; [tauto|].
  intros Hnd Hm Hid. apply NoDup_cons in Hnd as [Hx Hnd].
  rewrite list_elem_of_In in Hx.
  destruct (String.eqb_spec (Mongo._id x) id) as [He|Hne].
  - assert (x = m).
    { destruct Hm as [|Hm]; [assumption|].
      exfalso. apply Hx. rewrite He, <- Hid. apply in_map, Hm. }
    subst x. exists [], coll. split; [reflexivity|]. split; [reflexivity|].
    simpl. apply Forall_forall. intros y Hy Hyid. apply Hx.
    rewrite He, <- Hyid. apply in_map, list_elem_of_In, Hy.
  - destruct Hm as [->|Hm]; [contradiction|].
    destruct (IH Hnd Hm Hid) as (pre & post & -> & Hu & Hf).
    exists (x :: pre), post. split; [reflexivity|]. rewrite Hu.
    split; [reflexivity|]. simpl. constructor; assumption.
Qed.

Lemma findByIdAndUpdate_twice (f g : Mongo.medicine -> Mongo.medicine)
    (id : string) (coll : list Mongo.medicine) :
  (forall x, Mongo._id (f x) = Mongo._id x) ->
  (forall x, g (f x) = g x) ->
  Medicines.findByIdAndUpdate g id (Medicines.findByIdAndUpdate f id coll).1 =
  Medicines.findByIdAndUpdate g id coll.
Proof.
  intros Hid Hgf. induction coll as [|x coll IH]; [reflexivity|]. simpl.
  destruct (String.eqb (Mongo._id x) id) eqn:He; simpl.
  - rewrite Hid, He, Hgf. reflexivity.
  - destruct (Medicines.findByIdAndUpdate f id coll) as [c1 r1]. simpl in *.
    rewrite He, IH. reflexivity.
Qed.

(** X19.  Deactivating an existing medicine (ids unique, a valid id) is a
    soft delete: the reply carries the medicine, now inactive; the
    collection keeps the same documents under the same ids, the others
    untouched; fetching the medicine by id is then answered "not found";
    and no response of [GET /api/medicines] lists it any more. *)
Theorem deactivation_hides_medicine :
  forall (validId : string -> bool) (now : Z) (coll : list Mongo.medicine)
         (id : string) (m : Mongo.medicine),
    validId id = true -> NoDup (map Mongo._id coll) ->
    In m coll -> Mongo._id m = id ->
    exists coll',
      Medicines.deactivateMedicine validId now coll id =
        (coll', Medicines.Replied
                  (Reply.sendSuccess
                     (Some (Reply.OneMedicine (Medicines.setActive false now m)))
                     "Medicine deactivated successfully" Reply.OK)) /\
      map Mongo._id coll' = map Mongo._id coll /\
      (forall x, Mongo._id x <> id -> (In x coll' <-> In x coll)) /\
      Medicines.getMedicineById validId coll' id =
        Medicines.Replied (Reply.sendFail [] "Medicine not found" Reply.NOT_FOUND) /\
      (forall (q : query) (u : option user) (b : body),
         Routes.getMedicines coll' (Routes.incoming q u) = Next b ->
         Forall (fun l => Mongo._id (doc l) <> id) (medicines b)).
Proof.
  intros validId now coll id m Hv Hnd Hm Hid.
  destruct (findByIdAndUpdate_spec (Medicines.setActive false now) id coll m
              Hnd Hm Hid) as (pre & post & Hcoll & Hu & Hf).
  set (m' := Medicines.setActive false now m) in *.
  exists (pre ++ m' :: post).
  assert (Hids : map Mongo._id (pre ++ m' :: post) = map Mongo._id coll).
  { rewrite Hcoll, !map_app. reflexivity. }
  assert (Hnd' : NoDup (map Mongo._id (pre ++ m' :: post))) by now rewrite Hids.
  assert (Hm' : In m' (pre ++ m' :: post)) by (apply in_elt).
  split; [|split; [|split; [|split]]].
  - unfold Medicines.deactivateMedicine, Medicines.switchMedicine.
    rewrite Hv. fold m'. rewrite Hu. reflexivity.
  - exact Hids.
  - intros x Hx. rewrite Hcoll, !in_app_iff. simpl.
    assert (m' <> x) by (intros <-; apply Hx; exact Hid).
    assert (m <> x) by (intros <-; apply Hx; exact Hid). tauto.
  - destruct (get_by_id_found validId (pre ++ m' :: post) id m' Hnd' Hv Hm' Hid)
      as [H|H]; [discriminate H|exact H].
  - intros q u b Hl. apply Forall_forall. intros l Hin Hlid.
    apply list_elem_of_In in Hin.
    destruct (listing_docs Controller.activeOnly Controller.activeOnly
                _ q u b l eq_refl Hl Hin) as [Hd Ha].
    rewrite matches_activeOnly in Ha.
    assert (Hid' : Mongo._id m' = id) by exact Hid.
    assert (doc l = m')
      by (apply (unique_by_id _ (doc l) m' Hnd' Hd Hm'); congruence).
    rewrite H in Ha. discriminate Ha.
Qed.

Lemma deactivation_hides_medicine_witness :
  (fun _ : string => true) "2"%string = true /\
  NoDup (map Mongo._id Sample.zincAspirin) /\
  In (Sample.med "2" "Aspirin" 2) Sample.zincAspirin /\
  Mongo._id (Sample.med "2" "Aspirin" 2) = "2"%string /\
  exists coll',
    Medicines.deactivateMedicine (fun _ => true) 5 Sample.zincAspirin "2" =
      (coll', Medicines.Replied
                (Reply.sendSuccess
                   (Some (Reply.OneMedicine
                            (Medicines.setActive false 5 (Sample.med "2" "Aspirin" 2))))
                   "Medicine deactivated successfully" Reply.OK)) /\
    map Mongo._id coll' = map Mongo._id Sample.zincAspirin /\
    (forall x, Mongo._id x <> "2"%string ->
               (In x coll' <-> In x Sample.zincAspirin)) /\
    Medicines.getMedicineById (fun _ => true) coll' "2" =
      Medicines.Replied (Reply.sendFail [] "Medicine not found" Reply.NOT_FOUND) /\
    (forall (q : query) (u : option user) (b : body),
       Routes.getMedicines coll' (Routes.incoming q u) = Next b ->
       Forall (fun l => Mongo._id (doc l) <> "2"%string) (medicines b)).
Proof.
  assert (Hnd : NoDup (map Mongo._id Sample.zincAspirin)).
  { simpl. repeat constructor; rewrite ?list_elem_of_In; simpl;
      intuition discriminate. }
  split; [reflexivity|]. split; [exact Hnd|].
  split; [simpl; auto|]. split; [reflexivity|].
  apply (deactivation_hides_medicine (fun _ => true) 5 Sample.zincAspirin "2"
           (Sample.med "2" "Aspirin" 2));
    [reflexivity | exact Hnd | simpl; auto | reflexivity].
Defined.

(** X20.  Of two switches of the same medicine the later one decides:
    activating after deactivating (or deactivating after activating, or
    repeating either) leaves the collection, and gives the reply, that the
    later switch alone would. *)
Theorem later_switch_decides :
  forall (validId : string -> bool) (b1 b2 : bool) (done1 done2 : string)
         (now1 now2 : Z) (coll : list Mongo.medicine) (id : string),
    Medicines.switchMedicine validId b2 done2 now2
      (Medicines.switchMedicine validId b1 done1 now1 coll id).1 id =
    Medicines.switchMedicine validId b2 done2 now2 coll id.
Proof.
  intros validId b1 b2 done1 done2 now1 now2 coll id.
  unfold Medicines.switchMedicine.
  destruct (validId id); [|reflexivity].
  pose proof (findByIdAndUpdate_twice (Medicines.setActive b1 now1)
                (Medicines.setActive b2 now2) id coll
                (fun _ => eq_refl) (fun _ => eq_refl)) as H.
  destruct (Medicines.findByIdAndUpdate (Medicines.setActive b1 now1) id coll)
    as [c1 [r1|]]; simpl in *; rewrite H; reflexivity.
Qed.

(** ** Ranking and the set of found medicines *)

Lemma map_doc_plain (l : list Mongo.medicine) : map doc (map Plain l) = l.
Proof. induction l as [|m l IH]; simpl; [reflexivity|]. now rewrite IH. Qed.

Lemma map_doc_ranked (l : list ranked) :
  map doc (map WithDistance l) = map item l.
Proof. induction l as [|r l IH]; simpl; [reflexivity|]. now rewrite IH. Qed.

Lemma materialised_docs (model : list Mongo.medicine)
    (f : gmap string Mongo.cond) (req : request) :
  map doc (Routes.materialised model f req) ≡ₚ Mongo.matching model f.
Proof.
  unfold Routes.materialised, Search.rank, Search.Array_sort.
  destruct (Search.userLocation req) as [[x|] [y|]];
    rewrite ?map_doc_plain; try reflexivity.
  rewrite map_doc_ranked, (Permutation_map item (sort_by_perm _ _)).
  now rewrite map_item_annotate.
Qed.

(** X21.  Coordinates change the order of a listing, never its content:
    for the same parameters otherwise, the list materialised for a
    requester with coordinates holds the same documents, each as often, as
    the list materialised for one without, and the total reported is the
    same. *)
Theorem ranking_keeps_found_set :
  forall (model : list Mongo.medicine) (f : gmap string Mongo.cond)
         (req req' : request),
    map doc (Routes.materialised model f req) ≡ₚ
    map doc (Routes.materialised model f req') /\
    length (Routes.materialised model f req) =
    length (Routes.materialised model f req').
Proof.
  intros model f req req'. split.
  - now rewrite !materialised_docs.
  - now rewrite !materialised_length.
Qed.

(** ** The paging parameters as read *)

Lemma num_or_nonzero (n : option Z) (d : Z) : d <> 0 -> JS.num_or n d <> 0.
Proof.
  intros Hd. unfold JS.num_or. destruct n as [v|]; [|exact Hd].
  destruct (Z.eqb_spec v 0); [exact Hd|assumption].
Qed.

(** [page] and [limit] are read with [parseInt]: an absent,
    non-numeric or zero value gives the default (1 and 10), every other
    number is used as it is, digits followed by other text included
    (["5px"] is 5); in no case is either of them 0, so the division behind
    [totalPages] always has a divisor. *)
Lemma paging_parameters_read :
  forall (q : query),
    Paginate.pageOf q <> 0 /\ Paginate.limitOf q <> 0 /\
    (forall n : Z, JS.parseInt (page q) = Some n -> n <> 0 ->
                   Paginate.pageOf q = n) /\
    (forall n : Z, JS.parseInt (limit q) = Some n -> n <> 0 ->
                   Paginate.limitOf q = n) /\
    (JS.parseInt (page q) = None \/ JS.parseInt (page q) = Some 0 ->
     Paginate.pageOf q = 1) /\
    (JS.parseInt (limit q) = None \/ JS.parseInt (limit q) = Some 0 ->
     Paginate.limitOf q = 10).
Proof.
  intros q. unfold Paginate.pageOf, Paginate.limitOf.
  split; [apply num_or_nonzero; lia|].
  split; [apply num_or_nonzero; lia|].
  split; [intros n -> Hn; apply num_or_passes, Hn|].
  split; [intros n -> Hn; apply num_or_passes, Hn|].
  split; intros [-> | ->]; reflexivity.
Qed.

(** ** White space around the search term *)

Lemma trimStart_fixed (s : string) :
  (forall c r, s = String c r -> JS.is_ws c = false) -> JS.trimStart s = s.
Proof.
  destruct s as [|c r]; [reflexivity|]. intros H. simpl.
  now rewrite (H c r eq_refl).
Qed.

Lemma trimStart_split (s : string) :
  exists w, list_ascii_of_string s = w ++ list_ascii_of_string (JS.trimStart s).
Proof.
  induction s as [|c s [w IH]]; simpl; [exists []; reflexivity|].
  destruct (JS.is_ws c).
  - exists (c :: w). simpl. now rewrite IH.
  - exists []. reflexivity.
Qed.

Lemma chars_inj (s t : string) :
  list_ascii_of_string s = list_ascii_of_string t -> s = t.
Proof.
  intros H. apply (f_equal string_of_list_ascii) in H.
  now rewrite !string_of_list_ascii_of_string in H.
Qed.

Lemma str_rev_involutive (s : string) : JS.str_rev (JS.str_rev s) = s.
Proof.
  apply chars_inj. rewrite !str_rev_chars. apply rev_involutive.
Qed.

(** The trimmed text is empty or begins and ends with other characters
    than white space, so trimming it again changes nothing. *)
Lemma trim_idempotent (s : string) : JS.trim (JS.trim s) = JS.trim s.
Proof.
  unfold JS.trim, JS.trimEnd.
  set (a := JS.trimStart s).
  set (b := JS.trimStart (JS.str_rev a)).
  assert (Hb : JS.trimStart b = b).
  { subst b. apply trimStart_fixed. intros c r Hc.
    destruct (trimStart_head (JS.str_rev a)) as [He|(c' & r' & He & Hw)];
      rewrite He in Hc; [discriminate|]. now injection Hc as <- _. }
  assert (Ha : JS.trimStart (JS.str_rev b) = JS.str_rev b).
  { apply trimStart_fixed. intros c r Hc.
    destruct (trimStart_split (JS.str_rev a)) as [w Hw]. fold b in Hw.
    rewrite str_rev_chars in Hw.
    apply (f_equal (@rev ascii)) in Hw. rewrite rev_involutive, rev_app_distr in Hw.
    rewrite <- str_rev_chars, Hc in Hw. simpl in Hw.
    destruct (trimStart_head s) as [He|(c' & r' & He & Hws)]; fold a in He;
      rewrite He in Hw; simpl in Hw; [discriminate|].
    now injection Hw as <- _. }
  rewrite Ha, str_rev_involutive, Hb. reflexivity.
Qed.

Lemma searchTerm_trim (s : string) :
  Search.searchTerm (Some (JS.trim s)) = Search.searchTerm (Some s).
Proof.
  unfold Search.searchTerm. rewrite trim_idempotent.
  destruct (JS.trim s) eqn:Ht; simpl.
  - now rewrite andb_false_r.
  - destruct s; [discriminate Ht|reflexivity].
Qed.

(** X22.  White space around the search term does not matter: a listing
    request answers the same for [search=" aspirin "] as for
    [search="aspirin"], and in general for a term as for the term
    trimmed. *)
Theorem search_ignores_outer_whitespace :
  forall (base fallback : gmap string Mongo.cond) (model : list Mongo.medicine)
         (q : query) (u : option user) (s : string),
    Routes.listing base (Controller.listBody fallback) model
      (Routes.incoming (Variants.withSearch q (Some (JS.trim s))) u) =
    Routes.listing base (Controller.listBody fallback) model
      (Routes.incoming (Variants.withSearch q (Some s)) u).
Proof.
  intros base fallback model q u s.
  assert (Hc : Search.compose base (Some (JS.trim s)) =
               Search.compose base (Some s))
    by (unfold Search.compose; now rewrite searchTerm_trim).
  unfold Routes.listing, Search.search, Routes.incoming, Variants.withSearch.
  cbn -[Search.searchTerm Search.compose JS.trim Mongo.exec].
  rewrite Hc, searchTerm_trim.
  destruct (Search.compose base (Some s)) as [f| |]; try reflexivity.
  destruct (Mongo.exec model _); reflexivity.
Qed.

(** ** Letter case of the search term *)

Lemma matching_ext (model : list Mongo.medicine) (f g : gmap string Mongo.cond) :
  (forall m, Mongo.matches f m = Mongo.matches g m) ->
  Mongo.matching model f = Mongo.matching model g.
Proof.
  intros H. unfold Mongo.matching.
  induction model as [|m model IH]; [reflexivity|].
  rewrite !filter_cons, IH, H.
  destruct (decide (Mongo.matches g m = true)); reflexivity.
Qed.

(** X23.  For terms without pattern syntax characters the search does not
    depend on the letter case of the term: two such terms that are equal
    up to case give the same listing, over a base filter without an [$or]
    of its own. *)
Theorem search_term_case_insensitive :
  forall (base fallback : gmap string Mongo.cond) (model : list Mongo.medicine)
         (q : query) (u : option user) (s1 s2 t1 t2 : string),
    base !! "$or"%string = None ->
    Search.searchTerm (Some s1) = Some t1 ->
    Search.searchTerm (Some s2) = Some t2 ->
    RegExp.plain t1 = true -> RegExp.plain t2 = true ->
    RegExp.fold_case (list_ascii_of_string t1) =
    RegExp.fold_case (list_ascii_of_string t2) ->
    Routes.listing base (Controller.listBody fallback) model
      (Routes.incoming (Variants.withSearch q (Some s1)) u) =
    Routes.listing base (Controller.listBody fallback) model
      (Routes.incoming (Variants.withSearch q (Some s2)) u).
Proof.
  intros base fallback model q u s1 s2 t1 t2 Hor H1 H2 Hp1 Hp2 Hfold.
  destruct (plain_term_holds (Some s1) t1 H1 Hp1) as (r1 & Hc1 & Hm1).
  destruct (plain_term_holds (Some s2) t2 H2 Hp2) as (r2 & Hc2 & Hm2).
  rewrite (listing_body base fallback model (Variants.withSearch q (Some s1)) u
             _ (Hc1 base)).
  rewrite (listing_body base fallback model (Variants.withSearch q (Some s2)) u
             _ (Hc2 base)).
  assert (Hmatch : Mongo.matching model (<["$or"%string := Search.orClause r1]> base) =
                   Mongo.matching model (<["$or"%string := Search.orClause r2]> base)).
  { apply matching_ext. intros m. rewrite !matches_insert by exact Hor.
    f_equal. apply eq_true_iff_eq. rewrite Hm1, Hm2.
    unfold RegExp.ci_includes. rewrite Hfold. reflexivity. }
  unfold Routes.materialised. rewrite Hmatch. reflexivity.
Qed.

Lemma search_term_case_insensitive_witness :
  Controller.activeOnly !! "$or"%string = None /\
  Search.searchTerm (Some "aspirin"%string) = Some "aspirin"%string /\
  Search.searchTerm (Some " ASPIRIN"%string) = Some "ASPIRIN"%string /\
  RegExp.plain "aspirin" = true /\ RegExp.plain "ASPIRIN" = true /\
  RegExp.fold_case (list_ascii_of_string "aspirin") =
  RegExp.fold_case (list_ascii_of_string "ASPIRIN") /\
  Routes.listing Controller.activeOnly (Controller.listBody Controller.activeOnly)
    Sample.zincAspirin
    (Routes.incoming (Variants.withSearch Sample.noParams (Some "aspirin"%string))
       None) =
  Routes.listing Controller.activeOnly (Controller.listBody Controller.activeOnly)
    Sample.zincAspirin
    (Routes.incoming (Variants.withSearch Sample.noParams (Some " ASPIRIN"%string))
       None).
Proof.
  split; [reflexivity|]. split; [reflexivity|]. split; [reflexivity|].
  split; [reflexivity|]. split; [reflexivity|]. split; [reflexivity|].
  apply (search_term_case_insensitive Controller.activeOnly Controller.activeOnly
           Sample.zincAspirin Sample.noParams None "aspirin" " ASPIRIN"
           "aspirin" "ASPIRIN"); reflexivity.
Defined.


(** ** A base filter with an [$or] of its own *)




(** ** The token of the authorization header *)

Lemma split_single (t : string) :
  Variants.spaceless t = true -> Auth.split " " t = [t].
Proof.
  unfold Variants.spaceless. induction t as [|c t IH]; simpl; [reflexivity|].
  intros H. apply andb_prop in H as [Hc Ht]. apply negb_true_iff in Hc.
  rewrite Hc, (IH Ht). reflexivity.
Qed.

Lemma split_head (t rest : string) :
  Variants.spaceless t = true ->
  Auth.split " " (t ++ String " " rest) = t :: Auth.split " " rest.
Proof.
  unfold Variants.spaceless. induction t as [|c t IH]; simpl; [reflexivity|].
  intros H. apply andb_prop in H as [Hc Ht]. apply negb_true_iff in Hc.
  rewrite Hc, (IH Ht). reflexivity.
Qed.

(** X26.  Of a header ["Bearer <token>"] the token handed to the verifier
    is the text after the first space up to the next one: whatever follows
    a second space is ignored. *)
Theorem bearer_token_is_second_word :
  forall (verify : string -> Auth.verdict) (token rest : string),
    Variants.spaceless token = true ->
    Auth.bearer (Some ("Bearer " ++ token)%string) =
      Some ("Bearer " ++ token)%string /\
    Auth.verifyHeader verify ("Bearer " ++ token) = verify token /\
    Auth.verifyHeader verify ("Bearer " ++ token ++ String " " rest) =
      verify token.
Proof.
  intros verify token rest Ht. split; [destruct token; reflexivity|].
  unfold Auth.verifyHeader.
  change ("Bearer " ++ token)%string with ("Bearer" ++ String " " token)%string.
  change ("Bearer " ++ token ++ String " " rest)%string
    with ("Bearer" ++ String " " (token ++ String " " rest))%string.
  rewrite !split_head by reflexivity.
  rewrite split_single, split_head by exact Ht. split; reflexivity.
Qed.

Lemma bearer_token_is_second_word_witness :
  Variants.spaceless "abc" = true /\
  Auth.bearer (Some ("Bearer " ++ "abc")%string) =
    Some ("Bearer " ++ "abc")%string /\
  Auth.verifyHeader (fun t => Auth.Decoded t) ("Bearer " ++ "abc") =
    (fun t => Auth.Decoded t) "abc"%string /\
  Auth.verifyHeader (fun t => Auth.Decoded t)
    ("Bearer " ++ "abc" ++ String " " "def") =
    (fun t => Auth.Decoded t) "abc"%string.
Proof.
  split; [reflexivity|].
  apply (bearer_token_is_second_word (fun t => Auth.Decoded t) "abc" "def").
  reflexivity.
Defined.

